(** * flint: statement classifier, unit model builder and build-graph resolver

    A shallow embedding of the parts of [flint] that decide how a statement
    is classified ([Unit.statement], [Unit.end_statement]), how namelist and
    declaration statements are read ([Unit.parse_namelist],
    [Unit.parse_declaration_construct]) and how [makemake] resolves modules,
    external symbols and link lists.

    The classifier compares tokens by their text only, so its statements are
    lists of strings; the builder reads the comments attached to a token as
    well, so its tokens are records.  Python exceptions are explicit: a call
    either returns a value or raises. *)

From Stdlib Require Import ZArith Bool List Ascii String Lia.
From stdpp Require Import gmap strings list.

Open Scope string_scope.
Open Scope list_scope.

(* ================================================================== *)
(** * Definitions *)
(* ================================================================== *)

(** ** Python basics *)

(** Messages of the [assert] statements of [makemake]; a bare [assert] of
    the parser has [NoMessage].
    - [DuplicateProgram]: "program name %s from %s has already been seen"
    - [DuplicateModule]: "module name %s from %s has already been defined"
    - [DuplicateExternalDefinition]:
      "external fn %s from %s has already been defined"
    - [SeveralPrograms]: "Option --executable was given but %i programs
      were found in source" *)
Inductive message : Type :=
  | NoMessage
  | DuplicateProgram
  | DuplicateModule
  | DuplicateExternalDefinition
  | SeveralPrograms.

Inductive exn : Type :=
  | StopIteration
  | IndexError
  | KeyError
  | AttributeError
  | TypeError
  | UnboundLocalError
  | AssertionError (msg : message).

(** The outcome of a call: [return v] or [raise e]. *)
Inductive outcome (A : Type) : Type :=
  | Returns (v : A)
  | Raises (e : exn).
Arguments Returns {A} v.
Arguments Raises {A} e.

(** [w in l] for a list of strings. *)
Definition in_list (w : string) (l : list string) : bool :=
  existsb (String.eqb w) l.

(** [next((i for i, w in enumerate(line) if w in table), -1)], counting
    from [i]. *)
Fixpoint first_index (table line : list string) (i : Z) : Z :=
  match line with
  | [] => (-1)%Z
  | w :: ws => if in_list w table then i else first_index table ws (i + 1)%Z
  end.

(** [while word != ')': word = next(words)], started on a word that is not
    [')'], over the iterator [words]: [stop] when the iterator runs out
    ([StopIteration]), otherwise [k] on what is left after the first [')']. *)
Fixpoint until_close {A : Type} (k : list string -> A) (stop : A)
    (words : list string) : A :=
  match words with
  | [] => stop
  | c :: rest => if String.eqb c ")" then k rest else until_close k stop rest
  end.

(** Truth value of what [end_statement] returns ([None] is falsy). *)
Definition truthy (r : outcome (option bool)) : bool :=
  match r with
  | Returns (Some b) => b
  | _ => false
  end.

(** ** src/flint/unit.py *)

Module Legacy.

Definition unit_types : list string :=
  ["program"; "function"; "subroutine"; "module"; "submodule"; "block"].

Definition intrinsic_types : list string :=
  ["integer"; "real"; "double"; "complex"; "character"; "logical"].

Definition unit_prefix : list string :=
  intrinsic_types ++
  ["elemental"; "impure"; "non_recursive"; "pure"; "recursive"].

(** The [while True] loop of [statement]; [word] is the current word and
    [words] the iterator over [line[:idx]].  A [StopIteration] leaves the
    loop, after which [statement] returns [True]. *)
Fixpoint prefix_loop (words : list string) (word : string) {struct words}
    : bool :=
  if in_list word intrinsic_types then
    match words with
    | [] => true
    | w :: ws =>
        if String.eqb w "(" then
          until_close
            (fun rest =>
               match rest with [] => true | w' :: ws' => prefix_loop ws' w' end)
            true ws
        else
          match ws with [] => true | w' :: ws' => prefix_loop ws' w' end
    end
  else if negb (in_list word unit_prefix) then false
  else match words with [] => true | w :: ws => prefix_loop ws w end.

(** [line[:idx]] is not empty when [idx > 0], so that the first [next] does
    not raise. *)
Definition statement (line : list string) : bool :=
  let idx := first_index unit_types line 0 in
  if (idx =? 0)%Z then true
  else if (0 <? idx)%Z then
    match firstn (Z.to_nat idx) line with
    | [] => true
    | word :: words => prefix_loop words word
    end
  else false.

(** [assert self.utype] fails on [None] and on the empty string; [line[0]]
    raises on an empty line; a line whose first token does not start with
    [end] falls off the end of the function, which then returns [None]. *)
Definition end_statement (utype : option string) (line : list string)
    : outcome (option bool) :=
  match utype with
  | None => Raises (AssertionError NoMessage)
  | Some k =>
      if String.eqb k "" then Raises (AssertionError NoMessage)
      else
        match line with
        | [] => Raises IndexError
        | w0 :: tl =>
            if String.prefix "end" w0 then
              if Nat.eqb (length line) 1 && in_list w0 ["end"; ("end" ++ k)%string]
              then Returns (Some true)
              else if Nat.leb 2 (length line)
                      && match tl with
                         | w1 :: _ => String.eqb w0 "end" && String.eqb w1 k
                         | [] => false
                         end
              then Returns (Some true)
              else Returns (Some false)
            else Returns None
        end
  end.

End Legacy.

(** ** src/flint/units/unit.py: the classifier *)

Module Units.

Definition unit_types : list string :=
  ["program"; "function"; "subroutine"; "module"; "submodule"; "block";
   "type"].

Definition prefix_words : list string :=
  ["elemental"; "impure"; "non_recursive"; "pure"; "recursive"].

Section Classifier.

(** [Variable.intrinsic_types] of [flint.variable]. *)
Variable intrinsic_types : list string.

Definition unit_prefix : list string := intrinsic_types ++ prefix_words.

Fixpoint prefix_loop (words : list string) (word : string) {struct words}
    : bool :=
  if in_list word intrinsic_types then
    match words with
    | [] => true
    | w :: ws =>
        if String.eqb w "(" then
          until_close
            (fun rest =>
               match rest with [] => true | w' :: ws' => prefix_loop ws' w' end)
            true ws
        else
          match ws with [] => true | w' :: ws' => prefix_loop ws' w' end
    end
  else if negb (in_list word unit_prefix) then false
  else match words with [] => true | w :: ws => prefix_loop ws w end.

(** [line[:idx]] is not empty when [idx > 0], so that the first [next] does
    not raise. *)
Definition statement (line : list string) : bool :=
  let idx := first_index unit_types line 0 in
  if (idx =? 0)%Z then true
  else if (0 <? idx)%Z then
    match firstn (Z.to_nat idx) line with
    | [] => true
    | word :: words => prefix_loop words word
    end
  else false.

End Classifier.

(** The same function as in src/flint/unit.py. *)
Definition end_statement (utype : option string) (line : list string)
    : outcome (option bool) :=
  match utype with
  | None => Raises (AssertionError NoMessage)
  | Some k =>
      if String.eqb k "" then Raises (AssertionError NoMessage)
      else
        match line with
        | [] => Raises IndexError
        | w0 :: tl =>
            if String.prefix "end" w0 then
              if Nat.eqb (length line) 1 && in_list w0 ["end"; ("end" ++ k)%string]
              then Returns (Some true)
              else if Nat.leb 2 (length line)
                      && match tl with
                         | w1 :: _ => String.eqb w0 "end" && String.eqb w1 k
                         | [] => false
                         end
              then Returns (Some true)
              else Returns (Some false)
            else Returns None
        end
  end.

End Units.

(** ** The classifier as the specification words it *)

Module ClassifierSpec.

(** Runs [k] on what follows the parenthesis that closes a group opened
    just before [words]; [depth] counts the groups opened inside it.
    [fail] when the group is never closed. *)
Fixpoint matching_close {A : Type} (k : list string -> A) (fail : A)
    (depth : nat) (words : list string) : A :=
  match words with
  | [] => fail
  | c :: rest =>
      if String.eqb c ")" then
        match depth with
        | O => k rest
        | S d => matching_close k fail d rest
        end
      else if String.eqb c "(" then matching_close k fail (S depth) rest
      else matching_close k fail depth rest
  end.

(** "every preceding token must form a legal prefix: an intrinsic-type
    keyword (optionally followed by a balanced parenthesized kind-selector)
    or one of elemental, impure, pure, recursive, non_recursive". *)
Fixpoint legal_prefix (intrinsic_types : list string) (words : list string)
    : bool :=
  match words with
  | [] => true
  | w :: rest =>
      if in_list w intrinsic_types then
        match rest with
        | [] => true
        | p :: body =>
            if String.eqb p "(" then
              matching_close (fun rest' => legal_prefix intrinsic_types rest')
                false 0 body
            else legal_prefix intrinsic_types rest
        end
      else if in_list w Units.prefix_words then
        legal_prefix intrinsic_types rest
      else false
  end.

(** What [Units.statement] accepts before the unit keyword: items read from
    left to right, an item being a prefix word, or an intrinsic-type keyword
    together with the token after it, which is not looked at unless it is
    ["("]; then the item runs through the first [")"], or to the end of the
    words when there is none. *)
Inductive lenient_prefix (intrinsic_types : list string)
    : list string -> Prop :=
  | lenient_nil : lenient_prefix intrinsic_types []
  | lenient_word w rest :
      in_list w intrinsic_types = false ->
      In w Units.prefix_words ->
      lenient_prefix intrinsic_types rest ->
      lenient_prefix intrinsic_types (w :: rest)
  | lenient_type_last ty :
      in_list ty intrinsic_types = true ->
      lenient_prefix intrinsic_types [ty]
  | lenient_type_token ty t rest :
      in_list ty intrinsic_types = true ->
      t <> "(" ->
      lenient_prefix intrinsic_types rest ->
      lenient_prefix intrinsic_types (ty :: t :: rest)
  | lenient_type_open ty body :
      in_list ty intrinsic_types = true ->
      ~ In ")" body ->
      lenient_prefix intrinsic_types (ty :: "(" :: body)
  | lenient_type_group ty body rest :
      in_list ty intrinsic_types = true ->
      ~ In ")" body ->
      lenient_prefix intrinsic_types rest ->
      lenient_prefix intrinsic_types (ty :: "(" :: body ++ ")" :: rest).

End ClassifierSpec.


(** ** Raising and sequencing *)

#[global] Instance outcome_bind : MBind outcome := fun A B k m =>
  match m with
  | Returns v => k v
  | Raises e => Raises e
  end.

(** [assert cond, msg]: the message is only built when [cond] fails. *)
Definition assert_ (cond : bool) (failure : exn) : outcome unit :=
  if cond then Returns tt else Raises failure.

(** [for x in xs: s = body(s, x)], left at the first exception. *)
Fixpoint for_each {S X : Type} (body : S -> X -> outcome S) (xs : list X)
    (s : S) : outcome S :=
  match xs with
  | [] => Returns s
  | x :: rest => s' ← body s x; for_each body rest s'
  end.

(** ** Insertion-ordered dictionaries

    [programs] and [src_to_obj] are iterated, so the order in which their
    keys were inserted matters. *)

Section Dict.

Context {K V : Type} `{EqDecision K}.

Definition dict_get (d : list (K * V)) (k : K) : option V :=
  snd <$> find (fun kv => bool_decide (fst kv = k)) d.

Definition dict_mem (d : list (K * V)) (k : K) : bool :=
  bool_decide (is_Some (dict_get d k)).

(** [d[k] = v]: a key that is present keeps its position. *)
Fixpoint dict_set (d : list (K * V)) (k : K) (v : V) : list (K * V) :=
  match d with
  | [] => [(k, v)]
  | (k', v') :: rest =>
      if bool_decide (k' = k) then (k, v) :: rest
      else (k', v') :: dict_set rest k v
  end.

Definition dict_keys (d : list (K * V)) : list K := map fst d.
Definition dict_values (d : list (K * V)) : list V := map snd d.

End Dict.

(** ** src/flint/tools/makemake.py *)

Module MakeMake.

(** *** Strings *)

(** [str.lower], on ASCII letters. *)
Definition lower_ascii (c : ascii) : ascii :=
  let n := nat_of_ascii c in
  if Nat.leb 65 n && Nat.leb n 90 then ascii_of_nat (n + 32) else c.

Fixpoint lower (s : string) : string :=
  match s with
  | EmptyString => EmptyString
  | String c rest => String (lower_ascii c) (lower rest)
  end.

(** [s.split('/')[-1]]; [cur] is the component being read. *)
Fixpoint last_component (s cur : string) : string :=
  match s with
  | EmptyString => cur
  | String c rest =>
      if Ascii.eqb c "/" then last_component rest EmptyString
      else last_component rest (cur ++ String c EmptyString)%string
  end.

(** [s.replace(old, new)] for a non-empty [old]: occurrences are replaced
    from the left and do not overlap; [skip] characters of an occurrence
    just replaced are still to be passed. *)
Fixpoint replace_from (skip : nat) (old new s : string) : string :=
  match s with
  | EmptyString => EmptyString
  | String c rest =>
      match skip with
      | S n => replace_from n old new rest
      | O =>
          if String.prefix old s
          then (new ++ replace_from (String.length old - 1) old new rest)%string
          else String c (replace_from 0 old new rest)
      end
  end.

Definition replace (old new s : string) : string := replace_from 0 old new s.

(** [this_src.split('/')[-1].replace('.f90','.o').replace('.F90','.o')] *)
Definition object_name (this_src : string) : string :=
  replace ".F90" ".o" (replace ".f90" ".o" (last_component this_src "")).

(** *** The parsed project *)

(** The fields of a [Unit] that [makemake] reads.  [used_modules] and
    [callees] are Python sets: the lists give their elements in the order
    in which the set is iterated. *)
#[warnings="-register-all"]
Inductive unit_ : Type :=
  Unit (name : option string) (utype : string)
       (used_modules callees : list string) (subprograms : list unit_).

Definition name (u : unit_) : option string :=
  match u with Unit n _ _ _ _ => n end.
Definition utype (u : unit_) : string :=
  match u with Unit _ t _ _ _ => t end.
Definition used_modules (u : unit_) : list string :=
  match u with Unit _ _ m _ _ => m end.
Definition callees (u : unit_) : list string :=
  match u with Unit _ _ _ c _ => c end.
Definition subprograms (u : unit_) : list unit_ :=
  match u with Unit _ _ _ _ s => s end.

Record source : Type := Source { path : string; units : list unit_ }.

(** Modelled from the spec: the [Project] that [flint.parse] returns is not
    the class of src/flint/project.py (which has neither [sources] nor
    [externals]).  A project is the parsed source files together with "an
    externally supplied list of external (non-project) symbol names",
    [externals] being the [e.name] of [project.externals]. *)
Record project : Type :=
  Project { sources : list source; externals : list string }.

(** [x in externals] for a name that may be [None]. *)
Definition name_in (n : option string) (l : list string) : bool :=
  match n with
  | Some s => in_list s l
  | None => false
  end.

(** *** __generate_link_list *)

(** [needed_for_link_by[o]] when [o in needed_for_link_by], else nothing
    to follow. *)
Definition needed (needed_for_link_by : gmap string (list string))
    (o : string) : list string :=
  match needed_for_link_by !! o with
  | Some ns => ns
  | None => []
  end.

(** The body of [__generate_link_list] at recursion level [level].  The
    structural argument [fuel] is the number of levels left below the
    guard [level<=99]; it is [0] only where the guard fails. *)
Fixpoint link_list (fuel : nat)
    (needed_for_link_by : gmap string (list string))
    (objects obj_list : list string) (level : nat) : list string :=
  if Nat.leb level 99 then
    match fuel with
    | O => obj_list
    | S fuel' =>
        fold_left
          (fun obj_list o =>
             if negb (in_list o obj_list) then
               let obj_list := obj_list ++ [o] in
               match needed_for_link_by !! o with
               | Some ns =>
                   fold_left
                     (fun obj_list n =>
                        link_list fuel' needed_for_link_by [n] obj_list
                          (level + 1))
                     ns obj_list
               | None => obj_list
               end
             else obj_list)
          objects obj_list
    end
  else obj_list.

(** One turn of [for o in objects] at recursion level [level], the calls
    one level down having [fuel] levels left below them. *)
Definition visit (needed_for_link_by : gmap string (list string))
    (fuel level : nat) (obj_list : list string) (o : string)
    : list string :=
  if negb (in_list o obj_list)
  then link_list fuel needed_for_link_by (needed needed_for_link_by o)
         (obj_list ++ [o]) (level + 1)
  else obj_list.

Definition generate_link_list (objects : list string)
    (needed_for_link_by : gmap string (list string))
    (obj_list : list string) (level : nat) : list string :=
  link_list (100 - level) needed_for_link_by objects obj_list level.

(** *** makemake: first pass (programs and modules) *)

Record listing : Type := Listing {
  programs : list (option string * string);
  src_to_obj : list (string * string);
  modules_in_src : list string;
  all_objs : list string
}.

Definition no_listing : listing := Listing [] [] [] [].

(** The loop body [for unit in src.units] of the first pass. *)
Definition list_unit (this_obj : string) (st : listing) (unit : unit_)
    : outcome listing :=
  st ← (if String.eqb (utype unit) "program" then
           assert_ (negb (dict_mem (programs st) (name unit)))
                  (AssertionError DuplicateProgram);;
           Returns (Listing (dict_set (programs st) (name unit) this_obj)
                      (src_to_obj st) (modules_in_src st) (all_objs st))
         else Returns st);
  if String.eqb (utype unit) "module" then
    match name unit with
    | None => Raises AttributeError
    | Some n =>
        assert_ (negb (in_list (lower n) (modules_in_src st)))
               (AssertionError DuplicateModule);;
        Returns (Listing (programs st) (src_to_obj st)
                   (modules_in_src st ++ [lower n]) (all_objs st))
    end
  else Returns st.

(** The loop body [for src in project.sources] of the first pass.  The
    message of the first [assert] formats a string with [%f], so that a
    repeated object name raises [TypeError]. *)
Definition list_source (st : listing) (src : source) : outcome listing :=
  let this_src := path src in
  let this_obj := object_name this_src in
  let st := Listing (programs st) (dict_set (src_to_obj st) this_src this_obj)
              (modules_in_src st) (all_objs st) in
  assert_ (negb (in_list this_obj (all_objs st))) TypeError;;
  let st := Listing (programs st) (src_to_obj st) (modules_in_src st)
              (all_objs st ++ [this_obj]) in
  for_each (list_unit this_obj) (units src) st.

Definition first_pass (p : project) : outcome listing :=
  for_each list_source (sources p) no_listing.

(** [programs[executable] = programs.pop(list(programs.keys())[0])] when
    the option [--executable] is given. *)
Definition name_executable (executable : option string)
    (programs : list (option string * string))
    : outcome (list (option string * string)) :=
  match executable with
  | None => Returns programs
  | Some x =>
      assert_ (Nat.ltb (length programs) 2) (AssertionError SeveralPrograms);;
      match programs with
      | [] => Raises IndexError
      | (_, obj) :: rest => Returns (dict_set rest (Some x) obj)
      end
  end.

(** *** makemake: second pass (definitions and uses)

    The rules written to the makefile and the header dependencies read from
    [/lib/cpp] are left out; they do not change the dictionaries. *)

(** The dictionaries filled by the second pass, the loop variable [c] of
    [for c in sub.callees] (a local of [makemake], unbound at first), and
    the three lists that are reset for each source file. *)
Record usage : Type := Usage {
  object_file_for : gmap string string;
  modules_used_by_object : gmap string (list string);
  externals_used_by_object : gmap string (list string);
  c : option string;
  uses_modules : list string;
  uses_externals : list string;
  modules_provided : list string
}.

Definition no_usage : usage := Usage ∅ ∅ ∅ None [] [] [].

Definition set_object_file_for (st : usage) (k v : string) : usage :=
  Usage (<[k := v]> (object_file_for st)) (modules_used_by_object st)
    (externals_used_by_object st) (c st) (uses_modules st)
    (uses_externals st) (modules_provided st).

Definition set_c (st : usage) (callee : string) : usage :=
  Usage (object_file_for st) (modules_used_by_object st)
    (externals_used_by_object st) (Some callee) (uses_modules st)
    (uses_externals st) (modules_provided st).

Definition add_uses_modules (st : usage) (m : string) : usage :=
  Usage (object_file_for st) (modules_used_by_object st)
    (externals_used_by_object st) (c st) (uses_modules st ++ [m])
    (uses_externals st) (modules_provided st).

Definition add_uses_externals (st : usage) (e : string) : usage :=
  Usage (object_file_for st) (modules_used_by_object st)
    (externals_used_by_object st) (c st) (uses_modules st)
    (uses_externals st ++ [e]) (modules_provided st).

Definition add_modules_provided (st : usage) (m : string) : usage :=
  Usage (object_file_for st) (modules_used_by_object st)
    (externals_used_by_object st) (c st) (uses_modules st)
    (uses_externals st) (modules_provided st ++ [m]).

Definition new_source (st : usage) : usage :=
  Usage (object_file_for st) (modules_used_by_object st)
    (externals_used_by_object st) (c st) [] [] [].

Definition record_uses (st : usage) (this_obj : string) : usage :=
  let used_by :=
    if bool_decide (uses_modules st = []) then modules_used_by_object st
    else <[this_obj := uses_modules st]> (modules_used_by_object st) in
  let externals_by :=
    if bool_decide (uses_externals st = []) then externals_used_by_object st
    else <[this_obj := uses_externals st]> (externals_used_by_object st) in
  Usage (object_file_for st) used_by externals_by (c st) (uses_modules st)
    (uses_externals st) (modules_provided st).

(** [k in object_file_for] *)
Definition defined (st : usage) (k : string) : bool :=
  bool_decide (is_Some (object_file_for st !! k)).

Section SecondPass.

Variable externals : list string.
Variable modules_in_src : list string.
Variable this_obj : string.

(** [for c in sub.callees: if c in externals: uses_externals.append(c)] *)
Definition use_callee (st : usage) (callee : string) : usage :=
  let st := set_c st callee in
  if in_list callee externals then add_uses_externals st callee else st.

(** The loop body [for sub in unit.subprograms]; the [assert] and the
    assignment that follow [if sub.name in externals] are on [c]. *)
Definition use_subprogram (st : usage) (sub : unit_) : outcome usage :=
  let st := fold_left use_callee (callees sub) st in
  if name_in (name sub) externals then
    match c st with
    | None => Raises UnboundLocalError
    | Some c =>
        assert_ (negb (defined st c))
          (AssertionError DuplicateExternalDefinition);;
        Returns (set_object_file_for st c this_obj)
    end
  else Returns st.

(** [for m in unit.used_modules: if m.lower() in modules_in_src: ...] *)
Definition use_module (st : usage) (m : string) : usage :=
  if in_list (lower m) modules_in_src then add_uses_modules st (lower m)
  else st.

(** The loop body [for unit in src.units] of the second pass. *)
Definition use_unit (st : usage) (unit : unit_) : outcome usage :=
  st ← (if String.eqb (utype unit) "module" then
          match name unit with
          | None => Raises AttributeError
          | Some n =>
              assert_ (negb (in_list (lower n) (modules_provided st)))
                (AssertionError DuplicateModule);;
              Returns (set_object_file_for
                         (add_modules_provided st (lower n))
                         (lower n) this_obj)
          end
        else Returns st);
  let st := fold_left use_module (used_modules unit) st in
  st ← for_each use_subprogram (subprograms unit) st;
  match name unit with
  | Some n =>
      if in_list n externals then
        assert_ (negb (defined st n))
          (AssertionError DuplicateExternalDefinition);;
        Returns (set_object_file_for st n this_obj)
      else Returns st
  | None => Returns st
  end.

End SecondPass.

(** The loop body [for src in project.sources] of the second pass. *)
Definition use_source (externals : list string) (l : listing) (st : usage)
    (src : source) : outcome usage :=
  this_obj ← match dict_get (src_to_obj l) (path src) with
             | Some o => Returns o
             | None => Raises KeyError
             end;
  st ← for_each (use_unit externals (modules_in_src l) this_obj) (units src)
         (new_source st);
  Returns (record_uses st this_obj).

Definition second_pass (p : project) (l : listing) : outcome usage :=
  for_each (use_source (externals p) l) (sources p) no_usage.

(** *** makemake: third pass (objects needed at link time) *)

(** [o = object_file_for[name]; if o not in objects: objects.append(o)]
    for a [name] that is in [object_file_for]. *)
Definition add_provider (st : usage) (objects : list string) (k : string)
    : list string :=
  match object_file_for st !! k with
  | Some o => if in_list o objects then objects else objects ++ [o]
  | None => objects
  end.

Definition objects_needed (st : usage) (this_obj : string) : list string :=
  let objects := [] in
  let objects :=
    match modules_used_by_object st !! this_obj with
    | Some ms => fold_left (add_provider st) ms objects
    | None => objects
    end in
  match externals_used_by_object st !! this_obj with
  | Some es => fold_left (add_provider st) es objects
  | None => objects
  end.

Definition third_pass (l : listing) (st : usage)
    : gmap string (list string) :=
  fold_left
    (fun needed_for_link_by this_obj =>
       <[this_obj := objects_needed st this_obj]> needed_for_link_by)
    (dict_values (src_to_obj l)) ∅.

(** *** makemake: link rules *)

(** [object_file_for[prog]] *)
Definition object_of_program (st : usage) (prog : option string)
    : outcome string :=
  match prog with
  | Some p =>
      match object_file_for st !! p with
      | Some o => Returns o
      | None => Raises KeyError
      end
  | None => Raises KeyError
  end.

(** The loop [for prog in programs]; a rule is the target and the list of
    objects printed after it. *)
Definition link_rule (st : usage)
    (needed_for_link_by : gmap string (list string))
    (rules : list (option string * list string)) (prog : option string)
    : outcome (list (option string * list string)) :=
  o ← object_of_program st prog;
  Returns (rules ++ [(prog, generate_link_list [o] needed_for_link_by [] 0)]).

Definition link_pass (programs : list (option string * string))
    (st : usage) (needed_for_link_by : gmap string (list string))
    : outcome (list (option string * list string)) :=
  for_each (link_rule st needed_for_link_by) (dict_keys programs) [].

(** The passes of [makemake] in their order; the result is the link rules. *)
Definition makemake (p : project) (executable : option string)
    : outcome (list (option string * list string)) :=
  l ← first_pass p;
  programs ← name_executable executable (programs l);
  st ← second_pass p l;
  link_pass programs st (third_pass l st).

(** *** Link lists as the specification words them *)

(** [o] needs [n] at link time. *)
Definition needs (needed_for_link_by : gmap string (list string))
    (o n : string) : Prop :=
  In n (needed needed_for_link_by o).

(** The transitive closure over [needed_for_link_by], from an object. *)
Inductive reachable (needed_for_link_by : gmap string (list string))
    (start : string) : string -> Prop :=
  | reachable_start : reachable needed_for_link_by start start
  | reachable_step o n :
      reachable needed_for_link_by start o ->
      needs needed_for_link_by o n ->
      reachable needed_for_link_by start n.

(** "breadth order, de-duplicated": the objects in the order in which a
    breadth-first traversal first meets them. *)
Fixpoint breadth_first (fuel : nat)
    (needed_for_link_by : gmap string (list string))
    (queue visited : list string) : list string :=
  match fuel with
  | O => visited
  | S fuel' =>
      match queue with
      | [] => visited
      | o :: queue' =>
          if in_list o visited
          then breadth_first fuel' needed_for_link_by queue' visited
          else breadth_first fuel' needed_for_link_by
                 (queue' ++ needed needed_for_link_by o) (visited ++ [o])
      end
  end.

(** "depth-first order of first visit": the objects in the order in which a
    depth-first traversal first meets them.  [stack] holds the objects still
    to be looked at, the needs of an object before the objects that were
    waiting. *)
Fixpoint depth_first (fuel : nat)
    (needed_for_link_by : gmap string (list string))
    (stack visited : list string) : list string :=
  match fuel with
  | O => visited
  | S fuel' =>
      match stack with
      | [] => visited
      | o :: stack' =>
          if in_list o visited
          then depth_first fuel' needed_for_link_by stack' visited
          else depth_first fuel' needed_for_link_by
                 (needed needed_for_link_by o ++ stack') (visited ++ [o])
      end
  end.

(** [U] holds every object that an object of [U] needs. *)
Definition closed_under (needed_for_link_by : gmap string (list string))
    (U : list string) : bool :=
  forallb
    (fun o => forallb (fun n => in_list n U) (needed needed_for_link_by o))
    U.

(** *** What a project defines *)

(** The case-folded names of the modules of a unit, a file, a project, in
    source order. *)
Definition unit_modules (u : unit_) : list string :=
  if String.eqb (utype u) "module" then
    match name u with
    | Some n => [lower n]
    | None => []
    end
  else [].

Definition source_modules (s : source) : list string :=
  flat_map unit_modules (units s).

Definition module_names (srcs : list source) : list string :=
  flat_map source_modules srcs.

(** The names of the programs, in source order. *)
Definition unit_programs (u : unit_) : list (option string) :=
  if String.eqb (utype u) "program" then [name u] else [].

Definition program_names (srcs : list source) : list (option string) :=
  flat_map (fun s => flat_map unit_programs (units s)) srcs.

(** The object files, in source order. *)
Definition object_names (srcs : list source) : list string :=
  map (fun s => object_name (path s)) srcs.

(** A [module] statement without a name. *)
Definition nameless_module (u : unit_) : bool :=
  String.eqb (utype u) "module" && bool_decide (name u = None).

Definition modules_named (srcs : list source) : bool :=
  forallb (fun s => forallb (fun u => negb (nameless_module u)) (units s))
    srcs.

(** Every entry of [object_file_for] in [st] is still there in [st'],
    except perhaps under the keys [except]. *)
Definition keeps (except : list string) (st st' : usage) : Prop :=
  forall k v,
    object_file_for st !! k = Some v -> ~ In k except ->
    object_file_for st' !! k = Some v.

(** How many objects of [U] are not yet in [obj_list]. *)
Definition unvisited (U obj_list : list string) : nat :=
  length (List.filter (fun o => negb (in_list o obj_list)) U).

End MakeMake.

(** ** src/flint/units/unit.py: declarations and namelists *)

Module Builder.

(** A token: its text, and the comment lines attached before ([head]) and
    after it ([tail]).  Tokens are compared with strings by their text. *)
Record token : Type :=
  Token { text : string; head : list string; tail : list string }.

Definition is_ (tok : token) (s : string) : bool := String.eqb (text tok) s.

(** A token without comments. *)
Definition word (s : string) : token := Token s [] [].

(** Modelled from the spec: [flint.variable.Variable] is not in src.  A
    variable is "a declared entity: name, declared_type, intent, optional
    doc-comment"; [Variable(tok, vtype)] sets the first two. *)
Record variable : Type := Variable_ {
  var_name : string;
  declared_type : string;
  intent : option string;
  docstring : option string
}.

(** An element of [self.statements]: [Statement(line, tag=...)], or the list
    of statements of a nested block, appended as one element. *)
#[warnings="-register-all"]
Inductive statement : Type :=
  | Statement (tag : string) (stmt_line : list token)
  | Statements (block : list statement).

(** A nested derived type, of which the unit sets [name] and reads
    [statements]. *)
Record derived : Type :=
  Derived { derived_name : token; derived_statements : list statement }.

(** Modelled from the spec: [flint.report.Report] is not in src.  A report
    records diagnostics; [error_endcomma] records [EndComma]. *)
Inductive diagnostic : Type := EndComma.

(** The fields of a [Unit] that the two parsers change.  An interface
    block is kept as its statements, the one field of it that is read. *)
Record builder : Type := Build {
  variables : list variable;
  namelists : gmap string (list string);
  statements : list statement;
  grp_docstr : option string;
  report : list diagnostic;
  interfaces : list (list statement);
  derived_types : list derived
}.

Definition new_unit : builder := Build [] ∅ [] None [] [] [].

Definition set_variables (st : builder) (vs : list variable) : builder :=
  Build vs (namelists st) (statements st) (grp_docstr st) (report st)
    (interfaces st) (derived_types st).

Definition set_namelists (st : builder) (n : gmap string (list string))
    : builder :=
  Build (variables st) n (statements st) (grp_docstr st) (report st)
    (interfaces st) (derived_types st).

Definition set_grp_docstr (st : builder) (d : option string) : builder :=
  Build (variables st) (namelists st) (statements st) d (report st)
    (interfaces st) (derived_types st).

Definition add_statement (st : builder) (s : statement) : builder :=
  Build (variables st) (namelists st) (statements st ++ [s]) (grp_docstr st)
    (report st) (interfaces st) (derived_types st).

Definition add_report (st : builder) (d : diagnostic) : builder :=
  Build (variables st) (namelists st) (statements st) (grp_docstr st)
    (report st ++ [d]) (interfaces st) (derived_types st).

Definition add_interface (st : builder) (block : list statement) : builder :=
  Build (variables st) (namelists st) (statements st) (grp_docstr st)
    (report st) (interfaces st ++ [block]) (derived_types st).

Definition add_derived_type (st : builder) (dtype : derived) : builder :=
  Build (variables st) (namelists st) (statements st) (grp_docstr st)
    (report st) (interfaces st) (derived_types st ++ [dtype]).

(** [while tok:] on a token, or on the [None] of [next(tokens, None)]. *)
Definition truthy_token (tok : option token) : bool :=
  match tok with
  | Some t => negb (String.eqb (text t) "")
  | None => false
  end.

(** *** parse_namelist

    An exception leaves the outcome without the assignments made before
    it. *)

(** [self.namelists[nml_group].append(tok)] *)
Definition add_member (st : builder) (nml_group : string) (tok : token)
    : builder :=
  set_namelists st
    (alter (fun members => members ++ [text tok]) nml_group (namelists st)).

(** The loop [while tok and tok != '/'] over the members of a group; [k]
    is what follows the loop. *)
Fixpoint members (k : option token -> list token -> builder -> outcome builder)
    (nml_group : string) (tokens : list token) (tok : option token)
    (st : builder) {struct tokens} : outcome builder :=
  match tok with
  | Some t =>
      if truthy_token tok && negb (is_ t "/") then
        let st := add_member st nml_group t in
        match tokens with
        | [] => k None tokens st
        | t1 :: rest =>
            assert_ (is_ t1 "," || is_ t1 "/") (AssertionError NoMessage);;
            if is_ t1 "," then
              match rest with
              | [] => Raises StopIteration
              | t2 :: rest' => members k nml_group rest' (Some t2) st
              end
            else members k nml_group rest (Some t1) st
        end
      else k tok tokens st
  | None => k tok tokens st
  end.

(** The loop [while tok:] over the groups. *)
Fixpoint groups (tokens : list token) (tok : option token) (st : builder)
    {struct tokens} : outcome builder :=
  match tok with
  | Some t =>
      if truthy_token tok then
        assert_ (is_ t "/") (AssertionError NoMessage);;
        match tokens with
        | [] => Raises StopIteration
        | nml_group :: t1 =>
            let st :=
              set_namelists st (<[text nml_group := []]> (namelists st)) in
            match t1 with
            | [] => Raises StopIteration
            | slash :: t2 =>
                assert_ (is_ slash "/") (AssertionError NoMessage);;
                match t2 with
                | [] => Raises StopIteration
                | first :: t3 =>
                    members (fun tok' rest st' => groups rest tok' st')
                      (text nml_group) t3 (Some first) st
                end
            end
        end
      else Returns st
  | None => Returns st
  end.

Definition parse_namelist (line : list token) (st : builder)
    : outcome builder :=
  match line with
  | [] => Raises IndexError
  | keyword :: rest =>
      assert_ (is_ keyword "namelist") (AssertionError NoMessage);;
      match rest with
      | [] => Raises StopIteration
      | tok :: tokens =>
          st ← groups tokens (Some tok) st;
          Returns (add_statement st (Statement "N" line))
      end
  end.

(** *** parse_declaration_construct

    The last branch first: the one taken when [line[0]] is none of
    [interface], [enum], [type] without a parenthesis, [public], [private],
    [data], [parameter]. *)

Section Declaration.

(** [Variable.intrinsic_types], and [is_docstring] and [docstrip] of
    [flint.document]. *)
Variable intrinsic_types : list string.
Variable is_docstring : list string -> bool.
Variable docstrip : list string -> string.

(** The parsers of nested blocks, called on the iterator [lines] shared
    with the caller: [Interface().parse(lines)], whose class is in
    [flint.interface], not in src, and [Unit().parse(lines)], whose
    execution part needs [flint.construct] and [flint.calls], not in src
    either.  They get [lines.current_line] and the lines that the iterator
    has left, and return the [statements] of the block together with the
    number of lines that they took from the iterator. *)
Variable interface_parse :
  list token -> list (list token) -> outcome (list statement * nat).
Variable unit_parse :
  list token -> list (list token) -> outcome (list statement * nat).

(** [any(tok.startswith('!>@{') for tok in doc)], and the same for the
    marker that closes a group. *)
Definition opens_group (doc : list string) : bool :=
  existsb (String.prefix "!>@{") doc.

Definition closes_group (doc : list string) : bool :=
  existsb (String.prefix "!>@}") doc.

(** [s[2:]] *)
Definition from_third (s : string) : string :=
  match s with
  | String _ (String _ rest) => rest
  | _ => EmptyString
  end.

(** [next(tokens)] *)
Definition next (tokens : list token) : outcome (token * list token) :=
  match tokens with
  | [] => Raises StopIteration
  | tok :: rest => Returns (tok, rest)
  end.

(** [while tok != ')': tok = next(tokens)], started on a token that is not
    [')']: [k] gets the closing token and what is left of the iterator. *)
Fixpoint skip_to_close {A : Type} (k : token -> list token -> outcome A)
    (tokens : list token) : outcome A :=
  match tokens with
  | [] => Raises StopIteration
  | tok :: rest => if is_ tok ")" then k tok rest else skip_to_close k rest
  end.

(** [while par_count > 0], the loop that passes [dimension(...)]; [k] gets
    what is left of the iterator. *)
Fixpoint skip_balanced {A : Type} (k : list token -> outcome A)
    (par_count : nat) (tokens : list token) {struct tokens} : outcome A :=
  match par_count with
  | O => k tokens
  | S below =>
      match tokens with
      | [] => Raises StopIteration
      | tok :: rest =>
          if is_ tok "(" then skip_balanced k (S par_count) rest
          else if is_ tok ")" then skip_balanced k below rest
          else skip_balanced k par_count rest
      end
  end.

(** The loop [while tok == ','] over the attributes; returns the token and
    the iterator after the loop, and [var_intent]. *)
Fixpoint attributes (tokens : list token) (tok : token)
    (var_intent : option string) {struct tokens}
    : outcome (token * list token * option string) :=
  if is_ tok "," then
    match tokens with
    | [] => Raises StopIteration
    | attr :: t1 =>
        if is_ attr "intent" then
          match t1 with
          | [] => Raises StopIteration
          | paren :: t2 =>
              assert_ (is_ paren "(") (AssertionError NoMessage);;
              match t2 with
              | [] => Raises StopIteration
              | direction :: t3 =>
                  assert_ (in_list (text direction) ["in"; "out"; "inout"])
                    (AssertionError NoMessage);;
                  match t3 with
                  | [] => Raises StopIteration
                  | tok :: t4 =>
                      if is_ direction "in" && is_ tok "out" then
                        match t4 with
                        | [] => Raises StopIteration
                        | tok :: t5 =>
                            assert_ (is_ tok ")") (AssertionError NoMessage);;
                            match t5 with
                            | [] => Raises StopIteration
                            | tok :: t6 =>
                                attributes t6 tok
                                  (Some (text direction ++ "out")%string)
                            end
                        end
                      else
                        assert_ (is_ tok ")") (AssertionError NoMessage);;
                        match t4 with
                        | [] => Raises StopIteration
                        | tok :: t5 =>
                            attributes t5 tok (Some (text direction))
                        end
                  end
              end
          end
        else if is_ attr "dimension" then
          match t1 with
          | [] => Raises StopIteration
          | paren :: t2 =>
              assert_ (is_ paren "(") (AssertionError NoMessage);;
              skip_balanced
                (fun rest =>
                   match rest with
                   | [] => Raises StopIteration
                   | tok :: rest' => attributes rest' tok var_intent
                   end)
                1 t2
          end
        else
          match t1 with
          | [] => Raises StopIteration
          | tok :: t2 => attributes t2 tok var_intent
          end
    end
  else Returns (tok, tokens, var_intent).

(** [self.grp_docstr] when it is set and not empty. *)
Definition group_doc (st : builder) : option string :=
  match grp_docstr st with
  | Some d => if String.eqb d "" then None else Some d
  | None => None
  end.

(** [self.variables[-1].doc.docstring = d]; the variable [var] is that
    last one. *)
Fixpoint set_last_doc (vs : list variable) (d : string) : list variable :=
  match vs with
  | [] => []
  | v :: rest =>
      match rest with
      | [] => [Variable_ (var_name v) (declared_type v) (intent v) (Some d)]
      | _ :: _ => v :: set_last_doc rest d
      end
  end.

(** A docstring after [tok] goes to the last variable, unless it closes a
    group; without one, the group docstring does. *)
Definition doc_after (st : builder) (tok : token) : builder :=
  if is_docstring (tail tok) && negb (closes_group (tail tok)) then
    set_variables st (set_last_doc (variables st) (docstrip (tail tok)))
  else
    match group_doc st with
    | Some d => set_variables st (set_last_doc (variables st) d)
    | None => st
    end.

Definition append_variable (st : builder) (v : variable) : builder :=
  set_variables st (variables st ++ [v]).

(** The first variable of a statement. *)
Definition first_variable (st : builder) (tok vtype : token)
    (var_intent : option string) : variable :=
  Variable_ (text tok) (text vtype) var_intent
    (if is_docstring (tail tok) && negb (closes_group (tail tok))
     then Some (docstrip (tail tok))
     else group_doc st).

(** A variable after a comma. *)
Definition next_variable (tok vtype : token) (var_intent : option string)
    : variable :=
  Variable_ (text tok) (text vtype) var_intent
    (if is_docstring (tail tok) then Some (docstrip (tail tok)) else None).

(** The loop [for tok in tokens] over what follows the first variable. *)
Fixpoint entities (vtype : token) (var_intent : option string)
    (tokens : list token) (st : builder) {struct tokens} : outcome builder :=
  match tokens with
  | [] => Returns st
  | tok :: rest =>
      if is_ tok "(" then
        skip_to_close
          (fun close rest' =>
             entities vtype var_intent rest' (doc_after st close))
          rest
      else
        let st := doc_after st tok in
        if is_ tok "," then
          let st := doc_after st tok in
          match rest with
          | [] =>
              let st := add_report st EndComma in
              Returns (append_variable st (next_variable tok vtype var_intent))
          | tok :: rest' =>
              entities vtype var_intent rest'
                (append_variable st (next_variable tok vtype var_intent))
          end
        else entities vtype var_intent rest st
  end.

(** From [# Character length parsing] to the end of the branch; [tokens]
    is the iterator after the type. *)
Definition declare (vtype : token) (tokens line : list token) (st : builder)
    : outcome builder :=
  '(tok, tokens) ← next tokens;
  '(tok, tokens) ← (if is_ vtype "character" && is_ tok "*"
                    then next tokens else Returns (tok, tokens));
  '(tok, tokens) ← (if is_ tok "("
                    then skip_to_close (fun _ rest => next rest) tokens
                    else Returns (tok, tokens));
  '(tok, tokens, var_intent) ← attributes tokens tok None;
  '(tok, tokens) ← (if is_ tok "::" then next tokens
                    else Returns (tok, tokens));
  let st := append_variable st (first_variable st tok vtype var_intent) in
  st ← entities vtype var_intent tokens st;
  let last_tail := match last line with Some t => tail t | None => [] end in
  let st := if is_docstring last_tail && closes_group last_tail
            then set_grp_docstr st None else st in
  Returns (add_statement st (Statement "D" line)).

Definition parse_declaration (line : list token) (st : builder)
    : outcome builder :=
  match line with
  | [] => Raises StopIteration
  | tok :: tokens =>
      let st := if is_docstring (head tok) && opens_group (head tok)
                then set_grp_docstr st
                       (Some (from_third (docstrip (head tok))))
                else st in
      if in_list (text tok) intrinsic_types then declare tok tokens line st
      else if is_ tok "type" || is_ tok "class" then
        '(paren, tokens) ← next tokens;
        assert_ (is_ paren "(") (AssertionError NoMessage);;
        '(vtype, tokens) ← next tokens;
        '(paren, tokens) ← next tokens;
        assert_ (is_ paren ")") (AssertionError NoMessage);;
        declare vtype tokens line st
      else if is_ tok "namelist" then parse_namelist line st
      else Returns (add_statement st (Statement "X" line))
  end.

(** R507 access-spec *)
Definition access_specs : list string := ["public"; "private"].

(** [line[1]] *)
Definition second (line : list token) : outcome token :=
  match line with
  | _ :: tok :: _ => Returns tok
  | _ => Raises IndexError
  end.

(** [line[:2] == ('abstract', 'interface')]: the slice of a list is a list,
    and a list is not equal to a tuple. *)
Definition is_abstract_interface (line : list token) : bool := false.

(** The branch of an interface block. *)
Definition parse_interface (lines : list (list token)) (line : list token)
    (st : builder) : outcome (builder * nat) :=
  '(block, read) ← interface_parse line lines;
  Returns (add_statement (add_interface st block) (Statements block), read).

(** The branch of [enum] and of a derived type; [dtype.name = line[-1]]. *)
Definition parse_derived_type (lines : list (list token))
    (line : list token) (tok : token) (st : builder)
    : outcome (builder * nat) :=
  '(block, read) ← unit_parse line lines;
  let dtype := Derived (List.last line tok) block in
  Returns (add_statement (add_derived_type st dtype) (Statements block), read).

(** [parse_declaration_construct(lines, line)]: returns the unit and the
    number of lines taken from [lines], which is [0] unless the statement
    opens a nested block. *)
Definition parse_declaration_construct (lines : list (list token))
    (line : list token) (st : builder) : outcome (builder * nat) :=
  match line with
  | [] => Raises IndexError
  | tok :: _ =>
      if is_ tok "interface"
         || (Nat.ltb 1 (length line) && is_abstract_interface line)
      then parse_interface lines line st
      else if is_ tok "enum" then parse_derived_type lines line tok st
      else if is_ tok "type" then
        t ← second line;
        if negb (is_ t "(") then parse_derived_type lines line tok st
        else st ← parse_declaration line st; Returns (st, 0)
      else if in_list (text tok) access_specs then
        Returns (add_statement st (Statement "d" line), 0)
      else if is_ tok "data" then
        Returns (add_statement st (Statement "d" line), 0)
      else if is_ tok "parameter" then
        Returns (add_statement st (Statement "p" line), 0)
      else st ← parse_declaration line st; Returns (st, 0)
  end.

End Declaration.

End Builder.

(** ** Declaration statements as the specification words them *)

Module DeclarationSpec.

Import Builder.







(** The first tokens that the branches of [parse_declaration_construct]
    test before the last one, which reads variable declarations. *)
Definition other_constructs : list string :=
  ["interface"; "enum"; "type"; "public"; "private"; "data"; "parameter"].














(** Name, type and intent of a variable. *)
Definition summary (v : variable) : string * string * option string :=
  (var_name v, declared_type v, intent v).

(** [namelist / group / name, name, ... ,]: a statement whose member list
    ends with a comma that no member follows. *)
Definition dangling_namelist (group name : token) (others : list token)
    : list token :=
  word "namelist" :: word "/" :: group :: word "/" :: name ::
  flat_map (fun n => [word ","; n]) others ++ [word ","].

(** A token that can be read as the name of a member. *)
Definition member_name (tok : token) : bool :=
  negb (String.eqb (text tok) "") && negb (is_ tok "/").

End DeclarationSpec.

(** ** src/flint/units/unit.py: header, use statements, specification part *)

Module UnitParse.

Import Builder.

(** [str.upper], on ASCII letters. *)
Definition upper_ascii (c : ascii) : ascii :=
  let n := nat_of_ascii c in
  if Nat.leb 97 n && Nat.leb n 122 then ascii_of_nat (n - 32) else c.

(** [s[0].upper()] *)
Definition first_upper (s : string) : outcome string :=
  match s with
  | EmptyString => Raises IndexError
  | String c _ => Returns (String (upper_ascii c) EmptyString)
  end.

(** [line[i]] *)
Definition item (line : list token) (i : nat) : outcome token :=
  match nth_error line i with
  | Some tok => Returns tok
  | None => Raises IndexError
  end.

(** [line.index(x)]: the place of the first token equal to [x]; the length
    of [line] stands for the [ValueError] of a missing [x], which does not
    arise where [x] was taken from [line]. *)
Fixpoint index (line : list token) (x : string) : nat :=
  match line with
  | [] => 0
  | tok :: rest => if is_ tok x then 0 else S (index rest x)
  end.

(** R502 attr-spec, and the first tokens that start a declaration. *)
Definition attribute_specs : list string :=
  access_specs ++
  ["allocatable"; "asynchronous"; "codimension"; "contiguous"; "dimension";
   "external"; "intent"; "intrinsic"; "namelist"; "optional"; "pointer";
   "protected"; "save"; "target"; "value"; "volatile"; "common";
   "equivalence"].

Definition declaration_types (intrinsic_types : list string) : list string :=
  intrinsic_types ++ attribute_specs ++
  ["type"; "enum"; "generic"; "interface"; "parameter"; "procedure"; "data";
   "format"; "entry"].

(** The fields of a [Unit] that the header and the specification part
    set, around those of [Builder.builder]; the three [doc_] fields are
    [self.doc.header], [self.doc.docstring] and [self.doc.statement]. *)
Record unit_state : Type := UnitState {
  name : option string;
  utype : option string;
  used_modules : gset string;
  doc_header : option string;
  doc_docstring : option string;
  doc_statement : option (list token);
  build : builder
}.

Definition new_state : unit_state :=
  UnitState None None ∅ None None None new_unit.

Definition set_build (st : unit_state) (b : builder) : unit_state :=
  UnitState (name st) (utype st) (used_modules st) (doc_header st)
    (doc_docstring st) (doc_statement st) b.

Definition record_statement (st : unit_state) (tag : string)
    (line : list token) : unit_state :=
  set_build st (add_statement (build st) (Statement tag line)).

Section Header.

(** [docstrip] of [flint.document]. *)
Variable docstrip : list string -> string.

(** [parse_header]: the kind is the first token that is a unit keyword
    (the line is printed and [StopIteration] raised when there is none);
    the name is the token after it, unless the line is one token long. *)
Definition parse_header (line : list token) (st : unit_state)
    : outcome unit_state :=
  match find (fun w => in_list (text w) Units.unit_types) line with
  | None => Raises StopIteration
  | Some keyword =>
      let header := match line with
                    | first :: _ => docstrip (head first)
                    | [] => docstrip []
                    end in
      let docstring := match last line with
                       | Some t => docstrip (tail t)
                       | None => docstrip []
                       end in
      let utype_idx := index line (text keyword) in
      name ← (if Nat.leb 2 (length line)
              then tok ← item line (utype_idx + 1); Returns (Some (text tok))
              else Returns None);
      tag ← first_upper (text keyword);
      Returns (UnitState name (Some (text keyword)) (used_modules st)
                 (Some header) (Some docstring) (Some line)
                 (add_statement (build st) (Statement tag line)))
  end.

End Header.

(** [parse_use_stmt]: the module name comes after [use], after a comma and
    one token when a comma follows [use], and after [::] when that comes
    next. *)
Definition parse_use_stmt (line : list token) (st : unit_state)
    : outcome unit_state :=
  let idx := 1 in
  tok ← item line idx;
  let idx := if is_ tok "," then idx + 2 else idx in
  tok ← item line idx;
  let idx := if is_ tok "::" then idx + 1 else idx in
  tok ← item line idx;
  Returns (record_statement
             (UnitState (name st) (utype st) ({[text tok]} ∪ used_modules st)
                (doc_header st) (doc_docstring st) (doc_statement st)
                (build st))
             "U" line).

Definition parse_import_stmt (line : list token) (st : unit_state)
    : unit_state :=
  record_statement st "i" line.

Definition parse_implicit_stmt (line : list token) (st : unit_state)
    : unit_state :=
  record_statement st "I" line.

(** How the loop of [parse_specification] ends: on the first line that is
    no specification statement ([break]), or at the end of the lines. *)
Inductive ending : Type :=
  | Break (line : list token)
  | Exhausted.

Section Specification.

Variable intrinsic_types : list string.
Variable is_docstring : list string -> bool.
Variable docstrip : list string -> string.
Variable interface_parse :
  list token -> list (list token) -> outcome (list statement * nat).
Variable unit_parse :
  list token -> list (list token) -> outcome (list statement * nat).

(** The loop [for line in lines] of [parse_specification]; [read] counts
    the lines that the parser of a nested block has taken from the
    iterator, which the loop does not see.  Returns the unit, how the loop
    ended and the lines not yet read. *)
Fixpoint specification_loop (read : nat) (lines : list (list token))
    (st : unit_state) : outcome (unit_state * ending * list (list token)) :=
  match lines with
  | [] => Returns (st, Exhausted, [])
  | line :: rest =>
      match read with
      | S read => specification_loop read rest st
      | O =>
          match line with
          | [] => Raises IndexError
          | tok :: _ =>
              if is_ tok "use" then
                st ← parse_use_stmt line st; specification_loop 0 rest st
              else if is_ tok "import" then
                specification_loop 0 rest (parse_import_stmt line st)
              else if is_ tok "implicit" then
                specification_loop 0 rest (parse_implicit_stmt line st)
              else if in_list (text tok) (declaration_types intrinsic_types)
              then
                '(b, read) ← parse_declaration_construct intrinsic_types
                               is_docstring docstrip interface_parse
                               unit_parse rest line (build st);
                specification_loop read rest (set_build st b)
              else Returns (st, Break line, rest)
          end
      end
  end.

Definition parse_specification (lines : list (list token)) (st : unit_state)
    : outcome (unit_state * ending * list (list token)) :=
  specification_loop 0 lines st.

End Specification.

End UnitParse.

(** ** src/flint/unit.py: name and specification part *)

Module LegacyParse.

(** [a in b] for two strings: [a] occurs in [b]. *)
Fixpoint occurs_in (a b : string) : bool :=
  String.prefix a b
  || match b with
     | EmptyString => false
     | String _ rest => occurs_in a rest
     end.

Definition attribute_specs : list string :=
  ["codimension"; "contiguous"; "dimension"; "external"; "intent";
   "namelist"; "optional"; "pointer"; "protected"; "save"; "target";
   "volatile"; "value"; "common"; "equivalence"].

Definition declaration_types : list string :=
  Legacy.intrinsic_types ++ attribute_specs ++
  ["type"; "enum"; "generic"; "interface"; "parameter"; "procedure"; "data";
   "format"; "entry"].

(** ['{}: {}'.format(tag, ' '.join(line))] *)
Definition printed (tag : string) (line : list string) : string :=
  (tag ++ ": " ++ String.concat " " line)%string.

(** [parse_name]: returns the kind, the name and the line printed. *)
Definition parse_name (line : list string)
    : outcome (string * option string * string) :=
  match find (fun w => in_list w Legacy.unit_types) line with
  | None => Raises StopIteration
  | Some utype =>
      let name := if Nat.leb 2 (length line) then nth_error line 1
                  else None in
      tag ← UnitParse.first_upper utype;
      Returns (utype, name, (printed tag line ++ " ")%string)
  end.

(** The loop of [parse_specification]: returns the lines printed, the line
    on which the loop broke, if any, and the lines not yet read.  The test
    of the third branch is [line[0] in 'implicit']. *)
Fixpoint parse_specification (lines : list (list string))
    : outcome (list string * option (list string) * list (list string)) :=
  match lines with
  | [] => Returns ([], None, [])
  | line :: rest =>
      match line with
      | [] => Raises IndexError
      | w0 :: _ =>
          let continue tag :=
            '(out, stop, rest') ← parse_specification rest;
            Returns (printed tag line :: out, stop, rest') in
          if String.eqb w0 "use" then continue "U"
          else if String.eqb w0 "import" then continue "i"
          else if occurs_in w0 "implicit" then continue "I"
          else if in_list w0 declaration_types then continue "D"
          else Returns ([], Some line, rest)
      end
  end.

End LegacyParse.

(** ** src/flint/program.py *)

Module Program.

(** What the two loops print: the constructs (['*: ...']), and the lines
    of the other branches with their tag. *)
Inductive record : Type :=
  | Star (joined : string)
  | Tagged (tag : string) (line : list string).

(** [line[1]] *)
Definition second (line : list string) : outcome string :=
  match line with
  | _ :: w1 :: _ => Returns w1
  | _ => Raises IndexError
  end.

(** The test [line[0] == 'do' or (line[0], line[-1] == 'if', 'then')]: its
    second operand is a tuple of three, which is true. *)
Definition opens_construct (w0 : string) : bool :=
  String.eqb w0 "do" || true.

(** The test of the inner [if]:
    [line[0] == 'end' and line[1] == kind or line[0] == 'end' + kind]. *)
Definition closes (kind : string) (line : list string) (w0 : string)
    : outcome bool :=
  if String.eqb w0 "end" then
    w1 ← second line;
    Returns (String.eqb w1 kind || String.eqb w0 ("end" ++ kind)%string)
  else Returns (String.eqb w0 ("end" ++ kind)%string).

(** [parse_construct]: the lines come from a shared iterator and no loop
    is left early, so a nested call returns when the lines are exhausted,
    and the loop that made the call ends with it. *)
Fixpoint parse_construct (ctype : string) (lines : list (list string))
    : outcome (list record) :=
  match lines with
  | [] => Returns []
  | line :: rest =>
      match line with
      | [] => Raises IndexError
      | w0 :: _ =>
          if opens_construct w0 then
            out ← parse_construct w0 rest;
            Returns (Star (String.concat " " line) :: out)
          else if String.prefix "end" w0 then
            closing ← closes ctype line w0;
            out ← parse_construct ctype rest;
            Returns ((if closing : bool
                      then Star (String.concat " " line)
                      else Tagged "X2" line) :: out)
          else
            out ← parse_construct ctype rest;
            Returns (Tagged "C" line :: out)
      end
  end.

(** [Program.parse] *)
Fixpoint parse (lines : list (list string)) : outcome (list record) :=
  match lines with
  | [] => Returns []
  | line :: rest =>
      match line with
      | [] => Raises IndexError
      | w0 :: _ =>
          if opens_construct w0 then
            out ← parse_construct w0 rest;
            Returns (Star (String.concat " " line) :: out)
          else if String.prefix "end" w0 then
            closing ← closes "program" line w0;
            out ← parse rest;
            Returns ((if closing : bool
                      then Star (String.concat " " line)
                      else Tagged "X1" line) :: out)
          else
            out ← parse rest;
            Returns (Tagged "P" line :: out)
      end
  end.

End Program.

(** ** What the passes of makemake compute, read off the project *)

Module Passes.

Import MakeMake.

(** The entries of [programs]: each program with the object file of its
    source file, in source order. *)
Definition program_entries (srcs : list source)
    : list (option string * string) :=
  flat_map
    (fun s => map (fun n => (n, object_name (path s)))
                (flat_map unit_programs (units s)))
    srcs.

(** The entries of [src_to_obj]. *)
Definition source_entries (srcs : list source) : list (string * string) :=
  map (fun s => (path s, object_name (path s))) srcs.

(** The four tables after the first pass. *)
Definition listed (srcs : list source) : listing :=
  Listing (program_entries srcs) (source_entries srcs) (module_names srcs)
    (object_names srcs).

(** The modules of the project that the units of a file use, case-folded,
    one entry for each [use]. *)
Definition unit_uses_modules (modules_in_src : list string) (u : unit_)
    : list string :=
  List.filter (fun m => in_list m modules_in_src) (map lower (used_modules u)).

Definition source_uses_modules (modules_in_src : list string) (s : source)
    : list string :=
  flat_map (unit_uses_modules modules_in_src) (units s).

(** The external symbols that the subprograms of the units of a file
    call. *)
Definition unit_uses_externals (externals : list string) (u : unit_)
    : list string :=
  flat_map (fun sub => List.filter (fun c => in_list c externals) (callees sub))
    (subprograms u).

Definition source_uses_externals (externals : list string) (s : source)
    : list string :=
  flat_map (unit_uses_externals externals) (units s).

(** Every callee of a subprogram of a unit of the project. *)
Definition unit_callees (u : unit_) : list string :=
  flat_map callees (subprograms u).

Definition project_callees (srcs : list source) : list string :=
  flat_map (fun s => flat_map unit_callees (units s)) srcs.

(** [Some l] for a list that is not empty: what the second pass stores
    under an object file. *)
Definition stored (l : list string) : option (list string) :=
  match l with
  | [] => None
  | _ :: _ => Some l
  end.

End Passes.

(** ** File names *)

Module FileNames.

(** A file name without directory and without dot. *)
Definition plain_name (s : string) : bool :=
  forallb (fun c => negb (Ascii.eqb c "/") && negb (Ascii.eqb c "."))
    (list_ascii_of_string s).

End FileNames.

(** ** What a statement of the specification part leaves in place *)

Module Recorded.

Import Builder DeclarationSpec.

(** The variables of [st] are still in [st'], in their places and with
    their name, type and intent, and so are its diagnostics. *)
Definition keeps_variables (st st' : builder) : Prop :=
  (exists new,
     map summary (variables st') = map summary (variables st) ++ new) /\
  (exists more, report st' = report st ++ more).

(** The tags of the statements that [parse_declaration_construct] records
    on its own. *)
Definition construct_tags : list string := ["D"; "X"; "N"; "d"; "p"].

(** What [parse_declaration_construct] leaves of a line that opens no
    nested block: the line as one statement with one of these tags; the
    variables and diagnostics are kept, only a declaration adds to them and
    only a namelist statement changes the namelists. *)
Definition statement_recorded (line : list token) (st st' : builder)
    : Prop :=
  exists tag,
    In tag construct_tags /\
    statements st' = statements st ++ [Statement tag line] /\
    keeps_variables st st' /\
    (tag <> "N" -> namelists st' = namelists st) /\
    (tag <> "D" -> variables st' = variables st /\ report st' = report st).

(** The first tokens on which the loop of [parse_specification] goes on. *)
Definition specification_keyword (intrinsic_types : list string)
    (tok : token) : bool :=
  is_ tok "use" || is_ tok "import" || is_ tok "implicit"
  || in_list (text tok) (UnitParse.declaration_types intrinsic_types).

(** The lines that open a nested block: [interface ...], [enum ...], and
    [type ...] when the second token is not a parenthesis. *)
Definition opens_block (line : list token) : bool :=
  match line with
  | [] => false
  | tok :: rest =>
      is_ tok "interface" || is_ tok "enum"
      || (is_ tok "type"
          && match rest with
             | [] => false
             | t :: _ => negb (is_ t "(")
             end)
  end.




End Recorded.

(** ** Namelist statements as they are written *)

Module Namelists.

Import Builder DeclarationSpec.

(** A group of a namelist statement: [/ name / first , other , ...]. *)
Record group : Type := Group {
  group_name : token;
  first_member : token;
  other_members : list token
}.

Definition group_tokens (g : group) : list token :=
  word "/" :: group_name g :: word "/" :: first_member g ::
  flat_map (fun n => [word ","; n]) (other_members g).

Definition namelist_statement (gs : list group) : list token :=
  word "namelist" :: flat_map group_tokens gs.

Definition group_ok (g : group) : bool :=
  member_name (first_member g) && forallb member_name (other_members g).

(** The entry that a group leaves in [namelists]. *)
Definition recorded (namelists : gmap string (list string)) (g : group)
    : gmap string (list string) :=
  <[text (group_name g) := map text (first_member g :: other_members g)]>
    namelists.

End Namelists.

(** ** The first words on which the loop of src/flint/unit.py goes on *)

Module LegacySpec.

Definition specification_keyword (w0 : string) : bool :=
  String.eqb w0 "use" || String.eqb w0 "import"
  || LegacyParse.occurs_in w0 "implicit"
  || in_list w0 LegacyParse.declaration_types.

End LegacySpec.
(* ================================================================== *)
(** * Theorems *)
(* ================================================================== *)

(** ** Membership and indices *)

Lemma in_list_In (w : string) (l : list string) :
  in_list w l = true <-> In w l.
Proof.
  unfold in_list. rewrite existsb_exists. split.
  - intros (x & Hx & E). apply String.eqb_eq in E. now subst.
  - intros H. exists w. split; [assumption | apply String.eqb_refl].
Qed.

Lemma in_list_app (w : string) (l1 l2 : list string) :
  in_list w (l1 ++ l2) = in_list w l1 || in_list w l2.
Proof. unfold in_list. apply existsb_app. Qed.

(** ** [until_close] *)

Lemma until_close_none {A : Type} (k : list string -> A) (stop : A)
    (l : list string) :
  ~ In ")" l -> until_close k stop l = stop.
Proof.
  induction l as [|c l IH]; simpl; intros H; [reflexivity |].
  destruct (String.eqb_spec c ")") as [E | E].
  - exfalso. apply H. left. assumption.
  - apply IH. intros HI. apply H. now right.
Qed.

Lemma until_close_app {A : Type} (k : list string -> A) (stop : A)
    (body rest : list string) :
  ~ In ")" body -> until_close k stop (body ++ ")" :: rest) = k rest.
Proof.
  induction body as [|c l IH]; simpl; intros H; [reflexivity |].
  destruct (String.eqb_spec c ")") as [E | E].
  - exfalso. apply H. left. assumption.
  - apply IH. intros HI. apply H. now right.
Qed.

Lemma close_cases (l : list string) :
  ~ In ")" l \/
  exists body rest, l = body ++ ")" :: rest /\ ~ In ")" body.
Proof.
  induction l as [|c l IH].
  - left. intros [].
  - destruct (String.eqb_spec c ")") as [E | E].
    + right. exists [], l. subst c. split; [reflexivity | intros []].
    + destruct IH as [H | (body & rest & -> & H)].
      * left. intros [H1 | H1]; [now apply E | now apply H].
      * right. exists (c :: body), rest. split; [reflexivity |].
        intros [H1 | H1]; [now apply E | now apply H].
Qed.

(** ** The prefix loop of [Units.statement] *)

Section PrefixLoop.

Variable its : list string.

Lemma prefix_loop_step (words : list string) (word : string) :
  Units.prefix_loop its words word =
  if in_list word its then
    match words with
    | [] => true
    | w :: ws =>
        if String.eqb w "(" then
          until_close
            (fun rest =>
               match rest with
               | [] => true
               | w' :: ws' => Units.prefix_loop its ws' w'
               end)
            true ws
        else
          match ws with
          | [] => true
          | w' :: ws' => Units.prefix_loop its ws' w'
          end
    end
  else if negb (in_list word (Units.unit_prefix its)) then false
  else match words with
       | [] => true
       | w :: ws => Units.prefix_loop its ws w
       end.
Proof. destruct words; reflexivity. Qed.

(** The loop, seen on the whole slice [line[:idx]]. *)
Lemma lenient_accepted (l : list string) :
  ClassifierSpec.lenient_prefix its l ->
  match l with
  | [] => True
  | w :: ws => Units.prefix_loop its ws w = true
  end.
Proof.
  induction 1 as [ | w rest Hty Hw _ IH | ty Hty | ty t rest Hty Ht _ IH
                 | ty body Hty Hb | ty body rest Hty Hb _ IH ].
  - exact I.
  - rewrite prefix_loop_step, Hty. unfold Units.unit_prefix.
    rewrite in_list_app, Hty. apply in_list_In in Hw. rewrite Hw. simpl.
    destruct rest; [reflexivity | exact IH].
  - rewrite prefix_loop_step, Hty. reflexivity.
  - rewrite prefix_loop_step, Hty.
    destruct (String.eqb_spec t "(") as [E | _]; [contradiction |].
    destruct rest; [reflexivity | exact IH].
  - rewrite prefix_loop_step, Hty. rewrite String.eqb_refl.
    now apply until_close_none.
  - rewrite prefix_loop_step, Hty. rewrite String.eqb_refl.
    rewrite until_close_app by assumption.
    destruct rest; [reflexivity | exact IH].
Qed.

Lemma accepted_lenient_bounded (n : nat) :
  forall (ws : list string) (w : string),
    length ws < n ->
    Units.prefix_loop its ws w = true ->
    ClassifierSpec.lenient_prefix its (w :: ws).
Proof.
  induction n as [|n IH]; intros ws w Hlen Hrun; [lia |].
  rewrite prefix_loop_step in Hrun.
  destruct (in_list w its) eqn:Hty.
  - destruct ws as [|t ws']; [now constructor |].
    destruct (String.eqb_spec t "(") as [-> | Ht].
    + destruct (close_cases ws') as [Hno | (body & rest & -> & Hb)].
      * now apply ClassifierSpec.lenient_type_open.
      * rewrite until_close_app in Hrun by assumption.
        apply ClassifierSpec.lenient_type_group; try assumption.
        destruct rest as [|w' ws'']; [constructor |].
        apply IH; [| assumption].
        simpl in Hlen. rewrite length_app in Hlen. simpl in Hlen. lia.
    + apply ClassifierSpec.lenient_type_token; try assumption.
      destruct ws' as [|w' ws'']; [constructor |].
      apply IH; [simpl in Hlen; lia | assumption].
  - destruct (in_list w (Units.unit_prefix its)) eqn:Hpre;
      simpl in Hrun; [| discriminate].
    unfold Units.unit_prefix in Hpre. rewrite in_list_app, Hty in Hpre.
    rewrite orb_false_l in Hpre. apply in_list_In in Hpre.
    apply ClassifierSpec.lenient_word; try assumption.
    destruct ws as [|w' ws']; [constructor |].
    apply IH; [simpl in Hlen; lia | assumption].
Qed.

Lemma accepted_iff_lenient (w : string) (ws : list string) :
  Units.prefix_loop its ws w = true <->
  ClassifierSpec.lenient_prefix its (w :: ws).
Proof.
  split.
  - apply (accepted_lenient_bounded (S (length ws))). lia.
  - intros H. exact (lenient_accepted _ H).
Qed.

End PrefixLoop.

Lemma slice_nonempty (table line : list string) :
  (0 < first_index table line 0)%Z ->
  exists w ws,
    firstn (Z.to_nat (first_index table line 0)) line = w :: ws.
Proof.
  intros H. destruct line as [|w ws]; [simpl in H; lia |].
  destruct (Z.to_nat (first_index table (w :: ws) 0)) as [|n] eqn:E; [lia |].
  exists w, (firstn n ws). reflexivity.
Qed.

(** ** Claims about [Unit.statement] *)

(** C4, as stated, fails in both directions.  [double precision function f]
    is accepted although [precision] is no legal prefix token, and a
    function header whose kind selector nests parentheses,
    [real(kind=kind(1.0)) function f], is a legal prefix that the loop
    rejects. *)
Lemma statement_not_legal_prefix :
  (let line := ["double"; "precision"; "function"; "f"] in
   (0 < first_index Units.unit_types line 0)%Z /\
   Units.statement Legacy.intrinsic_types line = true /\
   ClassifierSpec.legal_prefix Legacy.intrinsic_types
     (firstn (Z.to_nat (first_index Units.unit_types line 0)) line) = false)
  /\
  (let line := ["real"; "("; "kind"; "="; "kind"; "("; "1.0"; ")"; ")";
                "function"; "f"] in
   (0 < first_index Units.unit_types line 0)%Z /\
   Units.statement Legacy.intrinsic_types line = false /\
   ClassifierSpec.legal_prefix Legacy.intrinsic_types
     (firstn (Z.to_nat (first_index Units.unit_types line 0)) line) = true).
Proof. repeat split. Qed.

(** C4 (amended): when the first unit keyword of a line comes after its first
    token, [Units.statement] accepts the line exactly when the tokens before
    the keyword read, from left to right, as items that are either one of
    elemental, impure, pure, recursive, non_recursive, or an intrinsic-type
    keyword with the token after it, that token being unchecked and, when it
    is an opening parenthesis, the item running through the first closing
    parenthesis or to the end of those tokens. *)
Theorem statement_accepts_lenient_prefix
    (intrinsic_types line : list string) :
  (0 < first_index Units.unit_types line 0)%Z ->
  (Units.statement intrinsic_types line = true <->
   ClassifierSpec.lenient_prefix intrinsic_types
     (firstn (Z.to_nat (first_index Units.unit_types line 0)) line)).
Proof.
  intros Hidx. unfold Units.statement.
  destruct (Z.eqb_spec (first_index Units.unit_types line 0) 0) as [E | _];
    [lia |].
  destruct (Z.ltb_spec 0 (first_index Units.unit_types line 0)) as [_ | E];
    [| lia].
  destruct (slice_nonempty _ _ Hidx) as (w & ws & ->).
  apply accepted_iff_lenient.
Qed.

Lemma statement_accepts_lenient_prefix_witness :
  let line := ["pure"; "real"; "("; "kind"; "="; "8"; ")"; "function"; "f"] in
  (0 < first_index Units.unit_types line 0)%Z /\
  (Units.statement Legacy.intrinsic_types line = true <->
   ClassifierSpec.lenient_prefix Legacy.intrinsic_types
     (firstn (Z.to_nat (first_index Units.unit_types line 0)) line)).
Proof.
  split; [reflexivity |].
  apply (statement_accepts_lenient_prefix Legacy.intrinsic_types). reflexivity.
Defined.

(** C10: a line whose first token is one of [Unit.unit_types], [type]
    included, is classified as opening a unit whatever follows; so is the
    declaration [type ( name ) :: var]. *)
Theorem statement_first_token_keyword
    (intrinsic_types : list string) (w : string) (rest : list string) :
  In w Units.unit_types ->
  Units.statement intrinsic_types (w :: rest) = true.
Proof.
  intros H. apply in_list_In in H. unfold Units.statement.
  cbn [first_index]. rewrite H. reflexivity.
Qed.

Lemma statement_first_token_keyword_witness :
  In "type" Units.unit_types /\
  Units.statement Legacy.intrinsic_types
    ["type"; "("; "name"; ")"; "::"; "var"] = true.
Proof.
  split.
  - simpl. tauto.
  - apply (statement_first_token_keyword Legacy.intrinsic_types "type").
    simpl. tauto.
Defined.

(** The two prefix loops are the same loop when [Variable.intrinsic_types]
    is the table of the old module. *)
Lemma prefix_loop_legacy (words : list string) (word : string) :
  Legacy.prefix_loop words word =
  Units.prefix_loop Legacy.intrinsic_types words word.
Proof. reflexivity. Qed.

Lemma unit_types_extend (w : string) :
  in_list w Units.unit_types =
  in_list w Legacy.unit_types || String.eqb w "type".
Proof.
  change Units.unit_types with (Legacy.unit_types ++ ["type"]).
  rewrite in_list_app. unfold in_list at 2. cbn [existsb].
  now rewrite orb_false_r.
Qed.

Lemma first_index_legacy (line : list string) (i : Z) :
  find (fun w => in_list w Units.unit_types) line <> Some "type" ->
  first_index Legacy.unit_types line i = first_index Units.unit_types line i.
Proof.
  revert i. induction line as [|w ws IH]; intros i H; [reflexivity |].
  cbn [first_index find] in *. rewrite unit_types_extend in *.
  destruct (in_list w Legacy.unit_types); [reflexivity |].
  destruct (String.eqb_spec w "type") as [-> | _]; simpl in *.
  - now contradiction H.
  - now apply IH.
Qed.

(** C9, as stated, fails: the header of a derived-type definition is a unit
    for the classifier of [units/unit.py] and not for the one of [unit.py]. *)
Lemma statement_versions_differ :
  Legacy.statement ["type"; "point"] = false /\
  Units.statement Legacy.intrinsic_types ["type"; "point"] = true.
Proof. split; reflexivity. Qed.

(** C9 (amended): with the same table of intrinsic types, the classifiers of
    [unit.py] and [units/unit.py] return equal results on every line whose
    first token among program, function, subroutine, module, submodule,
    block, type is not [type] (in particular on every line without a [type]
    token). *)
Theorem statement_versions_agree (line : list string) :
  find (fun w => in_list w Units.unit_types) line <> Some "type" ->
  Legacy.statement line = Units.statement Legacy.intrinsic_types line.
Proof.
  intros H. unfold Legacy.statement, Units.statement.
  rewrite (first_index_legacy line 0 H). reflexivity.
Qed.

Lemma statement_versions_agree_witness :
  let line := ["pure"; "integer"; "function"; "f"; "("; "x"; ")"] in
  find (fun w => in_list w Units.unit_types) line <> Some "type" /\
  Legacy.statement line = Units.statement Legacy.intrinsic_types line.
Proof.
  assert (H : find (fun w => in_list w Units.unit_types)
                ["pure"; "integer"; "function"; "f"; "("; "x"; ")"]
              <> Some "type") by (vm_compute; discriminate).
  split; [exact H |].
  exact (statement_versions_agree _ H).
Defined.

(** ** Claims about [Unit.end_statement] *)

Lemma end_statement_legacy (utype : option string) (line : list string) :
  Legacy.end_statement utype line = Units.end_statement utype line.
Proof. reflexivity. Qed.

Lemma prefix_end_fused (k : string) : String.prefix "end" ("end" ++ k) = true.
Proof. simpl. now destruct k. Qed.

Lemma truthy_true (r : outcome (option bool)) :
  truthy r = true <-> r = Returns (Some true).
Proof.
  destruct r as [[[|] |] | e]; cbn [truthy]; split; intros H;
    try reflexivity; discriminate.
Qed.

(** What [end_statement] accepts, for a unit whose kind [k] is set: [end]
    alone, the fused token alone, or [end k] followed by anything. *)
Lemma end_statement_accepts (k : string) (line : list string) :
  k <> "" ->
  (truthy (Units.end_statement (Some k) line) = true <->
   line = ["end"] \/ line = [("end" ++ k)%string] \/
   exists rest, line = "end" :: k :: rest).
Proof.
  intros Hk. rewrite truthy_true. unfold Units.end_statement.
  destruct (String.eqb_spec k "") as [E | _]; [contradiction |].
  split.
  - destruct line as [|w0 tl]; [discriminate |].
    destruct (String.prefix "end" w0); [| discriminate].
    destruct tl as [|w1 tl].
    + cbn [length Nat.eqb Nat.leb in_list existsb andb orb].
      destruct (String.eqb_spec w0 "end") as [-> | _]; [now left |].
      destruct (String.eqb_spec w0 ("end" ++ k)%string) as [-> | _];
        [right; now left | discriminate].
    + cbn [length Nat.eqb Nat.leb andb].
      destruct (String.eqb_spec w0 "end") as [-> | _];
        [| discriminate].
      destruct (String.eqb_spec w1 k) as [-> | _]; [| discriminate].
      intros _. right. right. now exists tl.
  - intros [-> | [-> | (rest & ->)]].
    + reflexivity.
    + rewrite prefix_end_fused. cbn [length Nat.eqb in_list existsb andb].
      rewrite String.eqb_refl. now rewrite orb_true_r.
    + cbn [String.prefix length Nat.eqb Nat.leb andb].
      now rewrite !String.eqb_refl.
Qed.

(** C3: the fused spelling followed by the unit's name, [endmodule foo],
    is not taken as closing a module, although [end module foo] is. *)
Theorem end_statement_fused_with_name :
  Units.end_statement (Some "module") ["endmodule"; "foo"]
    = Returns (Some false) /\
  Legacy.end_statement (Some "module") ["endmodule"; "foo"]
    = Returns (Some false) /\
  Units.end_statement (Some "module") ["end"; "module"; "foo"]
    = Returns (Some true).
Proof. repeat split. Qed.

(** ** [__generate_link_list] *)

Section LinkList.

Import MakeMake.

Variable nflb : gmap string (list string).

Lemma link_list_truncated (fuel : nat) (objects obj_list : list string)
    (level : nat) :
  99 < level -> link_list fuel nflb objects obj_list level = obj_list.
Proof.
  intros H. destruct fuel; simpl;
    destruct (Nat.leb_spec level 99); (lia || reflexivity).
Qed.

Lemma link_list_nil (fuel : nat) (obj_list : list string) (level : nat) :
  link_list fuel nflb [] obj_list level = obj_list.
Proof. destruct fuel; simpl; now destruct (Nat.leb level 99). Qed.

(** The calls [__generate_link_list([n], ...)] made in turn for the objects
    that [o] needs amount to one call on the list of these objects. *)
Lemma link_list_children (fuel : nat) (ns obj_list : list string)
    (level : nat) :
  fold_left (fun acc n => link_list fuel nflb [n] acc level) ns obj_list =
  link_list fuel nflb ns obj_list level.
Proof.
  destruct (Nat.leb_spec level 99) as [Hle | Hgt].
  - destruct fuel as [|fuel'].
    + simpl. apply Nat.leb_le in Hle. rewrite Hle.
      induction ns as [|n ns IH]; [reflexivity | exact IH].
    + cbn [link_list]. apply Nat.leb_le in Hle. rewrite Hle.
      revert obj_list. induction ns as [|n ns IH]; intros obj_list;
        [reflexivity |].
      cbn [fold_left]. apply IH.
  - revert obj_list. induction ns as [|n ns IH]; intros obj_list.
    + now rewrite link_list_nil.
    + cbn [fold_left]. rewrite IH.
      now rewrite !link_list_truncated by assumption.
Qed.

Lemma link_list_step (fuel : nat) (objects obj_list : list string)
    (level : nat) :
  level <= 99 ->
  link_list (S fuel) nflb objects obj_list level =
  fold_left (visit nflb fuel level) objects obj_list.
Proof.
  intros Hle. cbn [link_list]. apply Nat.leb_le in Hle. rewrite Hle.
  revert obj_list. induction objects as [|o rest IH]; intros obj_list;
    [reflexivity |].
  cbn [fold_left]. rewrite IH. f_equal. unfold visit, needed.
  destruct (negb (in_list o obj_list)); [| reflexivity].
  destruct (nflb !! o) as [ns |].
  - apply link_list_children.
  - now rewrite link_list_nil.
Qed.

(** The recursion of the Python function, level by level. *)
Lemma generate_link_list_step (objects obj_list : list string)
    (level : nat) :
  generate_link_list objects nflb obj_list level =
  if Nat.leb level 99 then
    fold_left
      (fun obj_list o =>
         if negb (in_list o obj_list)
         then generate_link_list (needed nflb o) nflb (obj_list ++ [o])
                (level + 1)
         else obj_list)
      objects obj_list
  else obj_list.
Proof.
  unfold generate_link_list.
  destruct (Nat.leb_spec level 99) as [Hle | Hgt].
  - replace (100 - level) with (S (100 - (level + 1))) by lia.
    now rewrite link_list_step.
  - now apply link_list_truncated.
Qed.

(** Induction over the calls of [__generate_link_list]. *)
Lemma link_list_calls
    (P : nat -> list string -> list string -> list string -> Prop) :
  (forall level objects obj_list,
      99 < level -> P level objects obj_list obj_list) ->
  (forall level obj_list, P level [] obj_list obj_list) ->
  (forall level o rest obj_list r,
      level <= 99 -> in_list o obj_list = true ->
      P level rest obj_list r -> P level (o :: rest) obj_list r) ->
  (forall level o rest obj_list r1 r,
      level <= 99 -> in_list o obj_list = false ->
      P (level + 1) (needed nflb o) (obj_list ++ [o]) r1 ->
      P level rest r1 r -> P level (o :: rest) obj_list r) ->
  forall fuel level objects obj_list,
    100 - level <= fuel ->
    P level objects obj_list (link_list fuel nflb objects obj_list level).
Proof.
  intros Htrunc Hnil Hseen Hnew.
  induction fuel as [|fuel IHfuel]; intros level objects obj_list Hfuel.
  - rewrite link_list_truncated by lia. apply Htrunc. lia.
  - destruct (Nat.leb_spec level 99) as [Hle | Hgt].
    + rewrite link_list_step by assumption.
      revert obj_list. induction objects as [|o rest IH]; intros obj_list.
      * apply Hnil.
      * cbn [fold_left]. unfold visit at 2.
        destruct (in_list o obj_list) eqn:Hin; cbn [negb].
        -- apply Hseen; [assumption .. |]. apply IH.
        -- eapply Hnew; [assumption .. | | apply IH].
           apply IHfuel. lia.
    + rewrite link_list_truncated by assumption. now apply Htrunc.
Qed.

End LinkList.

Section LinkClosure.

Import MakeMake.

Variable nflb : gmap string (list string).

Lemma reachable_trans (a b x : string) :
  reachable nflb a b -> reachable nflb b x -> reachable nflb a x.
Proof.
  intros Hab Hbx. induction Hbx as [|o n _ IH Hn]; [assumption |].
  now apply reachable_step with o.
Qed.

Lemma reachable_needs (o n x : string) :
  needs nflb o n -> reachable nflb n x -> reachable nflb o x.
Proof.
  intros Hn Hx. apply reachable_trans with n; [| assumption].
  apply reachable_step with o; [constructor | assumption].
Qed.

Lemma in_list_false (w : string) (l : list string) :
  in_list w l = false <-> ~ In w l.
Proof.
  rewrite <- in_list_In. destruct (in_list w l); split; intros H;
    try reflexivity; try discriminate; try (intros E; discriminate).
  now contradiction H.
Qed.

(** The list grows at its end, stays free of repetitions, and what is added
    is reachable from one of [objects]. *)
Lemma link_list_sound (fuel level : nat) (objects obj_list : list string) :
  100 - level <= fuel ->
  exists added,
    link_list fuel nflb objects obj_list level = obj_list ++ added /\
    (NoDup obj_list -> NoDup (obj_list ++ added)) /\
    (forall x, In x added -> exists o, In o objects /\ reachable nflb o x).
Proof.
  revert fuel level objects obj_list.
  apply (link_list_calls nflb
           (fun _ objects obj_list r =>
              exists added,
                r = obj_list ++ added /\
                (NoDup obj_list -> NoDup (obj_list ++ added)) /\
                (forall x, In x added ->
                           exists o, In o objects /\ reachable nflb o x))).
  - intros _ objects obj_list _. exists []. rewrite app_nil_r.
    repeat split; [tauto | intros x []].
  - intros _ obj_list. exists []. rewrite app_nil_r.
    repeat split; [tauto | intros x []].
  - intros _ o rest obj_list r _ _ (added & -> & Hnd & Hre).
    exists added. repeat split; [assumption |].
    intros x Hx. destruct (Hre x Hx) as (o' & Ho' & Hr).
    exists o'. split; [now right | assumption].
  - intros _ o rest obj_list r1 r _ Hin
      (added1 & -> & Hnd1 & Hre1) (added2 & -> & Hnd2 & Hre2).
    exists (o :: added1 ++ added2).
    assert (E : ((obj_list ++ [o]) ++ added1) ++ added2
                = obj_list ++ o :: added1 ++ added2).
    { now rewrite <- !app_assoc. }
    rewrite E in *. repeat split.
    + intros Hnd. apply Hnd2. apply Hnd1.
      apply NoDup_app. repeat split; [assumption | | ].
      * intros x Hx Hxo. apply list_elem_of_In in Hxo.
        destruct Hxo as [<- | []]. apply in_list_false in Hin.
        apply Hin. now apply list_elem_of_In.
      * apply NoDup_singleton.
    + intros x [<- | Hx].
      * exists o. split; [now left | constructor].
      * apply in_app_or in Hx. destruct Hx as [Hx | Hx].
        -- destruct (Hre1 x Hx) as (n & Hn & Hr).
           exists o. split; [now left |].
           now apply reachable_needs with n.
        -- destruct (Hre2 x Hx) as (o' & Ho' & Hr).
           exists o'. split; [now right | assumption].
Qed.

End LinkClosure.

Section LinkComplete.

Import MakeMake.

Variable nflb : gmap string (list string).
Variable U : list string.
Hypothesis U_closed : closed_under nflb U = true.

Lemma closed_needs (o n : string) : In o U -> needs nflb o n -> In n U.
Proof.
  intros Ho Hn. unfold closed_under in U_closed.
  rewrite forallb_forall in U_closed. specialize (U_closed o Ho).
  rewrite forallb_forall in U_closed. apply in_list_In. now apply U_closed.
Qed.

Lemma unvisited_mono (V acc acc' : list string) :
  (forall x, In x acc -> In x acc') -> unvisited V acc' <= unvisited V acc.
Proof.
  intros Hincl. unfold unvisited.
  induction V as [|v V IH]; cbn [List.filter]; [simpl; lia |].
  destruct (in_list v acc) eqn:E; cbn [negb].
  - apply in_list_In, Hincl, in_list_In in E. rewrite E. exact IH.
  - destruct (in_list v acc'); cbn [negb length]; lia.
Qed.

Lemma unvisited_add (V acc : list string) (o : string) :
  In o V -> ~ In o acc -> unvisited V (acc ++ [o]) < unvisited V acc.
Proof.
  intros HoV Hacc. unfold unvisited.
  induction V as [|v V IH]; [destruct HoV |].
  assert (Hle : unvisited V (acc ++ [o]) <= unvisited V acc).
  { apply unvisited_mono. intros x Hx. apply in_or_app. now left. }
  unfold unvisited in Hle. cbn [List.filter].
  destruct HoV as [-> | HoV].
  - apply in_list_false in Hacc. rewrite Hacc.
    assert (E : in_list o (acc ++ [o]) = true).
    { apply in_list_In, in_or_app. right. now left. }
    rewrite E. cbn [negb length]. lia.
  - specialize (IH HoV).
    destruct (in_list v acc) eqn:E; cbn [negb].
    + assert (E' : in_list v (acc ++ [o]) = true).
      { apply in_list_In, in_or_app. left. now apply in_list_In. }
      rewrite E'. exact IH.
    + destruct (in_list v (acc ++ [o])); cbn [negb length]; lia.
Qed.

Lemma unvisited_none (V acc : list string) :
  unvisited V acc = 0 -> forall x, In x V -> In x acc.
Proof.
  unfold unvisited. induction V as [|v V IH]; intros H x Hx; [destruct Hx |].
  cbn [List.filter] in H.
  destruct (in_list v acc) eqn:E; cbn [negb length] in H; [| discriminate].
  destruct Hx as [<- | Hx]; [now apply in_list_In | now apply IH].
Qed.

(** While the objects not yet listed are no more than the levels left, the
    list ends up holding [objects] and all that the added objects need. *)
Lemma link_list_complete (fuel level : nat) (objects obj_list : list string) :
  100 - level <= fuel ->
  (forall o, In o objects -> In o U) ->
  unvisited U obj_list <= 100 - level ->
  let r := link_list fuel nflb objects obj_list level in
  (forall x, In x obj_list -> In x r) /\
  (forall o, In o objects -> In o r) /\
  (forall x, In x r -> ~ In x obj_list ->
             forall n, needs nflb x n -> In n r).
Proof.
  revert fuel level objects obj_list.
  apply (link_list_calls nflb
           (fun level objects obj_list r =>
              (forall o, In o objects -> In o U) ->
              unvisited U obj_list <= 100 - level ->
              (forall x, In x obj_list -> In x r) /\
              (forall o, In o objects -> In o r) /\
              (forall x, In x r -> ~ In x obj_list ->
                         forall n, needs nflb x n -> In n r))).
  - intros level objects obj_list Hlevel HU Hleft. repeat split.
    + tauto.
    + intros o Ho. apply (unvisited_none U obj_list); [lia | now apply HU].
    + intros x Hx Hnx. contradiction.
  - intros level obj_list _ _. repeat split.
    + tauto.
    + intros o [].
    + intros x Hx Hnx. contradiction.
  - intros level o rest obj_list r Hlevel Hin IH HU Hleft.
    destruct IH as (Hkeep & Hrest & Hneeds);
      [intros o' Ho'; apply HU; now right | assumption |].
    repeat split; [assumption | | assumption].
    intros o' [<- | Ho']; [| now apply Hrest].
    apply Hkeep. now apply in_list_In.
  - intros level o rest obj_list r1 r Hlevel Hin IH1 IH2 HU Hleft.
    apply in_list_false in Hin.
    assert (HoU : In o U) by (apply HU; now left).
    destruct IH1 as (Hkeep1 & Hrest1 & Hneeds1).
    { intros n Hn. now apply closed_needs with o. }
    { pose proof (unvisited_add U obj_list o HoU Hin). lia. }
    assert (Hacc1 : forall x, In x obj_list -> In x r1).
    { intros x Hx. apply Hkeep1, in_or_app. now left. }
    destruct IH2 as (Hkeep2 & Hrest2 & Hneeds2).
    { intros o' Ho'. apply HU. now right. }
    { pose proof (unvisited_mono U obj_list r1 Hacc1). lia. }
    repeat split.
    + intros x Hx. now apply Hkeep2, Hacc1.
    + intros o' [<- | Ho']; [| now apply Hrest2].
      apply Hkeep2, Hkeep1, in_or_app. right. now left.
    + intros x Hx Hnx n Hn.
      destruct (in_list x r1) eqn:Hxr1.
      * apply in_list_In in Hxr1. apply Hkeep2.
        destruct (String.eqb_spec x o) as [-> | Hxo].
        -- now apply Hrest1.
        -- apply (Hneeds1 x Hxr1); [| assumption].
           intros Hx'. apply in_app_or in Hx'.
           destruct Hx' as [Hx' | [Hx' | []]]; [now apply Hnx |].
           now apply Hxo.
      * apply in_list_false in Hxr1. now apply (Hneeds2 x Hx Hxr1).
Qed.

End LinkComplete.

Section LinkDepthFirst.

Import MakeMake.

Variable nflb : gmap string (list string).
Variable U : list string.
Hypothesis U_closed : closed_under nflb U = true.

(** Objects that were visited are passed over. *)
Lemma depth_first_visited (objects : list string) :
  forall (fuel : nat) (stack visited : list string),
    (forall o, In o objects -> In o visited) ->
    depth_first (length objects + fuel) nflb (objects ++ stack) visited
    = depth_first fuel nflb stack visited.
Proof.
  induction objects as [|o objects IH]; intros fuel stack visited Hin;
    [reflexivity |].
  cbn [length Nat.add app depth_first].
  replace (in_list o visited) with true
    by (symmetry; apply in_list_In, Hin; now left).
  apply IH. intros o' Ho'. apply Hin. now right.
Qed.

(** A call of [__generate_link_list] does what the depth-first traversal
    does with the objects of the call on top of its stack, as long as the
    objects not yet listed are no more than the levels that are left. *)
Lemma link_list_depth_first (fuel level : nat)
    (objects obj_list : list string) :
  100 - level <= fuel ->
  (forall x, In x obj_list ->
             In x (link_list fuel nflb objects obj_list level)) /\
  ((forall o, In o objects -> In o U) ->
   unvisited U obj_list <= 100 - level ->
   forall stack,
     exists steps,
       forall more,
         depth_first (steps + more) nflb (objects ++ stack) obj_list
         = depth_first more nflb stack
             (link_list fuel nflb objects obj_list level)).
Proof.
  revert fuel level objects obj_list.
  apply (link_list_calls nflb
           (fun level objects obj_list r =>
              (forall x, In x obj_list -> In x r) /\
              ((forall o, In o objects -> In o U) ->
               unvisited U obj_list <= 100 - level ->
               forall stack,
                 exists steps,
                   forall more,
                     depth_first (steps + more) nflb (objects ++ stack)
                       obj_list
                     = depth_first more nflb stack r))).
  - intros level objects obj_list Hlevel. split; [tauto |].
    intros Hin Hun stack. exists (length objects). intros more.
    apply depth_first_visited. intros o Ho.
    apply (unvisited_none U obj_list); [lia | now apply Hin].
  - intros level obj_list. split; [tauto |].
    intros _ _ stack. exists 0. reflexivity.
  - intros level o rest obj_list r _ Ho (Hkeep & IH).
    split; [exact Hkeep |]. intros Hin Hun stack.
    destruct (IH (fun o' Ho' => Hin o' (or_intror Ho')) Hun stack)
      as (steps & Hsteps).
    exists (S steps). intros more.
    cbn [Nat.add app depth_first]. rewrite Ho. apply Hsteps.
  - intros level o rest obj_list r1 r Hlevel Ho (Hkeep1 & IH1) (Hkeep & IH).
    split.
    { intros x Hx. apply Hkeep, Hkeep1, in_or_app. now left. }
    intros Hin Hun stack.
    assert (HoU : In o U) by (apply Hin; now left).
    assert (Hnew : ~ In o obj_list) by now apply in_list_false.
    pose proof (unvisited_add U obj_list o HoU Hnew) as Hless.
    assert (Hrest : forall o', In o' rest -> In o' U)
      by (intros o' Ho'; apply Hin; now right).
    assert (Hun2 : unvisited U r1 <= 100 - level).
    { etransitivity; [| exact Hun]. apply unvisited_mono.
      intros x Hx. apply Hkeep1, in_or_app. now left. }
    destruct (IH Hrest Hun2 stack) as (steps2 & Hsteps2).
    assert (Hneeded : forall n, In n (needed nflb o) -> In n U)
      by (intros n Hn; exact (closed_needs nflb U U_closed o n HoU Hn)).
    assert (Hun1 : unvisited U (obj_list ++ [o]) <= 100 - (level + 1))
      by lia.
    destruct (IH1 Hneeded Hun1 (rest ++ stack)) as (steps1 & Hsteps1).
    exists (S (steps1 + steps2)). intros more.
    cbn [Nat.add app depth_first]. rewrite Ho.
    rewrite <- Nat.add_assoc, Hsteps1. apply Hsteps2.
Qed.

End LinkDepthFirst.

Section LinkPass.

Import MakeMake.

Variable nflb : gmap string (list string).

Lemma fold_left_pointwise {A B : Type} (f g : A -> B -> A) (l : list B)
    (a : A) :
  (forall a b, f a b = g a b) -> fold_left f l a = fold_left g l a.
Proof.
  intros H. revert a. induction l as [|b l IH]; intros a; [reflexivity |].
  cbn [fold_left]. now rewrite H, IH.
Qed.

(** Levels beyond the hundred that the guard allows are never used. *)
Lemma link_list_levels (fuel1 : nat) :
  forall (fuel2 level : nat) (objects obj_list : list string),
    100 - level <= fuel1 -> 100 - level <= fuel2 ->
    link_list fuel1 nflb objects obj_list level =
    link_list fuel2 nflb objects obj_list level.
Proof.
  induction fuel1 as [|fuel1 IH]; intros fuel2 level objects obj_list H1 H2.
  - now rewrite !link_list_truncated by lia.
  - destruct (Nat.leb_spec level 99) as [Hle | Hgt].
    + destruct fuel2 as [|fuel2]; [lia |].
      rewrite !link_list_step by assumption.
      apply fold_left_pointwise. intros acc o. unfold visit.
      destruct (negb (in_list o acc)); [| reflexivity].
      apply IH; lia.
    + now rewrite !link_list_truncated by assumption.
Qed.

Lemma object_of_program_outcome (st : usage) (prog : option string) :
  (exists p o, prog = Some p /\ object_file_for st !! p = Some o /\
               object_of_program st prog = Returns o) \/
  object_of_program st prog = Raises KeyError.
Proof.
  destruct prog as [p |]; [| now right]. simpl.
  destruct (object_file_for st !! p) as [o |] eqn:E; [| now right].
  left. now exists p, o.
Qed.

(** The rules that the link pass writes: one for each program, in the order
    of [programs], holding the link list computed from the program's entry
    in [object_file_for]. *)
Lemma link_pass_rules (st : usage) (progs : list (option string))
    (rules0 : list (option string * list string)) :
  (exists objs,
      Forall2 (fun prog o =>
                 exists p, prog = Some p /\ object_file_for st !! p = Some o)
        progs objs /\
      for_each (link_rule st nflb) progs rules0 =
      Returns (rules0 ++
               map (fun po => (fst po, generate_link_list [snd po] nflb [] 0))
                 (combine progs objs))) \/
  for_each (link_rule st nflb) progs rules0 = Raises KeyError.
Proof.
  revert rules0. induction progs as [|prog progs IH]; intros rules0.
  - left. exists []. split; [constructor |]. simpl. now rewrite app_nil_r.
  - assert (Hstep : for_each (link_rule st nflb) (prog :: progs) rules0 =
                    (o ← object_of_program st prog;
                     for_each (link_rule st nflb) progs
                       (rules0 ++
                        [(prog, generate_link_list [o] nflb [] 0)]))).
    { cbn [for_each]. unfold link_rule.
      now destruct (object_of_program st prog). }
    rewrite Hstep. clear Hstep.
    destruct (object_of_program_outcome st prog)
      as [(p & o & Hp & Ho & E) | E]; rewrite E; [| now right].
    subst prog. cbn [mbind outcome_bind].
    destruct (IH (rules0 ++ [(Some p, generate_link_list [o] nflb [] 0)]))
      as [(objs & HF & ->) | ->]; [| now right].
    left. exists (o :: objs). split.
    + constructor; [now exists p | assumption].
    + cbn [combine map fst snd]. now rewrite <- app_assoc.
Qed.

End LinkPass.

(** ** Claims about link lists *)

(** C5, as stated, fails: with A needing B and B needing A the list is
    computed and the rule written as for any other program; nothing is
    raised and nothing is reported.  The project has the cycle through two
    external procedures that call each other. *)
Lemma link_cycle_not_reported :
  let cyclic : gmap string (list string) :=
    <["a.o" := ["b.o"]]> (<["b.o" := ["a.o"]]> ∅) in
  let p :=
    MakeMake.Project
      [MakeMake.Source "src/a.f90"
         [MakeMake.Unit (Some "fa") "subroutine" [] []
            [MakeMake.Unit (Some "inner_a") "subroutine" [] ["fb"] []]];
       MakeMake.Source "src/b.f90"
         [MakeMake.Unit (Some "fb") "subroutine" [] []
            [MakeMake.Unit (Some "inner_b") "subroutine" [] ["fa"] []]];
       MakeMake.Source "src/main.f90"
         [MakeMake.Unit (Some "main") "program" [] []
            [MakeMake.Unit (Some "run") "subroutine" [] ["fa"] []]]]
      ["main"; "fa"; "fb"] in
  MakeMake.generate_link_list ["a.o"] cyclic [] 0 = ["a.o"; "b.o"] /\
  MakeMake.makemake p None =
    Returns [(Some "main", ["main.o"; "a.o"; "b.o"])].
Proof. split; vm_compute; reflexivity. Qed.

(** C5 (amended): for every [needed_for_link_by], cyclic or not, the
    link-list computation ends: its recursion never uses more than the
    hundred levels that the guard allows, a call at level 100 or deeper
    returns its list unchanged, which truncates the traversal silently, and
    no warning is reported: the link pass returns its rules, or raises
    [KeyError] when a program has no entry in [object_file_for]. *)
Theorem link_list_bounded_and_silent
    (nflb : gmap string (list string)) (objects obj_list : list string)
    (level extra : nat) (programs : list (option string * string))
    (st : MakeMake.usage) :
  MakeMake.link_list (100 - level + extra) nflb objects obj_list level =
    MakeMake.generate_link_list objects nflb obj_list level /\
  MakeMake.generate_link_list objects nflb obj_list (100 + level)
    = obj_list /\
  ((exists rules, MakeMake.link_pass programs st nflb = Returns rules) \/
   MakeMake.link_pass programs st nflb = Raises KeyError).
Proof.
  split; [| split].
  - unfold MakeMake.generate_link_list. apply link_list_levels; lia.
  - unfold MakeMake.generate_link_list. apply link_list_truncated. lia.
  - unfold MakeMake.link_pass.
    destruct (link_pass_rules nflb st (dict_keys programs) [])
      as [(objs & _ & ->) | ->]; [left; eauto | now right].
Qed.

(** C6, as stated, fails: the objects are listed in the order in which a
    depth-first traversal first meets them.  [main.f90] uses module [b] and
    then module [c], and [b] uses [d]: the rule lists [d.o] before [c.o],
    where breadth order puts [c.o] first. *)
Lemma link_list_not_breadth_first :
  let p :=
    MakeMake.Project
      [MakeMake.Source "src/main.f90"
         [MakeMake.Unit (Some "main") "program" ["b"] [] [];
          MakeMake.Unit (Some "util") "subroutine" ["c"] [] []];
       MakeMake.Source "src/b.f90"
         [MakeMake.Unit (Some "b") "module" ["d"] [] []];
       MakeMake.Source "src/c.f90"
         [MakeMake.Unit (Some "c") "module" [] [] []];
       MakeMake.Source "src/d.f90"
         [MakeMake.Unit (Some "d") "module" [] [] []]]
      ["main"] in
  MakeMake.makemake p None =
    Returns [(Some "main", ["main.o"; "b.o"; "d.o"; "c.o"])] /\
  (l ← MakeMake.first_pass p;
   st ← MakeMake.second_pass p l;
   Returns (MakeMake.breadth_first 100 (MakeMake.third_pass l st)
              ["main.o"] []))
  = Returns ["main.o"; "b.o"; "c.o"; "d.o"].
Proof. split; vm_compute; reflexivity. Qed.

(** C6 (amended): for every starting object, the link list computed from
    it starts with that object, lists no object twice and lists only objects
    in the transitive closure over [needed_for_link_by].  Whenever the
    object lies in a set of at most 100 object files that holds whatever its
    members need, the list holds the whole closure, and it is the list of
    the objects in depth-first order of first visit: the depth-first
    traversal from the object, given enough steps, ends with this list.
    [link_pass_rules] shows that these are the lists written in the rules. *)
Theorem link_list_closure
    (nflb : gmap string (list string)) (start : string) (U : list string)
    (x : string) :
  let lst := MakeMake.generate_link_list [start] nflb [] 0 in
  List.NoDup lst /\
  hd_error lst = Some start /\
  (In x lst -> MakeMake.reachable nflb start x) /\
  (in_list start U = true ->
   MakeMake.closed_under nflb U = true ->
   length U <= 100 ->
   (MakeMake.reachable nflb start x -> In x lst) /\
   exists steps,
     forall fuel, MakeMake.depth_first (steps + fuel) nflb [start] [] = lst).
Proof.
  intros lst.
  assert (Hstep : lst = MakeMake.generate_link_list
                          (MakeMake.needed nflb start) nflb [start] 1).
  { unfold lst. now rewrite generate_link_list_step. }
  destruct (link_list_sound nflb 100 0 [start] []) as (added & E & Hnd & Hre);
    [lia |].
  change (lst = added) in E.
  split; [| split; [| split]].
  - apply NoDup_ListNoDup. rewrite E. apply Hnd. constructor.
  - rewrite Hstep. unfold MakeMake.generate_link_list.
    destruct (link_list_sound nflb (100 - 1) 1 (MakeMake.needed nflb start)
                [start]) as (added' & -> & _); [lia |].
    reflexivity.
  - intros Hx. rewrite E in Hx. destruct (Hre x Hx) as (o & [<- | []] & Hr).
    exact Hr.
  - intros Hstart Hclosed Hlen.
    assert (HU : forall o, In o [start] -> In o U).
    { intros o [<- | []]. now apply in_list_In. }
    assert (Hun : MakeMake.unvisited U [] <= 100 - 0).
    { unfold MakeMake.unvisited.
      etransitivity; [apply filter_length_le | simpl; lia]. }
    split.
    + destruct (link_list_complete nflb U Hclosed 100 0 [start] [])
        as (_ & Hin & Hneeds); [lia | exact HU | exact Hun |].
      fold lst in Hin, Hneeds.
      intros Hr. induction Hr as [|o n _ IH Hn].
      * apply Hin. now left.
      * apply (Hneeds o IH); [intros [] | exact Hn].
    + destruct (link_list_depth_first nflb U Hclosed 100 0 [start] [])
        as (_ & Hdfs); [lia |].
      destruct (Hdfs HU Hun []) as (steps & Hsteps).
      exists steps. intros fuel. specialize (Hsteps fuel).
      cbn [app] in Hsteps. rewrite Hsteps. now destruct fuel.
Qed.

Lemma link_list_closure_witness :
  let nflb : gmap string (list string) :=
    <["a.o" := ["b.o"; "c.o"]]> (<["b.o" := ["d.o"; "a.o"]]> ∅) in
  let U := ["a.o"; "b.o"; "c.o"; "d.o"] in
  in_list "a.o" U = true /\
  MakeMake.closed_under nflb U = true /\
  length U <= 100 /\
  (MakeMake.reachable nflb "a.o" "d.o" ->
   In "d.o" (MakeMake.generate_link_list ["a.o"] nflb [] 0)) /\
  exists steps,
    forall fuel,
      MakeMake.depth_first (steps + fuel) nflb ["a.o"] []
      = MakeMake.generate_link_list ["a.o"] nflb [] 0.
Proof.
  intros nflb U.
  assert (H1 : in_list "a.o" U = true) by reflexivity.
  assert (H2 : MakeMake.closed_under nflb U = true) by (vm_compute; reflexivity).
  assert (H3 : length U <= 100) by (simpl; lia).
  split; [exact H1 | split; [exact H2 | split; [exact H3 |]]].
  exact (proj2 (proj2 (proj2 (link_list_closure nflb "a.o" U "d.o")))
           H1 H2 H3).
Defined.

(** The bound of a hundred objects is what the guard [level<=99] asks for:
    in a chain where each object needs the next, the hundred-and-first
    object is left out although the hundredth needs it. *)
Lemma link_list_chain_truncated :
  let node := fun i : nat => String (ascii_of_nat (i + 48)) ".o" in
  let chain : gmap string (list string) :=
    list_to_map (map (fun i => (node i, [node (i + 1)])) (seq 0 101)) in
  let lst := MakeMake.generate_link_list [node 0] chain [] 0 in
  lst = map node (seq 0 100) /\
  in_list (node 99) lst = true /\
  chain !! node 99 = Some [node 100] /\
  in_list (node 100) lst = false.
Proof. vm_compute. repeat split. Qed.

(** ** Sequencing and dictionaries *)

Lemma for_each_cons {S X : Type} (body : S -> X -> outcome S) (x : X)
    (rest : list X) (s : S) :
  for_each body (x :: rest) s = (s' ← body s x; for_each body rest s').
Proof. reflexivity. Qed.

Lemma for_each_app {S X : Type} (body : S -> X -> outcome S)
    (xs ys : list X) (s : S) :
  for_each body (xs ++ ys) s = (s' ← for_each body xs s; for_each body ys s').
Proof.
  revert s. induction xs as [|x xs IH]; intros s; [reflexivity |].
  cbn [app for_each]. destruct (body s x) as [s' | e]; [apply IH | reflexivity].
Qed.

Lemma bind_returns {A B : Type} (m : outcome A) (k : A -> outcome B) (b : B) :
  (x ← m; k x) = Returns b -> exists a, m = Returns a /\ k a = Returns b.
Proof. destruct m as [a | e]; intros H; [eauto | discriminate H]. Qed.

Lemma bind_raises {A B : Type} (m : outcome A) (k : A -> outcome B) (e : exn) :
  (x ← m; k x) = Raises e ->
  m = Raises e \/ exists a, m = Returns a /\ k a = Raises e.
Proof.
  destruct m as [a | e']; intros H; [right; eauto | left].
  cbv [mbind outcome_bind] in H. now injection H as ->.
Qed.

Lemma assert_returns (cond : bool) (failure : exn) (u : unit) :
  assert_ cond failure = Returns u -> cond = true.
Proof. destruct cond; [reflexivity | discriminate]. Qed.

Section DictFacts.

Context {K V : Type} `{EqDecision K}.

Lemma dict_get_cons (k' : K) (v' : V) (d : list (K * V)) (k : K) :
  dict_get ((k', v') :: d) k = if decide (k' = k) then Some v'
                               else dict_get d k.
Proof.
  unfold dict_get. cbn [find fst]. unfold bool_decide.
  destruct (decide_rel eq k' k) as [E | E]; destruct (decide (k' = k));
    try contradiction; reflexivity.
Qed.

Lemma dict_mem_keys (d : list (K * V)) (k : K) :
  dict_mem d k = true <-> In k (dict_keys d).
Proof.
  unfold dict_mem. rewrite bool_decide_eq_true.
  induction d as [|[k' v'] d IH].
  - split; [intros [x Hx]; discriminate | intros []].
  - rewrite dict_get_cons. cbn [dict_keys map fst In].
    destruct (decide (k' = k)) as [E | E].
    + split; [now left | eauto].
    + rewrite IH. unfold dict_keys.
      split; [now right | intros [E' | Hin]; [contradiction | assumption]].
Qed.

Lemma dict_keys_set_new (d : list (K * V)) (k : K) (v : V) :
  ~ In k (dict_keys d) -> dict_keys (dict_set d k v) = dict_keys d ++ [k].
Proof.
  induction d as [|[k' v'] d IH]; intros H; [reflexivity |].
  cbn [dict_set]. unfold bool_decide.
  destruct (decide_rel eq k' k) as [E | E].
  - exfalso. apply H. now left.
  - cbn [dict_keys map fst app]. f_equal. apply IH.
    intros Hin. apply H. now right.
Qed.

Lemma dict_get_set (d : list (K * V)) (k : K) (v : V) (k0 : K) :
  dict_get (dict_set d k v) k0 =
  if decide (k = k0) then Some v else dict_get d k0.
Proof.
  induction d as [|[k' v'] d IH].
  - cbn [dict_set]. rewrite dict_get_cons. reflexivity.
  - cbn [dict_set]. unfold bool_decide.
    destruct (decide_rel eq k' k) as [E | E].
    + subst k'. rewrite !dict_get_cons. now destruct (decide (k = k0)).
    + rewrite !dict_get_cons, IH.
      destruct (decide (k' = k0)) as [E1 | E1];
        destruct (decide (k = k0)) as [E2 | E2]; try reflexivity.
      congruence.
Qed.

End DictFacts.

(** ** makemake: first pass *)

Section FirstPass.

Import MakeMake.

Lemma list_unit_step (this_obj : string) (st : listing) (u : unit_) :
  list_unit this_obj st u =
  let listed st :=
    if String.eqb (utype u) "module" then
      match name u with
      | None => Raises AttributeError
      | Some n =>
          if in_list (lower n) (modules_in_src st)
          then Raises (AssertionError DuplicateModule)
          else Returns (Listing (programs st) (src_to_obj st)
                          (modules_in_src st ++ [lower n]) (all_objs st))
      end
    else Returns st in
  if String.eqb (utype u) "program" then
    if dict_mem (programs st) (name u)
    then Raises (AssertionError DuplicateProgram)
    else listed (Listing (dict_set (programs st) (name u) this_obj)
                   (src_to_obj st) (modules_in_src st) (all_objs st))
  else listed st.
Proof.
  unfold list_unit.
  destruct (String.eqb (utype u) "program");
    [destruct (dict_mem (programs st) (name u)) |];
    cbn [negb assert_ mbind outcome_bind programs src_to_obj modules_in_src
         all_objs]; try reflexivity;
    destruct (String.eqb (utype u) "module"); try reflexivity;
    destruct (name u); try reflexivity;
    cbn [programs src_to_obj modules_in_src all_objs];
    match goal with
    | |- context [in_list ?a ?b] => now destruct (in_list a b)
    end.
Qed.

Lemma list_unit_returns (this_obj : string) (st st' : listing) (u : unit_) :
  list_unit this_obj st u = Returns st' ->
  modules_in_src st' = modules_in_src st ++ unit_modules u /\
  dict_keys (programs st') = dict_keys (programs st) ++ unit_programs u /\
  all_objs st' = all_objs st /\
  src_to_obj st' = src_to_obj st /\
  (forall m, In m (unit_modules u) -> ~ In m (modules_in_src st)) /\
  (forall n, In n (unit_programs u) -> ~ In n (dict_keys (programs st))).
Proof.
  rewrite list_unit_step. unfold unit_modules, unit_programs.
  destruct (String.eqb (utype u) "program") eqn:Hprog.
  - destruct (dict_mem (programs st) (name u)) eqn:Hmem; [discriminate |].
    assert (Hnew : ~ In (name u) (dict_keys (programs st))).
    { intros Hin. apply dict_mem_keys in Hin. congruence. }
    cbn beta zeta.
    destruct (String.eqb (utype u) "module").
    + destruct (name u) as [n |] eqn:Hname; [| discriminate].
      cbn [programs src_to_obj modules_in_src all_objs].
      destruct (in_list (lower n) (modules_in_src st)) eqn:Hin;
        [discriminate |].
      intros [= <-]. cbn [programs src_to_obj modules_in_src all_objs].
      rewrite dict_keys_set_new by assumption.
      repeat split; try reflexivity.
      * intros m [<- | []]. now apply in_list_false.
      * intros k [<- | []]. assumption.
    + intros [= <-]. cbn [programs src_to_obj modules_in_src all_objs].
      rewrite dict_keys_set_new by assumption. rewrite app_nil_r.
      repeat split; try reflexivity.
      * intros m [].
      * intros k [<- | []]. assumption.
  - cbn beta zeta. destruct (String.eqb (utype u) "module").
    + destruct (name u) as [n |] eqn:Hname; [| discriminate].
      destruct (in_list (lower n) (modules_in_src st)) eqn:Hin;
        [discriminate |].
      intros [= <-]. cbn [programs src_to_obj modules_in_src all_objs].
      rewrite app_nil_r. repeat split; try reflexivity.
      * intros m [<- | []]. now apply in_list_false.
      * intros k [].
    + intros [= <-]. rewrite !app_nil_r.
      repeat split; try reflexivity; intros k [].
Qed.

Lemma list_unit_raises (this_obj : string) (st : listing) (u : unit_)
    (e : exn) :
  list_unit this_obj st u = Raises e ->
  (e = AssertionError DuplicateProgram /\
   exists n, In n (unit_programs u) /\ In n (dict_keys (programs st))) \/
  (e = AssertionError DuplicateModule /\
   exists m, In m (unit_modules u) /\ In m (modules_in_src st)) \/
  (e = AttributeError /\ nameless_module u = true).
Proof.
  rewrite list_unit_step. unfold unit_modules, unit_programs, nameless_module.
  destruct (String.eqb (utype u) "program") eqn:Hprog.
  - destruct (dict_mem (programs st) (name u)) eqn:Hmem.
    + intros [= <-]. left. split; [reflexivity |].
      exists (name u). split; [now left | now apply dict_mem_keys].
    + cbn beta zeta. destruct (String.eqb (utype u) "module");
        [| discriminate].
      destruct (name u) as [n |] eqn:Hname.
      * cbn [programs src_to_obj modules_in_src all_objs].
        destruct (in_list (lower n) (modules_in_src st)) eqn:Hin;
          [| discriminate].
        intros [= <-]. right. left. split; [reflexivity |].
        exists (lower n). split; [now left | now apply in_list_In].
      * intros [= <-]. right. right. split; [reflexivity |].
        now rewrite bool_decide_eq_true_2.
  - cbn beta zeta. destruct (String.eqb (utype u) "module");
      [| discriminate].
    destruct (name u) as [n |] eqn:Hname.
    + destruct (in_list (lower n) (modules_in_src st)) eqn:Hin;
        [| discriminate].
      intros [= <-]. right. left. split; [reflexivity |].
      exists (lower n). split; [now left | now apply in_list_In].
    + intros [= <-]. right. right. split; [reflexivity |].
      now rewrite bool_decide_eq_true_2.
Qed.

Lemma unit_modules_NoDup (u : unit_) : List.NoDup (unit_modules u).
Proof.
  unfold unit_modules. destruct (String.eqb (utype u) "module");
    [destruct (name u) |]; repeat constructor; intros [].
Qed.

Lemma unit_programs_NoDup (u : unit_) : List.NoDup (unit_programs u).
Proof.
  unfold unit_programs. destruct (String.eqb (utype u) "program");
    repeat constructor; intros [].
Qed.

Lemma NoDup_extend {A : Type} (l new : list A) :
  List.NoDup l -> List.NoDup new -> (forall x, In x new -> ~ In x l) ->
  List.NoDup (l ++ new).
Proof.
  intros Hl Hnew Hfresh. apply List.NoDup_app; try assumption.
  intros x Hx Hx'. now apply (Hfresh x).
Qed.

Lemma not_NoDup_shared {A : Type} (l1 l2 l3 : list A) (x : A) :
  In x l1 -> In x l2 -> ~ List.NoDup (l1 ++ l2 ++ l3).
Proof.
  intros H1 H2 Hnd. apply in_split in H1. destruct H1 as (a & b & ->).
  rewrite <- app_assoc in Hnd. cbn [app] in Hnd.
  apply List.NoDup_remove_2 in Hnd. apply Hnd.
  apply in_or_app. right. apply in_or_app. right.
  apply in_or_app. now left.
Qed.

Lemma list_units_returns (this_obj : string) (us : list unit_) :
  forall st st',
    for_each (list_unit this_obj) us st = Returns st' ->
    modules_in_src st' = modules_in_src st ++ flat_map unit_modules us /\
    dict_keys (programs st') =
      dict_keys (programs st) ++ flat_map unit_programs us /\
    all_objs st' = all_objs st /\
    src_to_obj st' = src_to_obj st /\
    (List.NoDup (modules_in_src st) -> List.NoDup (modules_in_src st')) /\
    (List.NoDup (dict_keys (programs st)) ->
     List.NoDup (dict_keys (programs st'))).
Proof.
  induction us as [|u us IH]; intros st st' H.
  - injection H as <-. rewrite !app_nil_r. tauto.
  - rewrite for_each_cons in H. apply bind_returns in H.
    destruct H as (st1 & Hu & Hrest).
    apply list_unit_returns in Hu.
    destruct Hu as (Hm & Hp & Ho & Hs & Hfm & Hfp).
    apply IH in Hrest. destruct Hrest as (Hm' & Hp' & Ho' & Hs' & Hnm & Hnp).
    cbn [flat_map]. rewrite Hm', Hp', Ho', Hs', Hm, Hp, Ho, Hs, <- !app_assoc.
    repeat split; try reflexivity.
    + intros Hnd. rewrite app_assoc, <- Hm, <- Hm'. apply Hnm. rewrite Hm.
      apply NoDup_extend; [assumption | apply unit_modules_NoDup | exact Hfm].
    + intros Hnd. rewrite app_assoc, <- Hp, <- Hp'. apply Hnp. rewrite Hp.
      apply NoDup_extend;
        [assumption | apply unit_programs_NoDup | exact Hfp].
Qed.

Lemma list_units_raises (this_obj : string) (us : list unit_) :
  forall st e,
    for_each (list_unit this_obj) us st = Raises e ->
    (e = AssertionError DuplicateProgram /\
     ~ List.NoDup (dict_keys (programs st) ++ flat_map unit_programs us)) \/
    (e = AssertionError DuplicateModule /\
     ~ List.NoDup (modules_in_src st ++ flat_map unit_modules us)) \/
    (e = AttributeError /\ existsb nameless_module us = true).
Proof.
  induction us as [|u us IH]; intros st e H; [discriminate |].
  rewrite for_each_cons in H. cbn [flat_map existsb].
  apply bind_raises in H. destruct H as [H | (st1 & Hu & Hrest)].
  - apply list_unit_raises in H.
    destruct H as [(-> & n & Hn & Hk) | [(-> & m & Hm & Hk) | (-> & Hn)]].
    + left. split; [reflexivity |]. now apply not_NoDup_shared with n.
    + right. left. split; [reflexivity |].
      now apply not_NoDup_shared with m.
    + right. right. split; [reflexivity |]. now rewrite Hn.
  - apply list_unit_returns in Hu.
    destruct Hu as (Hm & Hp & _). apply IH in Hrest.
    rewrite Hm, Hp, <- !app_assoc in Hrest.
    destruct Hrest as [(-> & Hnd) | [(-> & Hnd) | (-> & Hn)]].
    + now left.
    + right. now left.
    + right. right. split; [reflexivity |]. rewrite Hn. apply orb_true_r.
Qed.

Lemma list_source_step (st : listing) (src : source) :
  list_source st src =
  if in_list (object_name (path src)) (all_objs st) then Raises TypeError
  else for_each (list_unit (object_name (path src))) (units src)
         (Listing (programs st)
            (dict_set (src_to_obj st) (path src) (object_name (path src)))
            (modules_in_src st)
            (all_objs st ++ [object_name (path src)])).
Proof.
  unfold list_source.
  cbn [programs src_to_obj modules_in_src all_objs].
  now destruct (in_list (object_name (path src)) (all_objs st)).
Qed.

Lemma list_sources_returns (srcs : list source) :
  forall st st',
    for_each list_source srcs st = Returns st' ->
    modules_in_src st' = modules_in_src st ++ module_names srcs /\
    dict_keys (programs st') = dict_keys (programs st) ++ program_names srcs /\
    all_objs st' = all_objs st ++ object_names srcs /\
    (List.NoDup (modules_in_src st) -> List.NoDup (modules_in_src st')) /\
    (forall k v, dict_get (src_to_obj st) k = Some v ->
                 dict_get (src_to_obj st') k = Some v
                 \/ In k (map path srcs)) /\
    (forall s, In s srcs ->
               dict_get (src_to_obj st') (path s)
               = Some (object_name (path s))).
Proof.
  induction srcs as [|s srcs IH]; intros st st' H.
  - injection H as <-. rewrite !app_nil_r.
    repeat split; try tauto. intros s [].
  - rewrite for_each_cons in H. apply bind_returns in H.
    destruct H as (st1 & Hs & Hrest). rewrite list_source_step in Hs.
    destruct (in_list (object_name (path s)) (all_objs st)) eqn:Hobj;
      [discriminate |].
    apply list_units_returns in Hs.
    cbn [programs src_to_obj modules_in_src all_objs] in Hs.
    destruct Hs as (Hm & Hp & Ho & Hd & Hnm & _).
    apply IH in Hrest.
    destruct Hrest as (Hm' & Hp' & Ho' & Hnm' & Hkeep & Hget).
    assert (Em : module_names (s :: srcs)
                 = flat_map unit_modules (units s) ++ module_names srcs)
      by reflexivity.
    assert (Ep : program_names (s :: srcs)
                 = flat_map unit_programs (units s) ++ program_names srcs)
      by reflexivity.
    assert (Eo : object_names (s :: srcs)
                 = [object_name (path s)] ++ object_names srcs)
      by reflexivity.
    assert (Hnd : List.NoDup (modules_in_src st) ->
                  List.NoDup (modules_in_src st')) by tauto.
    rewrite Em, Ep, Eo, Hm', Hp', Ho', Hm, Hp, Ho, <- !app_assoc.
    rewrite Hm', Hm, <- app_assoc in Hnd.
    repeat split; try reflexivity.
    + exact Hnd.
    + intros k v Hk. destruct (decide (path s = k)) as [E | E].
      * right. now left.
      * destruct (Hkeep k v) as [Hk' | Hk'].
        -- rewrite Hd, dict_get_set. now destruct (decide (path s = k)).
        -- now left.
        -- right. now right.
    + intros s0 [<- | Hs0]; [| now apply Hget].
      destruct (Hkeep (path s) (object_name (path s))) as [Hk | Hk].
      * rewrite Hd, dict_get_set. now destruct (decide (path s = path s)).
      * assumption.
      * apply in_map_iff in Hk. destruct Hk as (s1 & E & Hs1).
        rewrite <- E. now apply Hget.
Qed.

Lemma not_NoDup_prefix {A : Type} (l1 l2 l3 : list A) :
  ~ List.NoDup (l1 ++ l2) -> ~ List.NoDup (l1 ++ l2 ++ l3).
Proof.
  intros H Hnd. apply H. rewrite app_assoc in Hnd.
  now apply List.NoDup_app_remove_r in Hnd.
Qed.

Lemma existsb_not_forallb {A : Type} (f : A -> bool) (l : list A) :
  existsb f l = true -> forallb (fun x => negb (f x)) l = false.
Proof.
  induction l as [|x l IH]; [discriminate |]. cbn [existsb forallb].
  destruct (f x); [reflexivity |]. exact IH.
Qed.

Lemma list_sources_raises (srcs : list source) :
  forall st e,
    for_each list_source srcs st = Raises e ->
    (e = TypeError /\ ~ List.NoDup (all_objs st ++ object_names srcs)) \/
    (e = AssertionError DuplicateProgram /\
     ~ List.NoDup (dict_keys (programs st) ++ program_names srcs)) \/
    (e = AssertionError DuplicateModule /\
     ~ List.NoDup (modules_in_src st ++ module_names srcs)) \/
    (e = AttributeError /\ modules_named srcs = false).
Proof.
  induction srcs as [|s srcs IH]; intros st e H; [discriminate |].
  assert (Em : module_names (s :: srcs)
               = flat_map unit_modules (units s) ++ module_names srcs)
    by reflexivity.
  assert (Ep : program_names (s :: srcs)
               = flat_map unit_programs (units s) ++ program_names srcs)
    by reflexivity.
  assert (Eo : object_names (s :: srcs)
               = [object_name (path s)] ++ object_names srcs)
    by reflexivity.
  assert (En : modules_named (s :: srcs)
               = forallb (fun u => negb (nameless_module u)) (units s)
                 && modules_named srcs)
    by reflexivity.
  rewrite Em, Ep, Eo, En. clear Em Ep Eo En.
  rewrite for_each_cons in H. apply bind_raises in H.
  rewrite list_source_step in H.
  destruct (in_list (object_name (path s)) (all_objs st)) eqn:Hobj.
  - destruct H as [[= <-] | (st1 & [=] & _)].
    left. split; [reflexivity |]. apply in_list_In in Hobj.
    apply not_NoDup_shared with (object_name (path s));
      [assumption | now left].
  - destruct H as [H | (st1 & Hs & Hrest)].
    + apply list_units_raises in H.
      cbn [programs src_to_obj modules_in_src all_objs] in H.
      destruct H as [(-> & Hnd) | [(-> & Hnd) | (-> & Hn)]].
      * right. left. split; [reflexivity | now apply not_NoDup_prefix].
      * right. right. left.
        split; [reflexivity | now apply not_NoDup_prefix].
      * right. right. right. split; [reflexivity |].
        now rewrite existsb_not_forallb.
    + apply list_units_returns in Hs.
      cbn [programs src_to_obj modules_in_src all_objs] in Hs.
      destruct Hs as (Hm & Hp & Ho & _).
      apply IH in Hrest. rewrite Hm, Hp, Ho, <- !app_assoc in Hrest.
      destruct Hrest as [(-> & Hnd) | [(-> & Hnd) | [(-> & Hnd) | (-> & Hn)]]].
      * now left.
      * right. now left.
      * right. right. now left.
      * right. right. right. split; [reflexivity |].
        rewrite Hn. apply andb_false_r.
Qed.

(** A first pass that returns has met no module name twice, and has put
    each source file in [src_to_obj] with its object file. *)
Lemma first_pass_returns (p : project) (l : listing) :
  first_pass p = Returns l ->
  List.NoDup (module_names (sources p)) /\
  modules_in_src l = module_names (sources p) /\
  (forall s, In s (sources p) ->
             dict_get (src_to_obj l) (path s) = Some (object_name (path s))).
Proof.
  intros H. apply list_sources_returns in H.
  destruct H as (Hm & _ & _ & Hnd & _ & Hget).
  cbn [no_listing modules_in_src app] in Hm, Hnd.
  repeat split; [| assumption | assumption].
  rewrite <- Hm. apply Hnd. constructor.
Qed.

(** What stops the first pass. *)
Lemma first_pass_raises (p : project) (e : exn) :
  first_pass p = Raises e ->
  (e = TypeError /\ ~ List.NoDup (object_names (sources p))) \/
  (e = AssertionError DuplicateProgram /\
   ~ List.NoDup (program_names (sources p))) \/
  (e = AssertionError DuplicateModule /\
   ~ List.NoDup (module_names (sources p))) \/
  (e = AttributeError /\ modules_named (sources p) = false).
Proof. intros H. now apply list_sources_raises in H. Qed.


End FirstPass.

(** ** makemake: second pass *)

Section SecondPass.

Import MakeMake.

Variable externals : list string.
Variable modules_in_src : list string.

Lemma keeps_refl (X : list string) (st : usage) : keeps X st st.
Proof. intros k v H _. exact H. Qed.

Lemma keeps_trans (X Y : list string) (st1 st2 st3 : usage) :
  keeps X st1 st2 -> keeps Y st2 st3 -> keeps (X ++ Y) st1 st3.
Proof.
  intros H12 H23 k v H Hk. apply H23.
  - apply H12; [exact H |]. intros Hin. apply Hk, in_or_app. now left.
  - intros Hin. apply Hk, in_or_app. now right.
Qed.

Lemma keeps_same (X : list string) (st st' : usage) :
  object_file_for st' = object_file_for st -> keeps X st st'.
Proof. intros E k v H _. now rewrite E. Qed.

(** An assignment under a key that was not defined keeps every entry. *)
Lemma keeps_new (st : usage) (k obj : string) :
  defined st k = false -> keeps [] st (set_object_file_for st k obj).
Proof.
  intros Hk k0 v H _. cbn [set_object_file_for object_file_for].
  rewrite lookup_insert_ne; [exact H |].
  intros ->. unfold defined in Hk. apply bool_decide_eq_false in Hk.
  apply Hk. now exists v.
Qed.

Lemma use_callees_same (cs : list string) (st : usage) :
  object_file_for (fold_left (use_callee externals) cs st)
  = object_file_for st.
Proof.
  revert st. induction cs as [|callee cs IH]; intros st; [reflexivity |].
  cbn [fold_left]. rewrite IH. unfold use_callee.
  now destruct (in_list callee externals).
Qed.

Lemma use_modules_same (ms : list string) (st : usage) :
  object_file_for (fold_left (use_module modules_in_src) ms st)
  = object_file_for st.
Proof.
  revert st. induction ms as [|m ms IH]; intros st; [reflexivity |].
  cbn [fold_left]. rewrite IH. unfold use_module.
  now destruct (in_list (lower m) modules_in_src).
Qed.

Lemma use_subprogram_keeps (this_obj : string) (st st' : usage)
    (sub : unit_) :
  use_subprogram externals this_obj st sub = Returns st' -> keeps [] st st'.
Proof.
  unfold use_subprogram.
  set (st1 := fold_left (use_callee externals) (callees sub) st).
  assert (H1 : keeps [] st st1) by apply keeps_same, use_callees_same.
  destruct (name_in (name sub) externals).
  - destruct (c st1) as [c0 |]; [| discriminate].
    destruct (defined st1 c0) eqn:Hc; [discriminate |].
    intros [= <-]. apply (keeps_trans [] [] _ st1); [exact H1 |].
    now apply keeps_new.
  - now intros [= <-].
Qed.

Lemma use_subprograms_keeps (this_obj : string) (subs : list unit_) :
  forall st st',
    for_each (use_subprogram externals this_obj) subs st = Returns st' ->
    keeps [] st st'.
Proof.
  induction subs as [|sub subs IH]; intros st st' H.
  - injection H as <-. apply keeps_refl.
  - rewrite for_each_cons in H. apply bind_returns in H.
    destruct H as (st1 & H1 & H2).
    apply (keeps_trans [] [] _ st1);
      [now apply use_subprogram_keeps in H1 | now apply IH].
Qed.

(** A unit keeps the entries that are not under the name of a module it
    defines, and puts its modules under [this_obj]. *)
Lemma use_unit_keeps (this_obj : string) (st st' : usage) (u : unit_) :
  use_unit externals modules_in_src this_obj st u = Returns st' ->
  keeps (unit_modules u) st st' /\
  (forall m, In m (unit_modules u) ->
             object_file_for st' !! m = Some this_obj).
Proof.
  unfold use_unit. intros H.
  apply bind_returns in H. destruct H as (st1 & H1 & H).
  apply bind_returns in H. destruct H as (st2 & H2 & H3).
  apply use_subprograms_keeps in H2.
  assert (H23 : keeps [] (fold_left (use_module modules_in_src)
                            (used_modules u) st1) st').
  { apply (keeps_trans [] [] _ st2); [exact H2 |].
    destruct (name u) as [n |]; [| injection H3 as <-; apply keeps_refl].
    destruct (in_list n externals);
      [| injection H3 as <-; apply keeps_refl].
    destruct (defined st2 n) eqn:Hn; [discriminate |].
    injection H3 as <-. now apply keeps_new. }
  assert (H13 : keeps [] st1 st').
  { apply (keeps_trans [] [] _ (fold_left (use_module modules_in_src)
                                  (used_modules u) st1));
      [apply keeps_same, use_modules_same | exact H23]. }
  clear H2 H3 H23. unfold unit_modules.
  destruct (String.eqb (utype u) "module").
  - destruct (name u) as [n |]; [| discriminate].
    destruct (in_list (lower n) (modules_provided st)); [discriminate |].
    injection H1 as <-. split.
    + intros k v Hk Hne. apply H13; [| intros []].
      cbn [set_object_file_for object_file_for add_modules_provided].
      rewrite lookup_insert_ne; [exact Hk |].
      intros <-. apply Hne. now left.
    + intros m [<- | []]. apply H13; [| intros []].
      cbn [set_object_file_for object_file_for]. apply lookup_insert_eq.
  - injection H1 as <-. split; [| intros m []].
    intros k v Hk _. apply H13; [exact Hk | intros []].
Qed.

Lemma use_units_keeps (this_obj : string) (us : list unit_) :
  forall st st',
    for_each (use_unit externals modules_in_src this_obj) us st
    = Returns st' ->
    keeps (flat_map unit_modules us) st st' /\
    (List.NoDup (flat_map unit_modules us) ->
     forall m, In m (flat_map unit_modules us) ->
               object_file_for st' !! m = Some this_obj).
Proof.
  induction us as [|u us IH]; intros st st' H.
  - injection H as <-. split; [apply keeps_refl | intros _ m []].
  - rewrite for_each_cons in H. apply bind_returns in H.
    destruct H as (st1 & H1 & H2).
    apply use_unit_keeps in H1. destruct H1 as (K1 & M1).
    apply IH in H2. destruct H2 as (K2 & M2).
    cbn [flat_map]. split; [now apply keeps_trans with st1 |].
    intros Hnd m Hm. apply in_app_or in Hm. destruct Hm as [Hm | Hm].
    + apply K2; [now apply M1 |].
      intros Hm'. revert Hnd.
      rewrite <- (app_nil_r (_ ++ _)), <- app_assoc.
      now apply not_NoDup_shared with m.
    + apply M2; [| assumption]. now apply List.NoDup_app_remove_l in Hnd.
Qed.

End SecondPass.

Section Registration.

Import MakeMake.

Variable externals : list string.
Variable l : listing.

Lemma use_source_keeps (st st' : usage) (s : source) :
  use_source externals l st s = Returns st' ->
  keeps (source_modules s) st st' /\
  (List.NoDup (source_modules s) ->
   forall obj, dict_get (src_to_obj l) (path s) = Some obj ->
   forall m, In m (source_modules s) ->
             object_file_for st' !! m = Some obj).
Proof.
  unfold use_source. intros H.
  apply bind_returns in H. destruct H as (this_obj & Hobj & H).
  apply bind_returns in H. destruct H as (st1 & Hus & H).
  injection H as <-. apply use_units_keeps in Hus.
  destruct Hus as (K & M). split.
  - intros k v Hk Hne. now apply K.
  - intros Hnd obj Hget m Hm. rewrite Hget in Hobj.
    injection Hobj as ->. now apply M.
Qed.

Lemma use_sources_keeps (srcs : list source) :
  forall st st',
    for_each (use_source externals l) srcs st = Returns st' ->
    (forall s, In s srcs ->
               dict_get (src_to_obj l) (path s)
               = Some (object_name (path s))) ->
    keeps (module_names srcs) st st' /\
    (List.NoDup (module_names srcs) ->
     forall s m, In s srcs -> In m (source_modules s) ->
                 object_file_for st' !! m = Some (object_name (path s))).
Proof.
  induction srcs as [|s srcs IH]; intros st st' H Hget.
  - injection H as <-. split; [apply keeps_refl | intros _ s m []].
  - rewrite for_each_cons in H. apply bind_returns in H.
    destruct H as (st1 & H1 & H2).
    apply use_source_keeps in H1. destruct H1 as (K1 & M1).
    apply IH in H2; [| intros s0 Hs0; apply Hget; now right].
    destruct H2 as (K2 & M2).
    change (module_names (s :: srcs))
      with (source_modules s ++ module_names srcs).
    split; [now apply keeps_trans with st1 |].
    intros Hnd s0 m [<- | Hs0] Hm.
    + apply K2.
      * apply M1; [now apply List.NoDup_app_remove_r in Hnd | | assumption].
        apply Hget. now left.
      * intros Hm'. revert Hnd.
        rewrite <- (app_nil_r (_ ++ _)), <- app_assoc.
        now apply not_NoDup_shared with m.
    + apply M2; [now apply List.NoDup_app_remove_l in Hnd | assumption ..].
Qed.

End Registration.

(** When the two passes return, each module is under its case-folded name
    in [object_file_for], with the object file of the source file that
    defines it. *)
Lemma modules_registered (p : MakeMake.project) (l : MakeMake.listing)
    (st : MakeMake.usage) (s : MakeMake.source) (u : MakeMake.unit_)
    (n : string) :
  MakeMake.first_pass p = Returns l ->
  MakeMake.second_pass p l = Returns st ->
  In s (MakeMake.sources p) -> In u (MakeMake.units s) ->
  MakeMake.utype u = "module" -> MakeMake.name u = Some n ->
  MakeMake.object_file_for st !! MakeMake.lower n
  = Some (MakeMake.object_name (MakeMake.path s)).
Proof.
  intros H1 H2 Hs Hu Ht Hn.
  apply first_pass_returns in H1. destruct H1 as (Hnd & _ & Hget).
  apply use_sources_keeps in H2; [| exact Hget].
  destruct H2 as (_ & M). apply (M Hnd s); [exact Hs |].
  unfold MakeMake.source_modules. apply in_flat_map.
  exists u. split; [exact Hu |]. unfold MakeMake.unit_modules.
  rewrite Ht, Hn. now left.
Qed.

(** ** Claims about the definition and usage passes *)




(** The part of C1 that holds: a unit outside any module whose name is an
    external symbol becomes the provider of that name. *)
Lemma use_unit_provider (externals modules_in_src : list string)
    (this_obj : string) (st st' : MakeMake.usage) (u : MakeMake.unit_)
    (n : string) :
  MakeMake.name u = Some n -> in_list n externals = true ->
  MakeMake.use_unit externals modules_in_src this_obj st u = Returns st' ->
  MakeMake.object_file_for st' !! n = Some this_obj.
Proof.
  intros Hn He H. unfold MakeMake.use_unit in H.
  apply bind_returns in H. destruct H as (st1 & _ & H).
  apply bind_returns in H. destruct H as (st2 & _ & H).
  rewrite Hn, He in H.
  destruct (MakeMake.defined st2 n); [discriminate |].
  injection H as <-.
  cbn [MakeMake.set_object_file_for MakeMake.object_file_for].
  apply lookup_insert_eq.
Qed.

Lemma use_callees_last (externals cs : list string)
    (st : MakeMake.usage) (last_callee : string) :
  last cs = Some last_callee ->
  MakeMake.c (fold_left (MakeMake.use_callee externals) cs st)
  = Some last_callee.
Proof.
  revert st. induction cs as [|callee cs IH]; intros st H; [discriminate |].
  cbn [fold_left]. destruct cs as [|callee' cs].
  - injection H as <-. cbn [fold_left]. unfold MakeMake.use_callee.
    now destruct (in_list callee externals).
  - apply IH. exact H.
Qed.

(** What the subprogram branch does in general: the entry goes under the
    last callee of the subprogram, and the name of the subprogram, when it
    is another name, is left as it was. *)
Lemma use_subprogram_registers_callee (externals : list string)
    (this_obj : string) (st st' : MakeMake.usage) (sub : MakeMake.unit_)
    (n last_callee : string) :
  MakeMake.name sub = Some n -> in_list n externals = true ->
  last (MakeMake.callees sub) = Some last_callee ->
  MakeMake.use_subprogram externals this_obj st sub = Returns st' ->
  MakeMake.object_file_for st' !! last_callee = Some this_obj /\
  (n <> last_callee ->
   MakeMake.object_file_for st' !! n = MakeMake.object_file_for st !! n).
Proof.
  intros Hn He Hlast H. unfold MakeMake.use_subprogram in H.
  rewrite Hn in H. cbn [MakeMake.name_in] in H. rewrite He in H.
  rewrite (use_callees_last externals _ st last_callee Hlast) in H.
  destruct (MakeMake.defined _ last_callee); [discriminate |].
  injection H as <-.
  cbn [MakeMake.set_object_file_for MakeMake.object_file_for].
  split; [apply lookup_insert_eq |].
  intros Hne. rewrite lookup_insert_ne by congruence.
  now rewrite use_callees_same.
Qed.

(** C1: for a subprogram whose name is an external symbol, the provider is
    recorded under [c], the last callee met, and not under the name of the
    subprogram; when no callee was met yet, [c] is unbound.  Below, [ext] is
    contained in module [m] and calls [helper]. *)
Theorem external_subprogram_provider :
  (let p :=
     MakeMake.Project
       [MakeMake.Source "src/m.f90"
          [MakeMake.Unit (Some "m") "module" [] []
             [MakeMake.Unit (Some "ext") "subroutine" [] ["helper"] []]]]
       ["ext"] in
   (l ← MakeMake.first_pass p;
    st ← MakeMake.second_pass p l;
    Returns (MakeMake.object_file_for st !! "ext",
             MakeMake.object_file_for st !! "helper"))
   = Returns (None, Some "m.o")) /\
  (let p :=
     MakeMake.Project
       [MakeMake.Source "src/m.f90"
          [MakeMake.Unit (Some "m") "module" [] []
             [MakeMake.Unit (Some "ext") "subroutine" [] [] []]]]
       ["ext"] in
   (l ← MakeMake.first_pass p; MakeMake.second_pass p l)
   = Raises UnboundLocalError).
Proof. split; vm_compute; reflexivity. Qed.

(** ** The branches of [parse_declaration_construct] *)

Section Construct.

Import Builder.

Variable intrinsic_types : list string.
Variable is_docstring : list string -> bool.
Variable docstrip : list string -> string.
Variable interface_parse :
  list token -> list (list token) -> outcome (list statement * nat).
Variable unit_parse :
  list token -> list (list token) -> outcome (list statement * nat).

(** The last branch is taken when the first token is none of those that
    the branches before it test; no line is taken from [lines]. *)
Lemma construct_declaration (lines : list (list token)) (tok : token)
    (rest : list token) (st : builder) :
  in_list (text tok) DeclarationSpec.other_constructs = false ->
  parse_declaration_construct intrinsic_types is_docstring docstrip
    interface_parse unit_parse lines (tok :: rest) st
  = (st ← parse_declaration intrinsic_types is_docstring docstrip
            (tok :: rest) st;
     Returns (st, 0)).
Proof.
  unfold DeclarationSpec.other_constructs, in_list. cbn [existsb]. intros H.
  repeat (apply orb_false_elim in H;
          let K := fresh "K" in destruct H as (K & H)).
  unfold parse_declaration_construct, is_abstract_interface, is_, in_list,
    access_specs.
  cbn [existsb]. rewrite K, K0, K1, K2, K3, K4, K5, andb_false_r.
  reflexivity.
Qed.


End Construct.

(** ** Claims about namelists *)

Section Namelist.

Import Builder DeclarationSpec.

Lemma members_dangling
    (k : option token -> list token -> builder -> outcome builder)
    (nml_group : string) (others : list token) :
  forall (name : token) (st : builder),
    member_name name = true ->
    forallb member_name others = true ->
    members k nml_group
      (flat_map (fun n => [word ","; n]) others ++ [word ","])
      (Some name) st
    = Raises StopIteration.
Proof.
  induction others as [|n others IH]; intros name st Hname Hothers.
  - unfold member_name in Hname. cbn [flat_map app members truthy_token].
    rewrite Hname. reflexivity.
  - cbn [forallb] in Hothers. apply andb_prop in Hothers.
    destruct Hothers as (Hn & Hothers).
    unfold member_name in Hname.
    cbn [flat_map app members truthy_token]. rewrite Hname.
    cbn [is_ word text String.eqb Ascii.eqb Bool.eqb orb assert_ mbind
         outcome_bind].
    now apply IH.
Qed.

Lemma parse_namelist_dangling (group name : token) (others : list token)
    (st : builder) :
  member_name name = true ->
  forallb member_name others = true ->
  parse_namelist (dangling_namelist group name others) st
  = Raises StopIteration.
Proof.
  intros Hname Hothers. unfold parse_namelist, dangling_namelist.
  cbn [is_ word text String.eqb Ascii.eqb Bool.eqb assert_ mbind
       outcome_bind groups truthy_token negb].
  now rewrite members_dangling.
Qed.

Lemma construct_namelist (intrinsic_types : list string)
    (is_docstring : list string -> bool) (docstrip : list string -> string)
    (interface_parse unit_parse :
       list token -> list (list token) -> outcome (list statement * nat))
    (lines : list (list token)) (rest : list token) (st : builder) :
  in_list "namelist" intrinsic_types = false ->
  parse_declaration_construct intrinsic_types is_docstring docstrip
    interface_parse unit_parse lines (word "namelist" :: rest) st
  = (st ← parse_namelist (word "namelist" :: rest) st; Returns (st, 0)).
Proof.
  intros Hty. rewrite construct_declaration by reflexivity.
  unfold parse_declaration. cbn [word head text]. rewrite Hty.
  cbn [opens_group existsb]. rewrite andb_false_r. reflexivity.
Qed.

End Namelist.

(** C2: a namelist statement whose member list ends with a comma raises
    [StopIteration] out of [parse_namelist] and of
    [parse_declaration_construct]: no diagnostic is recorded and no statement
    is appended, where the claim has a diagnostic and an unhandled marker. *)
Theorem namelist_dangling_comma_raises
    (intrinsic_types : list string) (is_docstring : list string -> bool)
    (docstrip : list string -> string)
    (interface_parse unit_parse :
       list Builder.token -> list (list Builder.token) ->
       outcome (list Builder.statement * nat))
    (lines : list (list Builder.token))
    (group name : Builder.token) (others : list Builder.token)
    (st : Builder.builder) :
  in_list "namelist" intrinsic_types = false ->
  DeclarationSpec.member_name name = true ->
  forallb DeclarationSpec.member_name others = true ->
  Builder.parse_namelist
    (DeclarationSpec.dangling_namelist group name others) st
  = Raises StopIteration /\
  Builder.parse_declaration_construct intrinsic_types is_docstring docstrip
    interface_parse unit_parse lines
    (DeclarationSpec.dangling_namelist group name others) st
  = Raises StopIteration.
Proof.
  intros Hty Hname Hothers.
  pose proof (parse_namelist_dangling group name others st Hname Hothers)
    as Hraises.
  split; [exact Hraises |].
  unfold DeclarationSpec.dangling_namelist in *.
  rewrite construct_namelist by exact Hty. now rewrite Hraises.
Qed.

Lemma namelist_dangling_comma_raises_witness :
  in_list "namelist" Legacy.intrinsic_types = false /\
  DeclarationSpec.member_name (Builder.word "a") = true /\
  forallb DeclarationSpec.member_name [] = true /\
  Builder.parse_declaration_construct Legacy.intrinsic_types
    (fun doc => negb (bool_decide (doc = []))) (String.concat " ")
    (fun _ _ => Returns ([], 0)) (fun _ _ => Returns ([], 0)) []
    (map Builder.word ["namelist"; "/"; "grp"; "/"; "a"; ","])
    Builder.new_unit
  = Raises StopIteration.
Proof.
  split; [reflexivity |]. split; [reflexivity |]. split; [reflexivity |].
  exact (proj2 (namelist_dangling_comma_raises Legacy.intrinsic_types
                  (fun doc => negb (bool_decide (doc = [])))
                  (String.concat " ")
                  (fun _ _ => Returns ([], 0)) (fun _ _ => Returns ([], 0)) []
                  (Builder.word "grp") (Builder.word "a") [] Builder.new_unit
                  eq_refl eq_refl eq_refl)).
Defined.

(** The entity list of a declaration takes the same slip otherwise: for
    [integer :: a ,] the end of the tokens is caught and reported, and the
    statement is recorded. *)
Lemma declaration_dangling_comma_reported :
  let line := map Builder.word ["integer"; "::"; "a"; ","] in
  match
    Builder.parse_declaration_construct Legacy.intrinsic_types
      (fun doc => negb (bool_decide (doc = []))) (String.concat " ")
      (fun _ _ => Returns ([], 0)) (fun _ _ => Returns ([], 0)) []
      line Builder.new_unit
  with
  | Returns (st, _) =>
      Builder.report st = [Builder.EndComma] /\
      Builder.statements st = [Builder.Statement "D" line]
  | _ => False
  end.
Proof. vm_compute. split; reflexivity. Qed.

(** ** Claims about variable declarations *)

Section Declarations.

Import Builder DeclarationSpec.

Variable intrinsic_types : list string.
Variable is_docstring : list string -> bool.
Variable docstrip : list string -> string.





Lemma set_last_doc_summary (vs : list variable) (d : string) :
  map summary (set_last_doc vs d) = map summary vs.
Proof.
  induction vs as [|v vs IH]; [reflexivity |].
  destruct vs as [|v' vs]; [reflexivity |].
  change (set_last_doc (v :: v' :: vs) d)
    with (v :: set_last_doc (v' :: vs) d).
  cbn [map]. now rewrite IH.
Qed.










End Declarations.






(* ================================================================== *)
(** * Further properties of the code *)
(* ================================================================== *)

(** ** makemake: object file names *)

Section ObjectNames.

Import MakeMake FileNames.

Lemma append_cons (c : ascii) (a b : string) :
  (String c a ++ b)%string = String c (a ++ b)%string.
Proof. reflexivity. Qed.

Lemma append_nil (b : string) : ("" ++ b)%string = b.
Proof. reflexivity. Qed.

Lemma last_component_after_slash (dir file cur : string) :
  last_component (dir ++ String "/" file)%string cur = last_component file "".
Proof.
  revert cur. induction dir as [|c dir IH]; intros cur.
  - reflexivity.
  - rewrite append_cons. cbn [last_component].
    destruct (Ascii.eqb c "/"); apply IH.
Qed.

Lemma string_app_assoc (a b c : string) :
  ((a ++ b) ++ c)%string = (a ++ b ++ c)%string.
Proof.
  induction a as [|x a IH]; [reflexivity |].
  rewrite !append_cons. now rewrite IH.
Qed.

Lemma last_component_plain (base : string) :
  forall rest cur,
    plain_name base = true ->
    last_component (base ++ rest)%string cur
    = last_component rest (cur ++ base)%string.
Proof.
  unfold plain_name.
  induction base as [|c base IH]; intros rest cur H.
  - rewrite append_nil. f_equal. clear.
    induction cur as [|c cur IH]; [reflexivity |].
    rewrite append_cons. now rewrite <- IH.
  - cbn [list_ascii_of_string forallb] in H.
    apply andb_true_iff in H. destruct H as (Hc & H).
    rewrite append_cons. cbn [last_component].
    destruct (Ascii.eqb c "/"); [discriminate |].
    rewrite IH by exact H. f_equal.
    now rewrite string_app_assoc.
Qed.

Lemma replace_from_plain (old new base rest : string) :
  plain_name base = true ->
  replace_from 0 (String "." old) new (base ++ rest)%string
  = (base ++ replace_from 0 (String "." old) new rest)%string.
Proof.
  unfold plain_name. induction base as [|c base IH]; intros H;
    [reflexivity |].
  cbn [list_ascii_of_string forallb] in H.
  apply andb_true_iff in H. destruct H as (Hc & H).
  apply andb_true_iff in Hc. destruct Hc as (_ & Hc).
  rewrite !append_cons. cbn [replace_from String.prefix].
  destruct (Ascii.ascii_dec "." c) as [<- | _]; [discriminate |].
  now rewrite IH.
Qed.

Lemma object_name_plain (base : string) :
  plain_name base = true ->
  object_name (base ++ ".f90")%string = (base ++ ".o")%string /\
  object_name (base ++ ".F90")%string = (base ++ ".o")%string.
Proof.
  intros H. unfold object_name, replace.
  rewrite !(last_component_plain base) by exact H.
  rewrite !append_nil.
  cbn [last_component Ascii.eqb Bool.eqb].
  rewrite !string_app_assoc, !append_cons, !append_nil.
  rewrite !(replace_from_plain _ _ base) by exact H.
  split; reflexivity.
Qed.

End ObjectNames.

(** The object file of a source file does not depend on its directory:
    what precedes the last [/] of the path is dropped. *)
Theorem object_name_ignores_directory (dir file : string) :
  MakeMake.object_name (dir ++ "/" ++ file)%string
  = MakeMake.object_name file.
Proof.
  unfold MakeMake.object_name.
  change ("/" ++ file)%string with (String "/" file).
  now rewrite last_component_after_slash.
Qed.

(** A source file [base.f90] or [base.F90], in whatever directory, has the
    object file [base.o]. *)
Theorem object_name_fortran (dir base : string) :
  FileNames.plain_name base = true ->
  MakeMake.object_name (dir ++ "/" ++ base ++ ".f90")%string
  = (base ++ ".o")%string /\
  MakeMake.object_name (dir ++ "/" ++ base ++ ".F90")%string
  = (base ++ ".o")%string.
Proof.
  intros H. unfold MakeMake.object_name at 1 2.
  change ("/" ++ base ++ ".f90")%string
    with (String "/" (base ++ ".f90")%string).
  change ("/" ++ base ++ ".F90")%string
    with (String "/" (base ++ ".F90")%string).
  rewrite !last_component_after_slash.
  exact (object_name_plain base H).
Qed.

Lemma object_name_fortran_witness :
  FileNames.plain_name "grid" = true /\
  MakeMake.object_name "src/ocean/grid.F90" = "grid.o".
Proof.
  split; [reflexivity |].
  exact (proj2 (object_name_fortran "src/ocean" "grid" eq_refl)).
Defined.

(** ** makemake: what the first pass lists *)

Section Listing.

Import MakeMake Passes.

Lemma dict_set_new {K V : Type} `{EqDecision K} (d : list (K * V)) (k : K)
    (v : V) :
  ~ In k (dict_keys d) -> dict_set d k v = d ++ [(k, v)].
Proof.
  induction d as [|[k' v'] d IH]; intros H; [reflexivity |].
  cbn [dict_set]. cbn [dict_keys map fst In] in H.
  rewrite bool_decide_eq_false_2 by tauto.
  cbn [app]. f_equal. apply IH. unfold dict_keys. tauto.
Qed.

Lemma list_unit_entries (this_obj : string) (st st' : listing) (u : unit_) :
  list_unit this_obj st u = Returns st' ->
  programs st' = programs st ++ map (fun n => (n, this_obj)) (unit_programs u)
  /\ nameless_module u = false.
Proof.
  intros H. rewrite list_unit_step in H.
  unfold unit_programs, nameless_module.
  assert (Hset : dict_mem (programs st) (name u) = false ->
                 dict_set (programs st) (name u) this_obj
                 = programs st ++ [(name u, this_obj)]).
  { intros Hmem. apply dict_set_new. intros Hin.
    apply dict_mem_keys in Hin. congruence. }
  destruct (String.eqb (utype u) "program");
    [destruct (dict_mem (programs st) (name u)); [discriminate |] |];
    cbv zeta in H;
    destruct (String.eqb (utype u) "module");
    try destruct (name u) as [n |]; try discriminate;
    cbn [programs src_to_obj modules_in_src all_objs] in H;
    try destruct (in_list (lower n) (modules_in_src st)); try discriminate;
    injection H as <-; cbn [programs map andb];
    rewrite ?app_nil_r; rewrite ?Hset by reflexivity;
    split; try reflexivity.
Qed.

Lemma list_units_entries (this_obj : string) (us : list unit_) :
  forall st st',
    for_each (list_unit this_obj) us st = Returns st' ->
    programs st' =
      programs st ++ map (fun n => (n, this_obj)) (flat_map unit_programs us)
    /\ forallb (fun u => negb (nameless_module u)) us = true.
Proof.
  induction us as [|u us IH]; intros st st' H.
  - injection H as <-. cbn [flat_map map forallb]. now rewrite app_nil_r.
  - rewrite for_each_cons in H. apply bind_returns in H.
    destruct H as (st1 & Hu & Hrest).
    apply list_unit_entries in Hu. destruct Hu as (Hp & Hn).
    apply IH in Hrest. destruct Hrest as (Hp' & Hn').
    cbn [flat_map forallb]. rewrite Hn, Hn', Hp', Hp, map_app, <- app_assoc.
    now split.
Qed.

Lemma list_sources_entries (srcs : list source) :
  forall st st',
    for_each list_source srcs st = Returns st' ->
    (forall k, In k (dict_keys (src_to_obj st)) ->
               In (object_name k) (all_objs st)) ->
    programs st' = programs st ++ program_entries srcs /\
    src_to_obj st' = src_to_obj st ++ source_entries srcs /\
    modules_named srcs = true /\
    (List.NoDup (all_objs st) -> List.NoDup (all_objs st')) /\
    (List.NoDup (dict_keys (programs st)) ->
     List.NoDup (dict_keys (programs st'))).
Proof.
  induction srcs as [|s srcs IH]; intros st st' H Hinv.
  - injection H as <-. cbn [program_entries source_entries flat_map map].
    rewrite !app_nil_r. tauto.
  - rewrite for_each_cons in H. apply bind_returns in H.
    destruct H as (st1 & Hs & Hrest). rewrite list_source_step in Hs.
    destruct (in_list (object_name (path s)) (all_objs st)) eqn:Hobj;
      [discriminate |].
    pose proof (list_units_entries _ _ _ _ Hs) as (Hp & Hn).
    apply list_units_returns in Hs.
    cbn [programs src_to_obj modules_in_src all_objs] in Hs, Hp.
    destruct Hs as (_ & _ & Ho & Hd & _ & Hnp).
    assert (Hnew : ~ In (path s) (dict_keys (src_to_obj st))).
    { intros Hin. apply Hinv in Hin. apply in_list_In in Hin. congruence. }
    rewrite dict_set_new in Hd by exact Hnew.
    apply IH in Hrest.
    + destruct Hrest as (Hp' & Hd' & Hn' & Hno & Hnp').
      assert (En : modules_named (s :: srcs)
                   = forallb (fun u => negb (nameless_module u)) (units s)
                     && modules_named srcs) by reflexivity.
      split; [| split; [| split; [| split]]].
      * rewrite Hp', Hp, <- app_assoc. reflexivity.
      * rewrite Hd', Hd, <- app_assoc. reflexivity.
      * now rewrite En, Hn, Hn'.
      * intros Hnd. apply Hno. rewrite Ho. apply NoDup_extend.
        -- exact Hnd.
        -- repeat constructor. intros [].
        -- intros x [<- | []]. now apply in_list_false.
      * intros Hnd. apply Hnp'. now apply Hnp.
    + intros k Hk. rewrite Hd in Hk. rewrite Ho.
      unfold dict_keys in Hk. rewrite map_app in Hk.
      apply in_app_or in Hk. apply in_or_app.
      destruct Hk as [Hk | [<- | []]]; [left; now apply Hinv | right; now left].
Qed.

Lemma first_pass_listed (p : project) (l : listing) :
  first_pass p = Returns l ->
  l = listed (sources p) /\
  List.NoDup (object_names (sources p)) /\
  List.NoDup (program_names (sources p)) /\
  List.NoDup (module_names (sources p)) /\
  modules_named (sources p) = true.
Proof.
  intros H. unfold first_pass in H.
  pose proof (list_sources_returns _ _ _ H) as (Hm & Hk & Ho & Hnm & _ & _).
  apply list_sources_entries in H; [| intros k []].
  destruct H as (Hp & Hs & Hn & Hno & Hnp).
  cbn [no_listing programs src_to_obj modules_in_src all_objs app dict_keys
       map] in *.
  split; [| repeat split].
  - destruct l as [pr so ms ao]. unfold listed.
    cbn [programs src_to_obj modules_in_src all_objs] in *. congruence.
  - rewrite <- Ho. apply Hno. constructor.
  - rewrite <- Hk. apply Hnp. constructor.
  - rewrite <- Hm. apply Hnm. constructor.
  - exact Hn.
Qed.

End Listing.

(** The first pass returns exactly for a project without a repeated object
    file name, program name or case-folded module name, and without a
    module that has no name; its four tables are then the programs, source
    files, modules and object files of the project in source order. *)
Theorem first_pass_listing (p : MakeMake.project) (l : MakeMake.listing) :
  MakeMake.first_pass p = Returns l <->
  List.NoDup (MakeMake.object_names (MakeMake.sources p)) /\
  List.NoDup (MakeMake.program_names (MakeMake.sources p)) /\
  List.NoDup (MakeMake.module_names (MakeMake.sources p)) /\
  MakeMake.modules_named (MakeMake.sources p) = true /\
  l = Passes.listed (MakeMake.sources p).
Proof.
  split.
  - intros H. apply first_pass_listed in H. tauto.
  - intros (Ho & Hp & Hm & Hn & ->).
    destruct (MakeMake.first_pass p) as [l | e] eqn:H.
    + apply first_pass_listed in H. now destruct H as (-> & _).
    + apply first_pass_raises in H.
      destruct H as [(_ & H) | [(_ & H) | [(_ & H) | (_ & H)]]];
        [contradiction | contradiction | contradiction | congruence].
Qed.

(** Two source files with the same file name in different directories: the
    first pass stops at the second one with [TypeError], whatever the files
    contain, when it got that far. *)
Theorem same_file_name_rejected
    (before between after : list MakeMake.source) (s1 s2 : MakeMake.source)
    (externals : list string) (dir1 dir2 file : string)
    (l : MakeMake.listing) :
  MakeMake.path s1 = (dir1 ++ "/" ++ file)%string ->
  MakeMake.path s2 = (dir2 ++ "/" ++ file)%string ->
  MakeMake.first_pass (MakeMake.Project (before ++ s1 :: between) externals)
  = Returns l ->
  MakeMake.first_pass
    (MakeMake.Project (before ++ s1 :: between ++ s2 :: after) externals)
  = Raises TypeError.
Proof.
  intros H1 H2 H. unfold MakeMake.first_pass in *.
  cbn [MakeMake.sources] in *.
  change (before ++ s1 :: between ++ s2 :: after)
    with (before ++ (s1 :: between) ++ s2 :: after).
  rewrite app_assoc, for_each_app, H.
  cbn [mbind outcome_bind]. rewrite for_each_cons, list_source_step.
  apply list_sources_returns in H. destruct H as (_ & _ & Ho & _).
  cbn [MakeMake.no_listing MakeMake.all_objs app] in Ho.
  assert (Hin : in_list (MakeMake.object_name (MakeMake.path s2))
                  (MakeMake.all_objs l) = true).
  { apply in_list_In. rewrite Ho. unfold MakeMake.object_names.
    rewrite map_app. apply in_or_app. right. left.
    unfold MakeMake.object_name. rewrite H1, H2.
    change ("/" ++ file)%string with (String "/" file).
    now rewrite !last_component_after_slash. }
  now rewrite Hin.
Qed.

Lemma same_file_name_rejected_witness :
  MakeMake.first_pass
    (MakeMake.Project
       [MakeMake.Source "ocean/grid.f90"
          [MakeMake.Unit (Some "ocean_grid") "module" [] [] []];
        MakeMake.Source "main.f90"
          [MakeMake.Unit (Some "main") "program" [] [] []];
        MakeMake.Source "ice/grid.f90"
          [MakeMake.Unit (Some "ice_grid") "module" [] [] []]]
       [])
  = Raises TypeError.
Proof.
  refine (same_file_name_rejected []
            [MakeMake.Source "main.f90"
               [MakeMake.Unit (Some "main") "program" [] [] []]]
            []
            (MakeMake.Source "ocean/grid.f90"
               [MakeMake.Unit (Some "ocean_grid") "module" [] [] []])
            (MakeMake.Source "ice/grid.f90"
               [MakeMake.Unit (Some "ice_grid") "module" [] [] []])
            [] "ocean" "ice" "grid.f90" _ _ _ _);
    [reflexivity | reflexivity | vm_compute; reflexivity].
Defined.

(** ** makemake: what the second pass records *)

Section Uses.

Import MakeMake Passes.

Variable externals : list string.
Variable modules_in_src : list string.

Lemma use_callees_uses (cs : list string) :
  forall st,
    let st' := fold_left (use_callee externals) cs st in
    uses_externals st' =
      uses_externals st ++ List.filter (fun c => in_list c externals) cs /\
    uses_modules st' = uses_modules st /\
    modules_used_by_object st' = modules_used_by_object st /\
    externals_used_by_object st' = externals_used_by_object st.
Proof.
  induction cs as [|callee cs IH]; intros st; cbn [fold_left List.filter].
  - now rewrite app_nil_r.
  - destruct (IH (use_callee externals st callee)) as (He & Hm & Hmu & Heu).
    cbv zeta. rewrite He, Hm, Hmu, Heu. unfold use_callee.
    destruct (in_list callee externals);
      cbn [set_c add_uses_externals uses_externals uses_modules
           modules_used_by_object externals_used_by_object];
      rewrite <- ?app_assoc; tauto.
Qed.

Lemma use_subprogram_uses (this_obj : string) (st st' : usage)
    (sub : unit_) :
  use_subprogram externals this_obj st sub = Returns st' ->
  uses_externals st' =
    uses_externals st
    ++ List.filter (fun c => in_list c externals) (callees sub) /\
  uses_modules st' = uses_modules st /\
  modules_used_by_object st' = modules_used_by_object st /\
  externals_used_by_object st' = externals_used_by_object st.
Proof.
  unfold use_subprogram. intros H.
  pose proof (use_callees_uses (callees sub) st) as Hc. cbv zeta in Hc.
  destruct (name_in (name sub) externals).
  - destruct (c _) as [c0 |]; [| discriminate].
    destruct (defined _ c0); [discriminate |].
    injection H as <-. exact Hc.
  - injection H as <-. exact Hc.
Qed.

Lemma use_subprograms_uses (this_obj : string) (subs : list unit_) :
  forall st st',
    for_each (use_subprogram externals this_obj) subs st = Returns st' ->
    uses_externals st' =
      uses_externals st
      ++ flat_map
           (fun sub => List.filter (fun c => in_list c externals) (callees sub))
           subs /\
    uses_modules st' = uses_modules st /\
    modules_used_by_object st' = modules_used_by_object st /\
    externals_used_by_object st' = externals_used_by_object st.
Proof.
  induction subs as [|sub subs IH]; intros st st' H.
  - injection H as <-. cbn [flat_map]. now rewrite app_nil_r.
  - rewrite for_each_cons in H. apply bind_returns in H.
    destruct H as (st1 & H1 & H2).
    apply use_subprogram_uses in H1. apply IH in H2.
    destruct H1 as (He & Hm & Hmu & Heu).
    destruct H2 as (He' & Hm' & Hmu' & Heu').
    cbn [flat_map]. rewrite He', Hm', Hmu', Heu', He, Hm, Hmu, Heu.
    now rewrite <- app_assoc.
Qed.

Lemma use_modules_uses (ms : list string) :
  forall st,
    let st' := fold_left (use_module modules_in_src) ms st in
    uses_modules st' =
      uses_modules st
      ++ List.filter (fun m => in_list m modules_in_src) (map lower ms) /\
    uses_externals st' = uses_externals st /\
    modules_used_by_object st' = modules_used_by_object st /\
    externals_used_by_object st' = externals_used_by_object st.
Proof.
  induction ms as [|m ms IH]; intros st; cbn [fold_left List.filter map].
  - now rewrite app_nil_r.
  - destruct (IH (use_module modules_in_src st m)) as (Hm & He & Hmu & Heu).
    cbv zeta. rewrite He, Hm, Hmu, Heu. unfold use_module.
    destruct (in_list (lower m) modules_in_src);
      cbn [add_uses_modules uses_externals uses_modules
           modules_used_by_object externals_used_by_object];
      rewrite <- ?app_assoc; tauto.
Qed.

Lemma use_unit_uses (this_obj : string) (st st' : usage) (u : unit_) :
  use_unit externals modules_in_src this_obj st u = Returns st' ->
  uses_modules st' = uses_modules st ++ unit_uses_modules modules_in_src u /\
  uses_externals st' = uses_externals st ++ unit_uses_externals externals u /\
  modules_used_by_object st' = modules_used_by_object st /\
  externals_used_by_object st' = externals_used_by_object st.
Proof.
  unfold use_unit. intros H.
  apply bind_returns in H. destruct H as (st1 & H1 & H).
  apply bind_returns in H. destruct H as (st2 & H2 & H3).
  assert (E1 : uses_modules st1 = uses_modules st /\
               uses_externals st1 = uses_externals st /\
               modules_used_by_object st1 = modules_used_by_object st /\
               externals_used_by_object st1 = externals_used_by_object st).
  { destruct (String.eqb (utype u) "module").
    - destruct (name u) as [n |]; [| discriminate].
      destruct (in_list (lower n) (modules_provided st)); [discriminate |].
      injection H1 as <-. repeat split.
    - injection H1 as <-. repeat split. }
  assert (E3 : uses_modules st' = uses_modules st2 /\
               uses_externals st' = uses_externals st2 /\
               modules_used_by_object st' = modules_used_by_object st2 /\
               externals_used_by_object st' = externals_used_by_object st2).
  { destruct (name u) as [n |]; [| injection H3 as <-; repeat split].
    destruct (in_list n externals); [| injection H3 as <-; repeat split].
    destruct (defined st2 n); [discriminate |].
    injection H3 as <-. repeat split. }
  apply use_subprograms_uses in H2.
  pose proof (use_modules_uses (used_modules u) st1) as Hm. cbv zeta in Hm.
  destruct E1 as (A1 & A2 & A3 & A4). destruct E3 as (B1 & B2 & B3 & B4).
  destruct H2 as (C2 & C1 & C3 & C4). destruct Hm as (D1 & D2 & D3 & D4).
  unfold unit_uses_modules, unit_uses_externals.
  rewrite B1, B2, B3, B4, C1, C2, C3, C4, D1, D2, D3, D4, A1, A2, A3, A4.
  repeat split.
Qed.

Lemma use_units_uses (this_obj : string) (us : list unit_) :
  forall st st',
    for_each (use_unit externals modules_in_src this_obj) us st
    = Returns st' ->
    uses_modules st' =
      uses_modules st ++ flat_map (unit_uses_modules modules_in_src) us /\
    uses_externals st' =
      uses_externals st ++ flat_map (unit_uses_externals externals) us /\
    modules_used_by_object st' = modules_used_by_object st /\
    externals_used_by_object st' = externals_used_by_object st.
Proof.
  induction us as [|u us IH]; intros st st' H.
  - injection H as <-. cbn [flat_map]. now rewrite !app_nil_r.
  - rewrite for_each_cons in H. apply bind_returns in H.
    destruct H as (st1 & H1 & H2).
    apply use_unit_uses in H1. apply IH in H2.
    destruct H1 as (Hm & He & Hmu & Heu).
    destruct H2 as (Hm' & He' & Hmu' & Heu').
    cbn [flat_map]. rewrite He', Hm', Hmu', Heu', He, Hm, Hmu, Heu.
    now rewrite <- !app_assoc.
Qed.

End Uses.

Section UsesOfSources.

Import MakeMake Passes.

Variable externals : list string.
Variable l : listing.

Lemma use_source_uses (st st' : usage) (s : source) (obj : string) :
  dict_get (src_to_obj l) (path s) = Some obj ->
  use_source externals l st s = Returns st' ->
  modules_used_by_object st' =
    match stored (source_uses_modules (modules_in_src l) s) with
    | Some ms => <[obj := ms]> (modules_used_by_object st)
    | None => modules_used_by_object st
    end /\
  externals_used_by_object st' =
    match stored (source_uses_externals externals s) with
    | Some es => <[obj := es]> (externals_used_by_object st)
    | None => externals_used_by_object st
    end.
Proof.
  unfold use_source. intros Hobj H. rewrite Hobj in H.
  cbn [mbind outcome_bind] in H.
  apply bind_returns in H. destruct H as (st1 & Hus & H).
  injection H as <-. apply use_units_uses in Hus.
  cbn [new_source uses_modules uses_externals modules_used_by_object
       externals_used_by_object app] in Hus.
  destruct Hus as (Hm & He & Hmu & Heu).
  unfold record_uses, source_uses_modules, source_uses_externals.
  cbn [modules_used_by_object externals_used_by_object].
  rewrite Hm, He, Hmu, Heu. split.
  - generalize (flat_map (unit_uses_modules (modules_in_src l)) (units s)).
    intros [|m ms]; [reflexivity |]. cbn [stored].
    now rewrite bool_decide_eq_false_2.
  - generalize (flat_map (unit_uses_externals externals) (units s)).
    intros [|e es]; [reflexivity |]. cbn [stored].
    now rewrite bool_decide_eq_false_2.
Qed.

Lemma use_sources_uses (srcs : list source) :
  forall st st',
    for_each (use_source externals l) srcs st = Returns st' ->
    (forall s, In s srcs ->
               dict_get (src_to_obj l) (path s)
               = Some (object_name (path s))) ->
    List.NoDup (object_names srcs) ->
    (forall obj, ~ In obj (object_names srcs) ->
       modules_used_by_object st' !! obj = modules_used_by_object st !! obj /\
       externals_used_by_object st' !! obj
       = externals_used_by_object st !! obj) /\
    (forall s, In s srcs ->
       modules_used_by_object st' !! object_name (path s) =
         match stored (source_uses_modules (modules_in_src l) s) with
         | Some ms => Some ms
         | None => modules_used_by_object st !! object_name (path s)
         end /\
       externals_used_by_object st' !! object_name (path s) =
         match stored (source_uses_externals externals s) with
         | Some es => Some es
         | None => externals_used_by_object st !! object_name (path s)
         end).
Proof.
  induction srcs as [|s srcs IH]; intros st st' H Hget Hnd.
  - injection H as <-. split; [tauto | intros s []].
  - rewrite for_each_cons in H. apply bind_returns in H.
    destruct H as (st1 & H1 & H2).
    apply (use_source_uses _ _ _ (object_name (path s))) in H1;
      [| apply Hget; now left].
    destruct H1 as (Hm1 & He1).
    change (object_names (s :: srcs))
      with (object_name (path s) :: object_names srcs) in *.
    apply List.NoDup_cons_iff in Hnd. destruct Hnd as (Hs & Hnd).
    apply IH in H2; [| intros s0 Hs0; apply Hget; now right | exact Hnd].
    destruct H2 as (Hout & Hin).
    assert (Hne : forall obj, obj <> object_name (path s) ->
              modules_used_by_object st1 !! obj
              = modules_used_by_object st !! obj /\
              externals_used_by_object st1 !! obj
              = externals_used_by_object st !! obj).
    { intros obj Hobj. rewrite Hm1, He1.
      destruct (stored (source_uses_modules _ s));
        destruct (stored (source_uses_externals _ s));
        rewrite ?lookup_insert_ne by congruence; tauto. }
    assert (Heq :
              modules_used_by_object st1 !! object_name (path s) =
                match stored (source_uses_modules (modules_in_src l) s) with
                | Some ms => Some ms
                | None => modules_used_by_object st !! object_name (path s)
                end /\
              externals_used_by_object st1 !! object_name (path s) =
                match stored (source_uses_externals externals s) with
                | Some es => Some es
                | None => externals_used_by_object st !! object_name (path s)
                end).
    { rewrite Hm1, He1.
      destruct (stored (source_uses_modules _ s));
        destruct (stored (source_uses_externals _ s));
        rewrite ?lookup_insert_eq; tauto. }
    split.
    + intros obj Hobj. cbn [In] in Hobj.
      destruct (Hout obj) as (-> & ->); [tauto |].
      apply Hne. intros ->. tauto.
    + intros s0 [<- | Hs0].
      * destruct (Hout (object_name (path s)) Hs) as (-> & ->). exact Heq.
      * destruct (Hin s0 Hs0) as (-> & ->).
        assert (Hobj : object_name (path s0) <> object_name (path s)).
        { intros E. apply Hs. rewrite <- E. unfold object_names.
          apply in_map_iff. now exists s0. }
        destruct (Hne _ Hobj) as (-> & ->). tauto.
Qed.

End UsesOfSources.

Lemma uses_recorded (p : MakeMake.project) (l : MakeMake.listing)
    (st : MakeMake.usage) (s : MakeMake.source) :
  MakeMake.first_pass p = Returns l ->
  MakeMake.second_pass p l = Returns st ->
  In s (MakeMake.sources p) ->
  MakeMake.modules_used_by_object st
    !! MakeMake.object_name (MakeMake.path s)
  = Passes.stored
      (Passes.source_uses_modules
         (MakeMake.module_names (MakeMake.sources p)) s) /\
  MakeMake.externals_used_by_object st
    !! MakeMake.object_name (MakeMake.path s)
  = Passes.stored (Passes.source_uses_externals (MakeMake.externals p) s).
Proof.
  intros H1 H2 Hs.
  pose proof (first_pass_listed _ _ H1) as (_ & Hnd & _).
  apply first_pass_returns in H1. destruct H1 as (_ & Hm & Hget).
  apply use_sources_uses in H2; [| exact Hget | exact Hnd].
  destruct H2 as (_ & Hin). destruct (Hin s Hs) as (-> & ->).
  rewrite Hm. cbn [MakeMake.no_usage MakeMake.modules_used_by_object
                   MakeMake.externals_used_by_object].
  rewrite !lookup_empty.
  now destruct (Passes.stored _), (Passes.stored _).
Qed.

(** After the two passes, the modules recorded for an object file are the
    modules of the project that the units of its source file use,
    case-folded, one entry for each [use]; the external symbols recorded
    for it are those that the subprograms of these units call.  Calls of
    a unit itself are not recorded, and an object file without such
    modules or symbols has no entry. *)
Theorem second_pass_uses (p : MakeMake.project) (l : MakeMake.listing)
    (st : MakeMake.usage) (s : MakeMake.source) :
  MakeMake.first_pass p = Returns l ->
  MakeMake.second_pass p l = Returns st ->
  In s (MakeMake.sources p) ->
  MakeMake.modules_used_by_object st
    !! MakeMake.object_name (MakeMake.path s)
  = Passes.stored
      (Passes.source_uses_modules
         (MakeMake.module_names (MakeMake.sources p)) s) /\
  MakeMake.externals_used_by_object st
    !! MakeMake.object_name (MakeMake.path s)
  = Passes.stored (Passes.source_uses_externals (MakeMake.externals p) s).
Proof. apply uses_recorded. Qed.

Lemma second_pass_uses_witness :
  let main :=
    MakeMake.Source "src/main.f90"
      [MakeMake.Unit (Some "main") "program" ["Grid"; "mpi"] ["setup"]
         [MakeMake.Unit (Some "run") "subroutine" [] ["setup"; "sin"] []]] in
  let p :=
    MakeMake.Project
      [main;
       MakeMake.Source "src/grid.f90"
         [MakeMake.Unit (Some "grid") "module" [] [] []]]
      ["setup"] in
  exists l st,
    MakeMake.first_pass p = Returns l /\
    MakeMake.second_pass p l = Returns st /\
    MakeMake.modules_used_by_object st !! "main.o" = Some ["grid"] /\
    MakeMake.externals_used_by_object st !! "main.o" = Some ["setup"].
Proof.
  intros main p.
  destruct (MakeMake.first_pass p) as [l | e] eqn:H1;
    [| vm_compute in H1; discriminate].
  destruct (MakeMake.second_pass p l) as [st | e] eqn:H2;
    [| revert H2; injection H1 as <-; vm_compute; discriminate].
  exists l, st. split; [reflexivity |]. split; [exact H2 |].
  exact (second_pass_uses p l st main H1 H2 (or_introl eq_refl)).
Defined.

(** ** makemake: the keys and values of [object_file_for] *)

Section Providers.

Import MakeMake Passes.

(** The object files, module names, external symbols and callees that may
    occur. *)
Variable objs mods externals calls : list string.

Let known (st : usage) : Prop :=
  (forall k o, object_file_for st !! k = Some o ->
               In o objs /\ (In k mods \/ In k externals \/ In k calls)) /\
  (forall x, c st = Some x -> In x calls).

Lemma use_callees_known (cs : list string) :
  forall st,
    (forall x, In x cs -> In x calls) ->
    known st -> known (fold_left (use_callee externals) cs st).
Proof.
  induction cs as [|callee cs IH]; intros st Hcs Hst; [exact Hst |].
  cbn [fold_left]. apply IH; [intros x Hx; apply Hcs; now right |].
  destruct Hst as (Hk & Hc). unfold use_callee.
  split.
  - intros k o. destruct (in_list callee externals); apply Hk.
  - intros x. destruct (in_list callee externals);
      cbn [add_uses_externals set_c c]; intros [= <-]; apply Hcs; now left.
Qed.

Lemma known_set (st : usage) (k this_obj : string) :
  In this_obj objs -> In k mods \/ In k externals \/ In k calls ->
  known st -> known (set_object_file_for st k this_obj).
Proof.
  intros Ho Hk (Hst & Hc). split; [| exact Hc].
  intros k0 o. cbn [set_object_file_for object_file_for].
  destruct (decide (k = k0)) as [<- | Hne].
  - rewrite lookup_insert_eq. intros [= <-]. tauto.
  - rewrite lookup_insert_ne by exact Hne. apply Hst.
Qed.

Lemma use_subprogram_known (this_obj : string) (st st' : usage)
    (sub : unit_) :
  In this_obj objs -> (forall x, In x (callees sub) -> In x calls) ->
  known st ->
  use_subprogram externals this_obj st sub = Returns st' -> known st'.
Proof.
  intros Ho Hcs Hst. unfold use_subprogram.
  pose proof (use_callees_known (callees sub) st Hcs Hst) as H1.
  destruct (name_in (name sub) externals); [| now intros [= <-]].
  destruct (c _) as [c0 |] eqn:Hc; [| discriminate].
  destruct (defined _ c0); [discriminate |].
  intros [= <-]. apply known_set; [exact Ho | | exact H1].
  right. right. now apply (proj2 H1).
Qed.

Lemma use_subprograms_known (this_obj : string) (subs : list unit_) :
  forall st st',
    In this_obj objs ->
    (forall x, In x (flat_map callees subs) -> In x calls) ->
    known st ->
    for_each (use_subprogram externals this_obj) subs st = Returns st' ->
    known st'.
Proof.
  induction subs as [|sub subs IH]; intros st st' Ho Hcs Hst H.
  - now injection H as <-.
  - rewrite for_each_cons in H. apply bind_returns in H.
    destruct H as (st1 & H1 & H2). cbn [flat_map] in Hcs.
    apply (IH st1 st' Ho); [| | exact H2].
    + intros x Hx. apply Hcs, in_or_app. now right.
    + apply (use_subprogram_known this_obj st st1 sub Ho); [| exact Hst
                                                             | exact H1].
      intros x Hx. apply Hcs, in_or_app. now left.
Qed.

Lemma use_modules_known (modules_in_src ms : list string) :
  forall st, known st -> known (fold_left (use_module modules_in_src) ms st).
Proof.
  induction ms as [|m ms IH]; intros st Hst; [exact Hst |].
  cbn [fold_left]. apply IH. unfold use_module.
  now destruct (in_list (lower m) modules_in_src).
Qed.

Lemma use_unit_known (modules_in_src : list string) (this_obj : string)
    (st st' : usage) (u : unit_) :
  In this_obj objs ->
  (forall m, In m (unit_modules u) -> In m mods) ->
  (forall x, In x (unit_callees u) -> In x calls) ->
  known st ->
  use_unit externals modules_in_src this_obj st u = Returns st' -> known st'.
Proof.
  intros Ho Hm Hcs Hst H. unfold use_unit in H.
  apply bind_returns in H. destruct H as (st1 & H1 & H).
  apply bind_returns in H. destruct H as (st2 & H2 & H3).
  assert (K1 : known st1).
  { unfold unit_modules in Hm.
    destruct (String.eqb (utype u) "module"); [| now injection H1 as <-].
    destruct (name u) as [n |]; [| discriminate].
    destruct (in_list (lower n) (modules_provided st)); [discriminate |].
    injection H1 as <-. apply known_set; [exact Ho | | exact Hst].
    left. apply Hm. now left. }
  assert (K2 : known st2).
  { apply (use_subprograms_known this_obj (subprograms u) _ st2 Ho Hcs
             (use_modules_known modules_in_src (used_modules u) st1 K1) H2). }
  destruct (name u) as [n |]; [| now injection H3 as <-].
  destruct (in_list n externals) eqn:He; [| now injection H3 as <-].
  destruct (defined st2 n); [discriminate |].
  injection H3 as <-. apply known_set; [exact Ho | | exact K2].
  right. left. now apply in_list_In.
Qed.

Lemma use_units_known (modules_in_src : list string) (this_obj : string)
    (us : list unit_) :
  forall st st',
    In this_obj objs ->
    (forall m, In m (flat_map unit_modules us) -> In m mods) ->
    (forall x, In x (flat_map unit_callees us) -> In x calls) ->
    known st ->
    for_each (use_unit externals modules_in_src this_obj) us st
    = Returns st' ->
    known st'.
Proof.
  induction us as [|u us IH]; intros st st' Ho Hm Hcs Hst H.
  - now injection H as <-.
  - rewrite for_each_cons in H. apply bind_returns in H.
    destruct H as (st1 & H1 & H2). cbn [flat_map] in Hm, Hcs.
    apply (IH st1 st' Ho); [| | | exact H2].
    + intros m Hin. apply Hm, in_or_app. now right.
    + intros x Hx. apply Hcs, in_or_app. now right.
    + apply (use_unit_known modules_in_src this_obj st st1 u Ho);
        [| | exact Hst | exact H1].
      * intros m Hin. apply Hm, in_or_app. now left.
      * intros x Hx. apply Hcs, in_or_app. now left.
Qed.

Lemma use_sources_known (l : listing) (srcs : list source) :
  forall st st',
    (forall s, In s srcs ->
               dict_get (src_to_obj l) (path s)
               = Some (object_name (path s))) ->
    (forall o, In o (object_names srcs) -> In o objs) ->
    (forall m, In m (module_names srcs) -> In m mods) ->
    (forall x, In x (project_callees srcs) -> In x calls) ->
    known st ->
    for_each (use_source externals l) srcs st = Returns st' ->
    known st'.
Proof.
  induction srcs as [|s srcs IH]; intros st st' Hget Ho Hm Hcs Hst H.
  - now injection H as <-.
  - rewrite for_each_cons in H. apply bind_returns in H.
    destruct H as (st1 & H1 & H2).
    change (object_names (s :: srcs))
      with (object_name (path s) :: object_names srcs) in Ho.
    change (module_names (s :: srcs))
      with (source_modules s ++ module_names srcs) in Hm.
    change (project_callees (s :: srcs))
      with (flat_map unit_callees (units s) ++ project_callees srcs) in Hcs.
    apply (IH st1 st'); [| | | | | exact H2].
    + intros s0 Hs0. apply Hget. now right.
    + intros o Hin. apply Ho. now right.
    + intros m Hin. apply Hm, in_or_app. now right.
    + intros x Hx. apply Hcs, in_or_app. now right.
    + unfold use_source in H1. rewrite (Hget s (or_introl eq_refl)) in H1.
      cbn [mbind outcome_bind] in H1.
      apply bind_returns in H1. destruct H1 as (st2 & Hus & H1).
      injection H1 as <-.
      apply use_units_known in Hus.
      * exact Hus.
      * apply Ho. now left.
      * intros m Hin. apply Hm, in_or_app. now left.
      * intros x Hx. apply Hcs, in_or_app. now left.
      * exact Hst.
Qed.

End Providers.

Lemma second_pass_known (p : MakeMake.project) (l : MakeMake.listing)
    (st : MakeMake.usage) (k o : string) :
  MakeMake.first_pass p = Returns l ->
  MakeMake.second_pass p l = Returns st ->
  MakeMake.object_file_for st !! k = Some o ->
  In o (MakeMake.object_names (MakeMake.sources p)) /\
  (In k (MakeMake.module_names (MakeMake.sources p)) \/
   In k (MakeMake.externals p) \/
   In k (Passes.project_callees (MakeMake.sources p))).
Proof.
  intros H1 H2 Hk.
  apply first_pass_returns in H1. destruct H1 as (_ & _ & Hget).
  unfold MakeMake.second_pass in H2.
  apply (use_sources_known
           (MakeMake.object_names (MakeMake.sources p))
           (MakeMake.module_names (MakeMake.sources p))
           (MakeMake.externals p)
           (Passes.project_callees (MakeMake.sources p))) in H2;
    try tauto.
  - now apply (proj1 H2).
  - split; [| discriminate]. intros k0 o0.
    cbn [MakeMake.no_usage MakeMake.object_file_for].
    now rewrite lookup_empty.
Qed.

(** After the two passes, every entry of [object_file_for] gives an object
    file of the project, and stands under the case-folded name of a module
    of the project, under an external symbol, or under a callee of some
    subprogram. *)
Theorem providers_known (p : MakeMake.project) (l : MakeMake.listing)
    (st : MakeMake.usage) (k o : string) :
  MakeMake.first_pass p = Returns l ->
  MakeMake.second_pass p l = Returns st ->
  MakeMake.object_file_for st !! k = Some o ->
  In o (MakeMake.object_names (MakeMake.sources p)) /\
  (In k (MakeMake.module_names (MakeMake.sources p)) \/
   In k (MakeMake.externals p) \/
   In k (Passes.project_callees (MakeMake.sources p))).
Proof. apply second_pass_known. Qed.

(** ** makemake: the third pass *)

Section ThirdPass.

Import MakeMake Passes.

Lemma third_pass_lookup (l : listing) (st : usage) (obj : string) :
  third_pass l st !! obj =
  if in_list obj (dict_values (src_to_obj l))
  then Some (objects_needed st obj) else None.
Proof.
  unfold third_pass.
  assert (G : forall vs (m : gmap string (list string)),
             fold_left
               (fun needed_for_link_by this_obj =>
                  <[this_obj := objects_needed st this_obj]>
                    needed_for_link_by)
               vs m !! obj
             = if in_list obj vs then Some (objects_needed st obj)
               else m !! obj).
  { induction vs as [|v vs IH]; intros m; [reflexivity |].
    cbn [fold_left]. rewrite IH. unfold in_list. cbn [existsb].
    fold (in_list obj vs). destruct (in_list obj vs);
      [now rewrite orb_true_r |].
    rewrite orb_false_r. destruct (String.eqb_spec obj v) as [-> | Hne].
    - now rewrite lookup_insert_eq.
    - rewrite lookup_insert_ne by congruence. reflexivity. }
  rewrite G. now rewrite lookup_empty.
Qed.

Lemma add_providers (st : usage) (ks : list string) :
  forall objects,
    List.NoDup objects ->
    List.NoDup (fold_left (add_provider st) ks objects) /\
    forall o,
      In o (fold_left (add_provider st) ks objects) <->
      In o objects \/
      exists k, In k ks /\ object_file_for st !! k = Some o.
Proof.
  induction ks as [|k ks IH]; intros objects Hnd; cbn [fold_left].
  - split; [exact Hnd |]. intros o. split; [tauto |].
    intros [H | (k & [] & _)]. exact H.
  - assert (Hnd' : List.NoDup (add_provider st objects k)).
    { unfold add_provider. destruct (object_file_for st !! k) as [o |];
        [| exact Hnd].
      destruct (in_list o objects) eqn:Hin; [exact Hnd |].
      apply NoDup_extend; [exact Hnd | repeat constructor; intros [] |].
      intros x [<- | []]. now apply in_list_false. }
    destruct (IH _ Hnd') as (Hr & Hiff). split; [exact Hr |].
    intros o. rewrite Hiff. unfold add_provider. split.
    + intros [H | (k' & Hk' & Hget)].
      * destruct (object_file_for st !! k) as [o' |] eqn:Hk; [| now left].
        destruct (in_list o' objects); [now left |].
        apply in_app_or in H. destruct H as [H | [<- | []]]; [now left |].
        right. exists k. split; [now left | exact Hk].
      * right. exists k'. split; [now right | exact Hget].
    + intros [H | (k' & [<- | Hk'] & Hget)].
      * left. destruct (object_file_for st !! k) as [o' |]; [| exact H].
        destruct (in_list o' objects); [exact H |].
        apply in_or_app. now left.
      * left. rewrite Hget. destruct (in_list o objects) eqn:Hin.
        -- now apply in_list_In.
        -- apply in_or_app. right. now left.
      * right. now exists k'.
Qed.

Lemma objects_needed_spec (st : usage) (obj : string) :
  List.NoDup (objects_needed st obj) /\
  forall o,
    In o (objects_needed st obj) <->
    exists k,
      (In k (default [] (modules_used_by_object st !! obj)) \/
       In k (default [] (externals_used_by_object st !! obj))) /\
      object_file_for st !! k = Some o.
Proof.
  unfold objects_needed. cbv zeta.
  assert (H0 : List.NoDup (@nil string)) by constructor.
  destruct (modules_used_by_object st !! obj) as [ms |];
    destruct (externals_used_by_object st !! obj) as [es |];
    cbn [default].
  - destruct (add_providers st ms [] H0) as (H1 & I1).
    destruct (add_providers st es _ H1) as (H2 & I2).
    split; [exact H2 |]. intros o. rewrite I2, I1. split.
    + intros [[[] | (k & Hk & Hget)] | (k & Hk & Hget)]; exists k; tauto.
    + intros (k & [Hk | Hk] & Hget); [left; right | right]; now exists k.
  - destruct (add_providers st ms [] H0) as (H1 & I1).
    split; [exact H1 |]. intros o. rewrite I1. split.
    + intros [[] | (k & Hk & Hget)]. exists k. tauto.
    + intros (k & [Hk | []] & Hget). right. now exists k.
  - destruct (add_providers st es [] H0) as (H1 & I1).
    split; [exact H1 |]. intros o. rewrite I1. split.
    + intros [[] | (k & Hk & Hget)]. exists k. tauto.
    + intros (k & [[] | Hk] & Hget). right. now exists k.
  - split; [exact H0 |]. intros o. split; [intros [] |].
    intros (k & [[] | []] & _).
Qed.

End ThirdPass.

(** The third pass gives an entry to the object file of every source file
    and to nothing else.  The entry has no object twice, and holds the
    objects that [object_file_for] gives for the modules and external
    symbols recorded for the object file. *)
Theorem needed_for_link (l : MakeMake.listing) (st : MakeMake.usage)
    (obj o : string) :
  MakeMake.third_pass l st !! obj =
    (if in_list obj (dict_values (MakeMake.src_to_obj l))
     then Some (MakeMake.objects_needed st obj) else None) /\
  List.NoDup (MakeMake.objects_needed st obj) /\
  (In o (MakeMake.objects_needed st obj) <->
   exists k,
     (In k (default [] (MakeMake.modules_used_by_object st !! obj)) \/
      In k (default [] (MakeMake.externals_used_by_object st !! obj))) /\
     MakeMake.object_file_for st !! k = Some o).
Proof.
  split; [apply third_pass_lookup |].
  destruct (objects_needed_spec st obj) as (H & I). split; [exact H | apply I].
Qed.

Lemma stored_In (l : list string) (x : string) :
  In x l -> Passes.stored l = Some l.
Proof. destruct l; [intros [] | reflexivity]. Qed.

Lemma source_object_listed (p : MakeMake.project) (l : MakeMake.listing)
    (s : MakeMake.source) :
  MakeMake.first_pass p = Returns l -> In s (MakeMake.sources p) ->
  in_list (MakeMake.object_name (MakeMake.path s))
    (dict_values (MakeMake.src_to_obj l)) = true.
Proof.
  intros H Hs. apply first_pass_listed in H. destruct H as (-> & _).
  apply in_list_In. unfold Passes.listed, Passes.source_entries, dict_values.
  cbn [MakeMake.src_to_obj]. rewrite map_map. cbn [snd].
  apply in_map_iff. now exists s.
Qed.

(** When a unit of one source file uses a module that a source file of the
    project defines, the names being equal up to case, the object file of
    the first needs the object file of the second at link time. *)
Theorem module_use_links (p : MakeMake.project) (l : MakeMake.listing)
    (st : MakeMake.usage) (s s' : MakeMake.source) (u u' : MakeMake.unit_)
    (m n : string) :
  MakeMake.first_pass p = Returns l ->
  MakeMake.second_pass p l = Returns st ->
  In s (MakeMake.sources p) -> In u (MakeMake.units s) ->
  In m (MakeMake.used_modules u) ->
  In s' (MakeMake.sources p) -> In u' (MakeMake.units s') ->
  MakeMake.utype u' = "module" -> MakeMake.name u' = Some n ->
  MakeMake.lower m = MakeMake.lower n ->
  MakeMake.needs (MakeMake.third_pass l st)
    (MakeMake.object_name (MakeMake.path s))
    (MakeMake.object_name (MakeMake.path s')).
Proof.
  intros H1 H2 Hs Hu Hm Hs' Hu' Ht Hn E.
  unfold MakeMake.needs, MakeMake.needed.
  rewrite third_pass_lookup, (source_object_listed p l s H1 Hs).
  apply objects_needed_spec. exists (MakeMake.lower m). split.
  - left. destruct (uses_recorded p l st s H1 H2 Hs) as (-> & _).
    assert (Hin : In (MakeMake.lower m)
                    (Passes.source_uses_modules
                       (MakeMake.module_names (MakeMake.sources p)) s)).
    { unfold Passes.source_uses_modules. apply in_flat_map.
      exists u. split; [exact Hu |]. unfold Passes.unit_uses_modules.
      apply filter_In. split; [now apply in_map |].
      apply in_list_In. rewrite E. unfold MakeMake.module_names.
      apply in_flat_map. exists s'. split; [exact Hs' |].
      unfold MakeMake.source_modules. apply in_flat_map.
      exists u'. split; [exact Hu' |]. unfold MakeMake.unit_modules.
      rewrite Ht, Hn. now left. }
    rewrite (stored_In _ _ Hin). exact Hin.
  - rewrite E. now apply modules_registered with p l u'.
Qed.

Lemma module_use_links_witness :
  let main := MakeMake.Unit (Some "main") "program" ["Grid"] [] [] in
  let grid := MakeMake.Unit (Some "GRID") "module" [] [] [] in
  let s := MakeMake.Source "src/main.f90" [main] in
  let s' := MakeMake.Source "src/grid.F90" [grid] in
  let p := MakeMake.Project [s; s'] [] in
  exists l st,
    MakeMake.first_pass p = Returns l /\
    MakeMake.second_pass p l = Returns st /\
    MakeMake.lower "Grid" = MakeMake.lower "GRID" /\
    MakeMake.needs (MakeMake.third_pass l st) "main.o" "grid.o".
Proof.
  intros main grid s s' p.
  destruct (MakeMake.first_pass p) as [l | e] eqn:H1;
    [| vm_compute in H1; discriminate].
  destruct (MakeMake.second_pass p l) as [st | e] eqn:H2;
    [| revert H2; injection H1 as <-; vm_compute; discriminate].
  exists l, st. split; [reflexivity |]. split; [exact H2 |].
  split; [reflexivity |].
  refine (module_use_links p l st s s' main grid "Grid" "GRID" H1 H2
            _ _ _ _ _ _ _ _);
    cbn; auto.
Defined.

(** ** makemake: the link rules *)

Section LinkRules.

Import MakeMake Passes.

Lemma combine_keys {A B : Type} (R : A -> B -> Prop) (xs : list A)
    (ys : list B) :
  Forall2 R xs ys ->
  map fst (combine xs ys) = xs /\
  Forall (fun xy => R (fst xy) (snd xy)) (combine xs ys).
Proof.
  induction 1 as [|x y xs ys Hxy H IH]; [split; constructor |].
  destruct IH as (IH1 & IH2). cbn [combine map fst]. rewrite IH1.
  split; [reflexivity |]. now constructor.
Qed.

Lemma link_list_head (nflb : gmap string (list string)) (o : string) :
  hd_error (generate_link_list [o] nflb [] 0) = Some o /\
  List.NoDup (generate_link_list [o] nflb [] 0).
Proof.
  unfold generate_link_list.
  destruct (link_list_sound nflb (100 - 0) 0 [o] []) as (added & E & Hnd & _);
    [lia |].
  split; [| rewrite E; apply NoDup_ListNoDup, Hnd; constructor].
  change (100 - 0) with (S 99). rewrite link_list_step by lia.
  cbn [fold_left]. unfold visit. cbn [in_list existsb negb app].
  destruct (link_list_sound nflb 99 (0 + 1) (needed nflb o) [o])
    as (added' & E' & _); [cbn; lia |].
  now rewrite E'.
Qed.

Lemma link_pass_returns (programs : list (option string * string))
    (st : usage) (nflb : gmap string (list string))
    (rules : list (option string * list string)) :
  link_pass programs st nflb = Returns rules ->
  map fst rules = dict_keys programs /\
  Forall
    (fun r =>
       exists n o,
         fst r = Some n /\ object_file_for st !! n = Some o /\
         snd r = generate_link_list [o] nflb [] 0)
    rules.
Proof.
  unfold link_pass. intros H.
  destruct (link_pass_rules nflb st (dict_keys programs) [])
    as [(objs & HF & E) | E]; [| congruence].
  rewrite E in H. injection H as <-. cbn [app].
  apply combine_keys in HF. destruct HF as (Hk & HF).
  rewrite map_map. cbn [fst]. split; [exact Hk |].
  apply List.Forall_map. revert HF. apply List.Forall_impl.
  intros [prog o] (n & Hp & Hn). cbn [fst snd] in *. exists n, o. tauto.
Qed.

Lemma link_pass_raises (programs : list (option string * string))
    (st : usage) (nflb : gmap string (list string)) (prog : option string) :
  In prog (dict_keys programs) ->
  (forall n o, prog = Some n -> object_file_for st !! n <> Some o) ->
  link_pass programs st nflb = Raises KeyError.
Proof.
  intros Hin Hnone. unfold link_pass.
  destruct (link_pass_rules nflb st (dict_keys programs) [])
    as [(objs & HF & _) | E]; [| exact E].
  exfalso. revert Hin. induction HF as [|x y xs ys Hxy HF IH]; [intros [] |].
  intros [-> | Hin]; [| now apply IH].
  destruct Hxy as (n & -> & Hn). now apply (Hnone n y).
Qed.

End LinkRules.

Lemma name_executable_returns (executable : option string)
    (programs programs' : list (option string * string)) :
  MakeMake.name_executable executable programs = Returns programs' ->
  dict_keys programs' = match executable with
                        | None => dict_keys programs
                        | Some x => [Some x]
                        end /\
  (executable <> None -> length (dict_keys programs) = 1).
Proof.
  unfold MakeMake.name_executable. destruct executable as [x |].
  - intros H. apply bind_returns in H. destruct H as ([] & Ha & H).
    apply assert_returns in Ha. apply Nat.ltb_lt in Ha.
    destruct programs as [|[k obj] [|kv rest]];
      [discriminate | | cbn [length] in Ha; lia].
    injection H as <-. split; [reflexivity | reflexivity].
  - intros [= <-]. split; [reflexivity | congruence].
Qed.

(** When [makemake] returns, it has written one link rule for each program
    in source order, or the one rule for the name given with
    [--executable], the project then having one program.  The target of a
    rule has an entry in [object_file_for], and the objects of the rule are
    the link list of that entry, which starts with it and has no object
    twice. *)
Theorem makemake_rules (p : MakeMake.project) (executable : option string)
    (rules : list (option string * list string)) :
  MakeMake.makemake p executable = Returns rules ->
  exists l st,
    MakeMake.first_pass p = Returns l /\
    MakeMake.second_pass p l = Returns st /\
    map fst rules = match executable with
                    | None => MakeMake.program_names (MakeMake.sources p)
                    | Some x => [Some x]
                    end /\
    (executable <> None ->
     length (MakeMake.program_names (MakeMake.sources p)) = 1) /\
    Forall
      (fun r =>
         exists n o,
           fst r = Some n /\ MakeMake.object_file_for st !! n = Some o /\
           snd r = MakeMake.generate_link_list [o] (MakeMake.third_pass l st)
                     [] 0 /\
           hd_error (snd r) = Some o /\ List.NoDup (snd r))
      rules.
Proof.
  unfold MakeMake.makemake. intros H.
  apply bind_returns in H. destruct H as (l & H1 & H).
  apply bind_returns in H. destruct H as (programs & Hx & H).
  apply bind_returns in H. destruct H as (st & H2 & H3).
  exists l, st. split; [exact H1 |]. split; [exact H2 |].
  apply name_executable_returns in Hx. destruct Hx as (Hk & Hone).
  apply link_pass_returns in H3. destruct H3 as (Ht & HF).
  pose proof (list_sources_returns _ _ _ H1) as (_ & Hp & _).
  cbn [MakeMake.no_listing MakeMake.programs dict_keys map app] in Hp.
  fold (dict_keys (MakeMake.programs l)) in Hp.
  rewrite Ht, Hk, <- Hp. split; [reflexivity |]. split; [exact Hone |].
  revert HF. apply List.Forall_impl. intros r (n & o & Hn & Ho & Hr).
  exists n, o. rewrite Hr.
  destruct (link_list_head (MakeMake.third_pass l st) o) as (Hh & Hnd).
  tauto.
Qed.

Lemma makemake_rules_witness :
  let p :=
    MakeMake.Project
      [MakeMake.Source "src/main.f90"
         [MakeMake.Unit (Some "main") "program" ["grid"] [] []];
       MakeMake.Source "src/grid.f90"
         [MakeMake.Unit (Some "grid") "module" [] [] []]]
      ["main"] in
  MakeMake.makemake p None = Returns [(Some "main", ["main.o"; "grid.o"])] /\
  exists l st,
    MakeMake.first_pass p = Returns l /\
    MakeMake.second_pass p l = Returns st /\
    MakeMake.object_file_for st !! "main" = Some "main.o".
Proof.
  intros p.
  assert (H : MakeMake.makemake p None
              = Returns [(Some "main", ["main.o"; "grid.o"])])
    by (vm_compute; reflexivity).
  split; [exact H |].
  destruct (makemake_rules p None _ H) as (l & st & H1 & H2 & _ & _ & HF).
  exists l, st. split; [exact H1 |]. split; [exact H2 |].
  apply List.Forall_inv in HF.
  destruct HF as (n & o & Hn & Ho & _ & Hh & _).
  cbn [fst snd hd_error] in Hn, Hh.
  injection Hn as <-. injection Hh as <-. exact Ho.
Defined.

(** A program whose name is no external symbol, no case-folded module name
    and no callee of a subprogram has no entry in [object_file_for]: the
    link rules are not written, [makemake] raises [KeyError].  So does a
    [program] statement without a name. *)
Theorem program_without_provider (p : MakeMake.project)
    (l : MakeMake.listing) (st : MakeMake.usage) (prog : option string) :
  MakeMake.first_pass p = Returns l ->
  MakeMake.second_pass p l = Returns st ->
  In prog (MakeMake.program_names (MakeMake.sources p)) ->
  (forall n, prog = Some n ->
     ~ In n (MakeMake.externals p) /\
     ~ In n (MakeMake.module_names (MakeMake.sources p)) /\
     ~ In n (Passes.project_callees (MakeMake.sources p))) ->
  MakeMake.makemake p None = Raises KeyError.
Proof.
  intros H1 H2 Hin Hnone. unfold MakeMake.makemake.
  rewrite H1. cbn [mbind outcome_bind MakeMake.name_executable].
  rewrite H2. cbn [mbind outcome_bind].
  apply link_pass_raises with prog.
  - pose proof (list_sources_returns _ _ _ H1) as (_ & Hp & _).
    cbn [MakeMake.no_listing MakeMake.programs dict_keys map app] in Hp.
    fold (dict_keys (MakeMake.programs l)) in Hp. now rewrite Hp.
  - intros n o -> Hget.
    destruct (second_pass_known p l st n o H1 H2 Hget) as (_ & Hk).
    destruct (Hnone n eq_refl) as (He & Hm & Hc). tauto.
Qed.

Lemma program_without_provider_witness :
  let p :=
    MakeMake.Project
      [MakeMake.Source "src/main.f90"
         [MakeMake.Unit (Some "main") "program" ["grid"] [] []];
       MakeMake.Source "src/grid.f90"
         [MakeMake.Unit (Some "grid") "module" [] [] []]]
      [] in
  (exists l st,
     MakeMake.first_pass p = Returns l /\
     MakeMake.second_pass p l = Returns st) /\
  MakeMake.makemake p None = Raises KeyError.
Proof.
  intros p.
  destruct (MakeMake.first_pass p) as [l | e] eqn:H1;
    [| vm_compute in H1; discriminate].
  destruct (MakeMake.second_pass p l) as [st | e] eqn:H2;
    [| revert H2; injection H1 as <-; vm_compute; discriminate].
  split; [now exists l, st |].
  apply (program_without_provider p l st (Some "main") H1 H2).
  - cbn. now left.
  - intros n [= <-]. cbn. intuition discriminate.
Defined.

(** ** The link list for any arguments *)

Lemma link_list_holds (nflb : gmap string (list string)) (fuel level : nat)
    (objects obj_list : list string) :
  100 - level <= fuel ->
  (forall x, In x obj_list ->
             In x (MakeMake.link_list fuel nflb objects obj_list level)) /\
  (level <= 99 ->
   forall o, In o objects ->
             In o (MakeMake.link_list fuel nflb objects obj_list level)).
Proof.
  revert fuel level objects obj_list.
  apply (link_list_calls nflb
           (fun level objects obj_list r =>
              (forall x, In x obj_list -> In x r) /\
              (level <= 99 -> forall o, In o objects -> In o r))).
  - intros level objects obj_list Hlevel. split; [tauto | lia].
  - intros level obj_list. split; [tauto | intros _ o []].
  - intros level o rest obj_list r _ Ho (Hkeep & Hall).
    split; [exact Hkeep |]. intros Hlevel x [<- | Hx].
    + apply Hkeep. now apply in_list_In.
    + now apply Hall.
  - intros level o rest obj_list r1 r Hlevel Ho (Hkeep1 & _) (Hkeep & Hall).
    split.
    + intros x Hx. apply Hkeep, Hkeep1, in_or_app. now left.
    + intros _ x [<- | Hx].
      * apply Hkeep, Hkeep1, in_or_app. right. now left.
      * now apply Hall.
Qed.

(** Whatever its arguments, [__generate_link_list] extends the list it is
    given: the result starts with [obj_list], what it adds is reached from
    one of [objects] through [needed_for_link_by], a list without
    repetition stays so, and below the level bound every one of [objects]
    is in the result. *)
Theorem link_list_extends (nflb : gmap string (list string))
    (objects obj_list : list string) (level : nat) :
  let lst := MakeMake.generate_link_list objects nflb obj_list level in
  (exists added,
     lst = obj_list ++ added /\
     forall x, In x added ->
               exists o, In o objects /\ MakeMake.reachable nflb o x) /\
  (List.NoDup obj_list -> List.NoDup lst) /\
  (level <= 99 -> forall o, In o objects -> In o lst).
Proof.
  cbv zeta. unfold MakeMake.generate_link_list.
  destruct (link_list_sound nflb (100 - level) level objects obj_list)
    as (added & E & Hnd & Hreach); [lia |].
  split; [now exists added |]. split.
  - intros H. rewrite E. apply NoDup_ListNoDup, Hnd, NoDup_ListNoDup, H.
  - apply link_list_holds. lia.
Qed.

(** ** src/flint/program.py *)

Section ProgramParse.

Import Program.

Lemma parse_construct_lines (lines : list (list string)) :
  forall ctype,
    parse_construct ctype lines =
    if forallb (fun line => negb (bool_decide (line = []))) lines
    then Returns (map (fun line => Star (String.concat " " line)) lines)
    else Raises IndexError.
Proof.
  induction lines as [|line lines IH]; intros ctype; [reflexivity |].
  cbn [parse_construct forallb map]. destruct line as [|w0 ws];
    [reflexivity |].
  unfold opens_construct. rewrite orb_true_r, IH.
  rewrite bool_decide_eq_false_2 by discriminate. cbn [negb andb].
  now destruct (forallb _ lines).
Qed.

End ProgramParse.

(** [Program.parse] and [Program.parse_construct] take every line for the
    start of a construct, because the second operand of the test is a tuple
    and so is true: each line is printed with [*], the branches that print
    [X1], [X2], [P] and [C] are dead, and the kind of construct plays no
    part.  An empty line raises [IndexError]. *)
Theorem program_parse_lines (lines : list (list string)) (ctype : string) :
  let printed :=
    if forallb (fun line => negb (bool_decide (line = []))) lines
    then Returns (map (fun line => Program.Star (String.concat " " line))
                    lines)
    else Raises IndexError in
  Program.parse lines = printed /\
  Program.parse_construct ctype lines = printed.
Proof.
  cbv zeta. split; [| apply parse_construct_lines].
  destruct lines as [|line lines]; [reflexivity |].
  cbn [Program.parse forallb map]. destruct line as [|w0 ws];
    [reflexivity |].
  unfold Program.opens_construct. rewrite orb_true_r, parse_construct_lines.
  rewrite bool_decide_eq_false_2 by discriminate. cbn [negb andb].
  now destruct (forallb _ lines).
Qed.

(** ** The classifier reads a statement up to its first unit keyword *)

Section Keyword.

Variable table : list string.

Lemma first_index_none (line : list string) :
  forall i,
    (forall w, In w line -> in_list w table = false) ->
    first_index table line i = (-1)%Z.
Proof.
  induction line as [|w ws IH]; intros i H; [reflexivity |].
  cbn [first_index]. rewrite (H w) by now left.
  apply IH. intros w' Hw'. apply H. now right.
Qed.

Lemma first_index_at (pre : list string) (k : string) (rest : list string) :
  forall i,
    in_list k table = true ->
    (forall w, In w pre -> in_list w table = false) ->
    first_index table (pre ++ k :: rest) i = (i + Z.of_nat (length pre))%Z.
Proof.
  induction pre as [|w ws IH]; intros i Hk H; cbn [app first_index length].
  - rewrite Hk. lia.
  - rewrite (H w) by now left.
    rewrite IH; [lia | exact Hk |]. intros w' Hw'. apply H. now right.
Qed.

Lemma keyword_split (line : list string) :
  (forall w, In w line -> in_list w table = false) \/
  exists pre k rest,
    line = pre ++ k :: rest /\ in_list k table = true /\
    forall w, In w pre -> in_list w table = false.
Proof.
  induction line as [|w ws IH]; [left; intros w [] |].
  destruct (in_list w table) eqn:Hw.
  - right. exists [], w, ws. repeat split; [exact Hw | intros w' []].
  - destruct IH as [IH | (pre & k & rest & -> & Hk & Hpre)].
    + left. intros w' [<- | Hw']; [exact Hw | now apply IH].
    + right. exists (w :: pre), k, rest. repeat split; [exact Hk |].
      intros w' [<- | Hw']; [exact Hw | now apply Hpre].
Qed.

End Keyword.

Lemma statement_at (intrinsic_types pre : list string) (k : string)
    (rest : list string) :
  in_list k Units.unit_types = true ->
  (forall w, In w pre -> in_list w Units.unit_types = false) ->
  Units.statement intrinsic_types (pre ++ k :: rest) =
  match pre with
  | [] => true
  | word :: words => Units.prefix_loop intrinsic_types words word
  end.
Proof.
  intros Hk Hpre. unfold Units.statement. cbv zeta.
  rewrite first_index_at by assumption. rewrite Z.add_0_l.
  destruct pre as [|word words]; [reflexivity |].
  replace (Z.of_nat (length (word :: words)) =? 0)%Z with false
    by (symmetry; apply Z.eqb_neq; cbn [length]; lia).
  replace (0 <? Z.of_nat (length (word :: words)))%Z with true
    by (symmetry; apply Z.ltb_lt; cbn [length]; lia).
  rewrite Nat2Z.id, firstn_app, Nat.sub_diag, firstn_all.
  cbn [firstn]. now rewrite app_nil_r.
Qed.

(** [Unit.statement] answers [False] for a statement without a unit
    keyword.  For one that it accepts, the answer rests on the tokens up to
    the first unit keyword alone: what follows the keyword is not read. *)
Theorem statement_needs_keyword (intrinsic_types line : list string) :
  Units.statement intrinsic_types line = true ->
  exists pre k rest,
    line = pre ++ k :: rest /\ In k Units.unit_types /\
    (forall w, In w pre -> ~ In w Units.unit_types) /\
    forall rest', Units.statement intrinsic_types (pre ++ k :: rest') = true.
Proof.
  intros H.
  destruct (keyword_split Units.unit_types line)
    as [Hnone | (pre & k & rest & -> & Hk & Hpre)].
  - unfold Units.statement in H.
    rewrite first_index_none in H by exact Hnone. discriminate.
  - exists pre, k, rest. split; [reflexivity |].
    split; [now apply in_list_In |]. split.
    + intros w Hw Hin. apply in_list_In in Hin.
      rewrite (Hpre w Hw) in Hin. discriminate.
    + intros rest'. rewrite statement_at in H |- * by assumption. exact H.
Qed.

Lemma statement_needs_keyword_witness :
  Units.statement Legacy.intrinsic_types
    ["pure"; "integer"; "function"; "f"; "("; "x"; ")"] = true /\
  exists pre k rest,
    ["pure"; "integer"; "function"; "f"; "("; "x"; ")"] = pre ++ k :: rest /\
    In k Units.unit_types.
Proof.
  split; [reflexivity |].
  destruct (statement_needs_keyword Legacy.intrinsic_types
              ["pure"; "integer"; "function"; "f"; "("; "x"; ")"] eq_refl)
    as (pre & k & rest & E & Hk & _).
  now exists pre, k, rest.
Defined.

(** When the unit has a kind, [end_statement] is true exactly for the
    line [end], the line made of [end] fused with the kind, and the lines
    that start with the two tokens [end] and the kind. *)
Lemma end_statement_accepts_witness :
  "module" <> "" /\
  (truthy (Units.end_statement (Some "module") ["end"; "module"; "grid"])
   = true <->
   ["end"; "module"; "grid"] = ["end"] \/
   ["end"; "module"; "grid"] = [("end" ++ "module")%string] \/
   exists rest, ["end"; "module"; "grid"] = "end" :: "module" :: rest).
Proof.
  assert (H : "module" <> "") by discriminate.
  split; [exact H |].
  exact (end_statement_accepts "module" ["end"; "module"; "grid"] H).
Defined.

(** ** src/flint/units/unit.py: the header of a unit *)

Section Header.

Import Builder UnitParse.

Variable docstrip : list string -> string.

Lemma keyword_token_split (table : list string) (line : list token) :
  (find (fun w => in_list (text w) table) line = None /\
   forall t, In t line -> in_list (text t) table = false) \/
  exists pre k rest,
    line = pre ++ k :: rest /\ in_list (text k) table = true /\
    (forall t, In t pre -> in_list (text t) table = false) /\
    find (fun w => in_list (text w) table) line = Some k.
Proof.
  induction line as [|t ts IH]; [left; split; [reflexivity | intros t []] |].
  cbn [find]. destruct (in_list (text t) table) eqn:Ht.
  - right. exists [], t, ts. repeat split; [exact Ht | intros t' []].
  - destruct IH as [(Hf & IH) | (pre & k & rest & -> & Hk & Hpre & Hf)].
    + left. split; [exact Hf |].
      intros t' [<- | Ht']; [exact Ht | now apply IH].
    + right. exists (t :: pre), k, rest. repeat split; [exact Hk | | exact Hf].
      intros t' [<- | Ht']; [exact Ht | now apply Hpre].
Qed.

Lemma index_at (table : list string) (pre : list token) (k : token)
    (rest : list token) :
  in_list (text k) table = true ->
  (forall t, In t pre -> in_list (text t) table = false) ->
  index (pre ++ k :: rest) (text k) = length pre.
Proof.
  intros Hk. induction pre as [|t ts IH]; intros Hpre;
    cbn [app index length].
  - unfold is_. now rewrite String.eqb_refl.
  - unfold is_. destruct (String.eqb_spec (text t) (text k)) as [E | _].
    + rewrite <- E, (Hpre t) in Hk by now left. discriminate.
    + f_equal. apply IH. intros t' Ht'. apply Hpre. now right.
Qed.

Lemma first_upper_keyword (k : string) :
  in_list k Units.unit_types = true ->
  exists tag,
    first_upper k = Returns tag /\ In tag ["P"; "F"; "S"; "M"; "B"; "T"].
Proof.
  intros H. apply in_list_In in H. cbn [Units.unit_types In] in H.
  destruct H as [<- | [<- | [<- | [<- | [<- | [<- | [<- | []]]]]]]];
    eexists; (split; [reflexivity |]); cbn; tauto.
Qed.

(** The three ways in which [parse_header] ends. *)
Lemma parse_header_cases (line : list token) (st : unit_state) :
  ((forall t, In t line -> in_list (text t) Units.unit_types = false) /\
   parse_header docstrip line st = Raises StopIteration) \/
  (exists pre k,
     pre <> [] /\ line = pre ++ [k] /\
     in_list (text k) Units.unit_types = true /\
     (forall t, In t pre -> in_list (text t) Units.unit_types = false) /\
     parse_header docstrip line st = Raises IndexError) \/
  (exists pre k rest tag first final,
     line = pre ++ k :: rest /\ (rest = [] -> pre = []) /\
     in_list (text k) Units.unit_types = true /\
     (forall t, In t pre -> in_list (text t) Units.unit_types = false) /\
     first_upper (text k) = Returns tag /\
     hd_error line = Some first /\ last line = Some final /\
     parse_header docstrip line st =
     Returns (UnitState (text <$> hd_error rest) (Some (text k))
                (used_modules st) (Some (docstrip (head first)))
                (Some (docstrip (tail final))) (Some line)
                (add_statement (build st) (Statement tag line)))).
Proof.
  destruct (keyword_token_split Units.unit_types line)
    as [(Hf & Hnone) | (pre & k & rest & E & Hk & Hpre & Hf)].
  - left. split; [exact Hnone |]. unfold parse_header. now rewrite Hf.
  - right. unfold parse_header. rewrite Hf.
    destruct (first_upper_keyword (text k) Hk) as (tag & Htag & _).
    assert (Hfirst : exists first, hd_error line = Some first).
    { rewrite E. destruct pre; eexists; reflexivity. }
    assert (Hlast : exists final, last line = Some final).
    { apply last_is_Some. rewrite E. now destruct pre. }
    destruct Hfirst as (first & Hfirst). destruct Hlast as (final & Hlast).
    rewrite Hlast. replace (index line (text k)) with (length pre)
      by (rewrite E; symmetry; now apply index_at with Units.unit_types).
    assert (Hitem : item line (length pre + 1) =
                    match rest with
                    | nm :: _ => Returns nm
                    | [] => Raises IndexError
                    end).
    { unfold item. rewrite E, nth_error_app2 by lia.
      replace (length pre + 1 - length pre) with 1 by lia.
      now destruct rest. }
    rewrite Hitem.
    assert (Hlen : length line = length pre + S (length rest)).
    { rewrite E, length_app. reflexivity. }
    destruct rest as [|nm rest].
    + destruct pre as [|t pre].
      * right. exists [], k, [], tag, first, final. rewrite E in *.
        cbn [app length Nat.leb mbind outcome_bind hd_error] in *.
        rewrite Htag. injection Hfirst as <-.
        cbn [mbind outcome_bind fmap option_fmap option_map].
        repeat split; try assumption; reflexivity.
      * left. exists (t :: pre), k. rewrite Hlen. cbn [length Nat.add].
        replace (Nat.leb 2 (S (length pre + 1))) with true
          by (symmetry; apply Nat.leb_le; lia).
        cbn [mbind outcome_bind]. repeat split; try assumption.
        discriminate.
    + right. exists pre, k, (nm :: rest), tag, first, final.
      rewrite Hlen. cbn [length].
      replace (Nat.leb 2 (length pre + S (S (length rest)))) with true
        by (symmetry; apply Nat.leb_le; lia).
      cbn [mbind outcome_bind]. rewrite Htag. cbn [mbind outcome_bind].
      destruct line as [|t ts]; [discriminate |]. injection Hfirst as <-.
      repeat split; try assumption; try discriminate.
Qed.

End Header.

Lemma keyword_split_unique (table : list string)
    (pre pre' : list Builder.token) (k k' : Builder.token)
    (rest rest' : list Builder.token) :
  pre ++ k :: rest = pre' ++ k' :: rest' ->
  in_list (Builder.text k) table = true ->
  in_list (Builder.text k') table = true ->
  (forall t, In t pre -> in_list (Builder.text t) table = false) ->
  (forall t, In t pre' -> in_list (Builder.text t) table = false) ->
  pre = pre' /\ k = k' /\ rest = rest'.
Proof.
  revert pre'. induction pre as [|t ts IH]; intros [|t' ts'] E Hk Hk' Hp Hp';
    cbn [app] in E.
  - now injection E as -> ->.
  - injection E as E1 _.
    assert (in_list (Builder.text k) table = false)
      by (rewrite E1; apply Hp'; now left).
    congruence.
  - injection E as E1 _.
    assert (in_list (Builder.text k') table = false)
      by (rewrite <- E1; apply Hp; now left).
    congruence.
  - injection E as E1 E.
    destruct (IH ts' E Hk Hk') as (E2 & E3 & E4);
      [intros t0 Ht; apply Hp; now right
      | intros t0 Ht; apply Hp'; now right |].
    subst. tauto.
Qed.

Lemma not_in_list (w : string) (l : list string) :
  in_list w l = false <-> ~ In w l.
Proof.
  rewrite <- in_list_In. now destruct (in_list w l).
Qed.

(** [parse_header] raises [StopIteration] exactly when no token of the
    line is a unit keyword, and [IndexError] exactly when the first unit
    keyword is the last token of a line of two tokens or more, as in
    [pure function]; it raises nothing else. *)
Theorem parse_header_raises (docstrip : list string -> string)
    (line : list Builder.token) (st : UnitParse.unit_state) :
  (UnitParse.parse_header docstrip line st = Raises StopIteration <->
   forall t, In t line -> ~ In (Builder.text t) Units.unit_types) /\
  (UnitParse.parse_header docstrip line st = Raises IndexError <->
   exists pre k,
     pre <> [] /\ line = pre ++ [k] /\
     In (Builder.text k) Units.unit_types /\
     forall t, In t pre -> ~ In (Builder.text t) Units.unit_types) /\
  (forall e, UnitParse.parse_header docstrip line st = Raises e ->
             e = StopIteration \/ e = IndexError).
Proof.
  destruct (parse_header_cases docstrip line st)
    as [(Hnone & E)
       | [(pre & k & Hne & El & Hk & Hpre & E)
         | (pre & k & rest & tag & first & final & El & Hr & Hk & Hpre & _
            & _ & _ & E)]];
    rewrite E; (split; [| split]).
  - split; [| reflexivity]. intros _ t Ht. apply not_in_list. now apply Hnone.
  - split; [discriminate |]. intros (pre & k & _ & -> & Hk & _).
    apply in_list_In in Hk. rewrite Hnone in Hk; [discriminate |].
    apply in_or_app. right. now left.
  - intros e [= <-]. now left.
  - split; [discriminate |]. intros Hnone. exfalso.
    apply (Hnone k); [rewrite El; apply in_or_app; right; now left |].
    now apply in_list_In.
  - split; [| reflexivity]. intros _. exists pre, k.
    repeat split; try assumption; [now apply in_list_In |].
    intros t Ht. apply not_in_list. now apply Hpre.
  - intros e [= <-]. now right.
  - split; [discriminate |]. intros Hnone. exfalso.
    apply (Hnone k); [rewrite El; apply in_or_app; right; now left |].
    now apply in_list_In.
  - split; [discriminate |]. intros (pre' & k' & Hne & El' & Hk' & Hpre').
    exfalso. rewrite El in El'. apply in_list_In in Hk'.
    destruct (keyword_split_unique Units.unit_types pre pre' k k' rest []
                El' Hk Hk' Hpre) as (<- & _ & ->).
    + intros t Ht. apply not_in_list. now apply Hpre'.
    + now apply Hne, Hr.
  - discriminate.
Qed.

(** When [parse_header] returns, the kind of the unit is the first unit
    keyword of the line and its name the token after that keyword, or
    [None] when the keyword is the whole line; the line is recorded as one
    statement whose tag is the capital first letter of the kind, and the
    used modules are left as they were. *)
Theorem parse_header_returns (docstrip : list string -> string)
    (line : list Builder.token) (st st' : UnitParse.unit_state) :
  UnitParse.parse_header docstrip line st = Returns st' ->
  exists pre k rest tag,
    line = pre ++ k :: rest /\
    In (Builder.text k) Units.unit_types /\
    (forall t, In t pre -> ~ In (Builder.text t) Units.unit_types) /\
    UnitParse.utype st' = Some (Builder.text k) /\
    UnitParse.name st' = Builder.text <$> hd_error rest /\
    UnitParse.used_modules st' = UnitParse.used_modules st /\
    UnitParse.doc_statement st' = Some line /\
    In tag ["P"; "F"; "S"; "M"; "B"; "T"] /\
    UnitParse.first_upper (Builder.text k) = Returns tag /\
    UnitParse.build st' =
      Builder.add_statement (UnitParse.build st) (Builder.Statement tag line).
Proof.
  intros H.
  destruct (parse_header_cases docstrip line st)
    as [(_ & E)
       | [(pre & k & _ & _ & _ & _ & E)
         | (pre & k & rest & tag & first & final & El & _ & Hk & Hpre & Htag
            & _ & _ & E)]];
    rewrite E in H; try discriminate.
  injection H as <-. exists pre, k, rest, tag.
  destruct (first_upper_keyword _ Hk) as (tag' & Htag' & Hin).
  rewrite Htag in Htag'. injection Htag' as <-.
  repeat split; try assumption; try reflexivity.
  - now apply in_list_In.
  - intros t Ht. apply not_in_list. now apply Hpre.
Qed.

Lemma parse_header_returns_witness :
  let line := map Builder.word ["pure"; "function"; "area"; "("; "r"; ")"] in
  exists st',
    UnitParse.parse_header (String.concat " ") line UnitParse.new_state
    = Returns st' /\
    exists pre k rest,
      line = pre ++ k :: rest /\
      UnitParse.utype st' = Some (Builder.text k) /\
      UnitParse.name st' = Builder.text <$> hd_error rest.
Proof.
  intros line.
  destruct (UnitParse.parse_header (String.concat " ") line
              UnitParse.new_state) as [st' | e] eqn:H;
    [| vm_compute in H; discriminate].
  exists st'. split; [reflexivity |].
  destruct (parse_header_returns _ _ _ _ H)
    as (pre & k & rest & tag & El & _ & _ & Hu & Hn & _).
  now exists pre, k, rest.
Defined.

(** A statement that [Unit.statement] takes for the start of a unit has a
    unit keyword, so that [parse_header] does not raise [StopIteration] on
    it: it returns, or raises [IndexError] for want of a name. *)
Theorem header_after_statement (intrinsic_types : list string)
    (docstrip : list string -> string) (line : list Builder.token)
    (st : UnitParse.unit_state) :
  Units.statement intrinsic_types (map Builder.text line) = true ->
  (exists st', UnitParse.parse_header docstrip line st = Returns st') \/
  UnitParse.parse_header docstrip line st = Raises IndexError.
Proof.
  intros H.
  destruct (parse_header_cases docstrip line st)
    as [(Hnone & _)
       | [(pre & k & _ & _ & _ & _ & E)
         | (pre & k & rest & tag & first & final & _ & _ & _ & _ & _ & _ & _
            & E)]].
  - unfold Units.statement in H. rewrite first_index_none in H;
      [discriminate |].
    intros w Hw. apply in_map_iff in Hw. destruct Hw as (t & <- & Ht).
    now apply Hnone.
  - now right.
  - left. eexists. exact E.
Qed.

Lemma header_after_statement_witness :
  let line := map Builder.word ["integer"; "function"; "f"] in
  Units.statement Legacy.intrinsic_types (map Builder.text line) = true /\
  ((exists st',
      UnitParse.parse_header (String.concat " ") line UnitParse.new_state
      = Returns st') \/
   UnitParse.parse_header (String.concat " ") line UnitParse.new_state
   = Raises IndexError).
Proof.
  intros line. split; [reflexivity |].
  exact (header_after_statement Legacy.intrinsic_types (String.concat " ")
           line UnitParse.new_state eq_refl).
Defined.

(** ** The two versions of the header parser *)

Lemma find_keyword_at (table : list string) (pre : list Builder.token)
    (k : Builder.token) (rest : list Builder.token) :
  in_list (Builder.text k) table = true ->
  (forall t, In t pre -> in_list (Builder.text t) table = false) ->
  find (fun w => in_list w table) (map Builder.text (pre ++ k :: rest))
  = Some (Builder.text k).
Proof.
  intros Hk. induction pre as [|t ts IH]; intros Hpre; cbn [app map find].
  - now rewrite Hk.
  - rewrite (Hpre t) by now left. apply IH.
    intros t' Ht'. apply Hpre. now right.
Qed.

(** On a header with a name, the two versions agree on the kind of the
    unit.  They agree on the name when the unit keyword is the first
    token; behind a prefix, [units/unit.py] takes the token after the
    keyword and [unit.py] the second token of the line, which is a token of
    the prefix or the keyword. *)
Theorem header_versions (docstrip : list string -> string)
    (pre : list Builder.token) (k nm : Builder.token)
    (rest : list Builder.token) (st : UnitParse.unit_state) :
  In (Builder.text k) Legacy.unit_types ->
  (forall t, In t pre -> ~ In (Builder.text t) Units.unit_types) ->
  let line := pre ++ k :: nm :: rest in
  exists st' legacy_name out,
    UnitParse.parse_header docstrip line st = Returns st' /\
    UnitParse.utype st' = Some (Builder.text k) /\
    UnitParse.name st' = Some (Builder.text nm) /\
    LegacyParse.parse_name (map Builder.text line)
    = Returns (Builder.text k, legacy_name, out) /\
    (pre = [] -> legacy_name = Some (Builder.text nm)) /\
    (pre <> [] ->
     exists t, In t (pre ++ [k]) /\ legacy_name = Some (Builder.text t)).
Proof.
  intros Hk Hpre line.
  assert (HkL : in_list (Builder.text k) Legacy.unit_types = true)
    by now apply in_list_In.
  assert (HkU : in_list (Builder.text k) Units.unit_types = true)
    by (rewrite unit_types_extend, HkL; reflexivity).
  assert (HpU : forall t, In t pre ->
                  in_list (Builder.text t) Units.unit_types = false)
    by (intros t Ht; apply not_in_list; now apply Hpre).
  assert (HpL : forall t, In t pre ->
                  in_list (Builder.text t) Legacy.unit_types = false).
  { intros t Ht. pose proof (HpU t Ht) as H.
    rewrite unit_types_extend in H. now apply orb_false_iff in H. }
  destruct (first_upper_keyword _ HkU) as (tag & Htag & _).
  assert (Hlegacy : exists legacy_name,
             LegacyParse.parse_name (map Builder.text line)
             = Returns (Builder.text k, legacy_name,
                        (LegacyParse.printed tag (map Builder.text line)
                         ++ " ")%string) /\
             (pre = [] -> legacy_name = Some (Builder.text nm)) /\
             (pre <> [] ->
              exists t, In t (pre ++ [k]) /\
                        legacy_name = Some (Builder.text t))).
  { unfold LegacyParse.parse_name, line.
    rewrite (find_keyword_at _ pre k (nm :: rest) HkL HpL), Htag.
    cbn [mbind outcome_bind].
    destruct pre as [|a [|b pre]]; cbn [app map length Nat.leb nth_error].
    - eexists. split; [reflexivity |]. split; [reflexivity | congruence].
    - eexists. split; [reflexivity |]. split; [discriminate |].
      intros _. exists k. split; [right; now left | reflexivity].
    - eexists. split; [reflexivity |].
      split; [discriminate |]. intros _. exists b.
      split; [right; now left | reflexivity]. }
  destruct Hlegacy as (legacy_name & HL & H1 & H2).
  destruct (parse_header_cases docstrip line st)
    as [(Hnone & _)
       | [(pre' & k' & _ & El & Hk' & Hpre' & _)
         | (pre' & k' & rest' & tag' & first & final & El & _ & Hk' & Hpre'
            & _ & _ & _ & E)]].
  - rewrite Hnone in HkU; [discriminate |].
    apply in_or_app. right. now left.
  - destruct (keyword_split_unique _ _ _ _ _ _ _ El HkU Hk' HpU Hpre')
      as (_ & _ & [=]).
  - destruct (keyword_split_unique _ _ _ _ _ _ _ El HkU Hk' HpU Hpre')
      as (<- & <- & <-).
    eexists. exists legacy_name. eexists. split; [exact E |].
    split; [reflexivity |]. split; [reflexivity |].
    split; [exact HL |]. split; assumption.
Qed.

Lemma header_versions_witness :
  let pre := [Builder.word "recursive"] in
  let k := Builder.word "subroutine" in
  let nm := Builder.word "walk" in
  let rest := map Builder.word ["("; "tree"; ")"] in
  In (Builder.text k) Legacy.unit_types /\
  (forall t, In t pre -> ~ In (Builder.text t) Units.unit_types) /\
  exists st' legacy_name out,
    UnitParse.parse_header (String.concat " ") (pre ++ k :: nm :: rest)
      UnitParse.new_state = Returns st' /\
    UnitParse.name st' = Some "walk" /\
    LegacyParse.parse_name (map Builder.text (pre ++ k :: nm :: rest))
    = Returns ("subroutine", legacy_name, out) /\
    legacy_name = Some "subroutine".
Proof.
  intros pre k nm rest.
  assert (Hk : In (Builder.text k) Legacy.unit_types)
    by (cbn; tauto).
  assert (Hpre : forall t, In t pre ->
                   ~ In (Builder.text t) Units.unit_types)
    by (intros t [<- | []]; cbn; intuition discriminate).
  split; [exact Hk |]. split; [exact Hpre |].
  destruct (header_versions (String.concat " ") pre k nm rest
              UnitParse.new_state Hk Hpre)
    as (st' & legacy_name & out & H1 & _ & H2 & H3 & _ & _).
  exists st', legacy_name, out.
  split; [exact H1 |]. split; [exact H2 |]. split; [exact H3 |].
  vm_compute in H3. now injection H3 as <- _.
Defined.

(** ** Statements of the specification part *)

Ltac framed := split; [congruence | split; [congruence |]].

Section Recorded.

Import Builder DeclarationSpec Recorded.

Variable intrinsic_types : list string.
Variable is_docstring : list string -> bool.
Variable docstrip : list string -> string.
Variable interface_parse :
  list token -> list (list token) -> outcome (list statement * nat).
Variable unit_parse :
  list token -> list (list token) -> outcome (list statement * nat).

Lemma keeps_variables_refl (st : builder) : keeps_variables st st.
Proof. split; exists []; now rewrite app_nil_r. Qed.

Lemma keeps_variables_trans (st1 st2 st3 : builder) :
  keeps_variables st1 st2 -> keeps_variables st2 st3 ->
  keeps_variables st1 st3.
Proof.
  intros ((n1 & H1) & (r1 & R1)) ((n2 & H2) & (r2 & R2)). split.
  - exists (n1 ++ n2). now rewrite H2, H1, app_assoc.
  - exists (r1 ++ r2). now rewrite R2, R1, app_assoc.
Qed.

Lemma doc_after_keeps (st : builder) (tok : token) :
  statements (doc_after is_docstring docstrip st tok) = statements st /\
  namelists (doc_after is_docstring docstrip st tok) = namelists st /\
  keeps_variables st (doc_after is_docstring docstrip st tok).
Proof.
  unfold doc_after.
  destruct (is_docstring (tail tok) && negb (closes_group (tail tok)));
    [| destruct (group_doc st)];
    cbn [set_variables statements namelists];
    repeat split; try (exists []; cbn [set_variables variables report];
                       now rewrite ?set_last_doc_summary, app_nil_r).
Qed.

Lemma append_variable_keeps (st : builder) (v : variable) :
  statements (append_variable st v) = statements st /\
  namelists (append_variable st v) = namelists st /\
  keeps_variables st (append_variable st v).
Proof.
  unfold append_variable. cbn [set_variables statements namelists].
  split; [reflexivity |]. split; [reflexivity |]. split.
  - exists [summary v]. cbn [set_variables variables]. now rewrite map_app.
  - exists []. cbn [set_variables report]. now rewrite app_nil_r.
Qed.

Lemma add_report_keeps (st : builder) (d : diagnostic) :
  statements (add_report st d) = statements st /\
  namelists (add_report st d) = namelists st /\
  keeps_variables st (add_report st d).
Proof.
  unfold add_report. cbn [statements namelists].
  split; [reflexivity |]. split; [reflexivity |]. split.
  - exists []. cbn [variables]. now rewrite app_nil_r.
  - now exists [d].
Qed.

Lemma skip_to_close_returns {A : Type} (k : token -> list token -> outcome A)
    (tokens : list token) (r : A) :
  skip_to_close k tokens = Returns r ->
  exists close rest,
    k close rest = Returns r /\ length rest < length tokens.
Proof.
  induction tokens as [|tok rest IH]; [discriminate |].
  cbn [skip_to_close length]. destruct (is_ tok ")").
  - intros H. exists tok, rest. split; [exact H | lia].
  - intros H. destruct (IH H) as (close & rest' & Hk & Hlen).
    exists close, rest'. split; [exact Hk | lia].
Qed.

Lemma entities_keeps (vtype : token) (var_intent : option string) (n : nat) :
  forall tokens st st',
    length tokens <= n ->
    entities is_docstring docstrip vtype var_intent tokens st = Returns st' ->
    statements st' = statements st /\
    namelists st' = namelists st /\
    keeps_variables st st'.
Proof.
  induction n as [|n IH]; intros tokens st st' Hlen H.
  - destruct tokens; [| cbn [length] in Hlen; lia].
    injection H as <-. framed. apply keeps_variables_refl.
  - destruct tokens as [|tok rest].
    { injection H as <-. framed. apply keeps_variables_refl. }
    cbn [length] in Hlen. cbn [entities] in H.
    destruct (is_ tok "(").
    + apply skip_to_close_returns in H.
      destruct H as (close & rest' & H & Hlt).
      apply IH in H; [| lia].
      destruct (doc_after_keeps st close) as (S1 & N1 & K1).
      destruct H as (S2 & N2 & K2).
      framed.
      eapply keeps_variables_trans; [exact K1 | exact K2].
    + destruct (doc_after_keeps st tok) as (S1 & N1 & K1).
      set (st1 := doc_after is_docstring docstrip st tok) in *.
      destruct (is_ tok ",").
      * destruct (doc_after_keeps st1 tok) as (S2 & N2 & K2).
        set (st2 := doc_after is_docstring docstrip st1 tok) in *.
        destruct rest as [|tok' rest'].
        -- injection H as <-.
           destruct (add_report_keeps st2 EndComma) as (S3 & N3 & K3).
           destruct (append_variable_keeps (add_report st2 EndComma)
                       (next_variable is_docstring docstrip tok vtype
                          var_intent)) as (S4 & N4 & K4).
           framed.
           eapply keeps_variables_trans; [exact K1 |].
           eapply keeps_variables_trans; [exact K2 |].
           eapply keeps_variables_trans; [exact K3 | exact K4].
        -- apply IH in H; [| cbn [length] in Hlen; lia].
           destruct H as (S4 & N4 & K4).
           destruct (append_variable_keeps st2
                       (next_variable is_docstring docstrip tok' vtype
                          var_intent)) as (S3 & N3 & K3).
           framed.
           eapply keeps_variables_trans; [exact K1 |].
           eapply keeps_variables_trans; [exact K2 |].
           eapply keeps_variables_trans; [exact K3 | exact K4].
      * apply IH in H; [| lia]. destruct H as (S2 & N2 & K2).
        framed.
        eapply keeps_variables_trans; [exact K1 | exact K2].
Qed.

Lemma declare_keeps (vtype : token) (tokens line : list token)
    (st st' : builder) :
  declare is_docstring docstrip vtype tokens line st = Returns st' ->
  statements st' = statements st ++ [Statement "D" line] /\
  namelists st' = namelists st /\
  keeps_variables st st'.
Proof.
  unfold declare. intros H.
  apply bind_returns in H. destruct H as ([tok1 tokens1] & _ & H).
  apply bind_returns in H. destruct H as ([tok2 tokens2] & _ & H).
  apply bind_returns in H. destruct H as ([tok3 tokens3] & _ & H).
  apply bind_returns in H.
  destruct H as ([[tok4 tokens4] var_intent] & _ & H).
  apply bind_returns in H. destruct H as ([tok5 tokens5] & _ & H).
  apply bind_returns in H. destruct H as (st1 & He & H).
  apply (entities_keeps _ _ (length tokens5)) in He; [| lia].
  destruct He as (S1 & N1 & K1).
  destruct (append_variable_keeps st
              (first_variable is_docstring docstrip st tok5 vtype var_intent))
    as (S0 & N0 & K0).
  assert (K : keeps_variables st st1)
    by (eapply keeps_variables_trans; [exact K0 | exact K1]).
  injection H as <-.
  destruct (is_docstring _ && closes_group _);
    cbn [add_statement set_grp_docstr statements namelists];
    (split; [congruence | split; [congruence |]]);
    destruct K as (Kv & Kr); split; assumption.
Qed.

Lemma members_returns
    (k : option token -> list token -> builder -> outcome builder)
    (nml_group : string) (n : nat) :
  forall tokens tok st st',
    length tokens <= n ->
    members k nml_group tokens tok st = Returns st' ->
    exists tok' tokens' st1,
      k tok' tokens' st1 = Returns st' /\
      length tokens' <= length tokens /\
      variables st1 = variables st /\ statements st1 = statements st /\
      report st1 = report st.
Proof.
  induction n as [|n IH]; intros tokens tok st st' Hlen H.
  - destruct tokens; [| cbn [length] in Hlen; lia].
    cbn [members] in H. destruct tok as [t |];
      [destruct (truthy_token (Some t) && negb (is_ t "/")) |];
      eexists; eexists; eexists; (split; [exact H |]);
      repeat split; reflexivity.
  - destruct tokens as [|t1 rest].
    { cbn [members] in H. destruct tok as [t |];
        [destruct (truthy_token (Some t) && negb (is_ t "/")) |];
        eexists; eexists; eexists; (split; [exact H |]);
        repeat split; reflexivity. }
    cbn [length] in Hlen. cbn [members] in H.
    destruct tok as [t |];
      [| exists None, (t1 :: rest), st; repeat split; [exact H | lia]].
    destruct (truthy_token (Some t) && negb (is_ t "/"));
      [| exists (Some t), (t1 :: rest), st; repeat split; [exact H | lia]].
    apply bind_returns in H. destruct H as ([] & _ & H).
    destruct (is_ t1 ",").
    + destruct rest as [|t2 rest']; [discriminate |].
      apply IH in H; [| cbn [length] in Hlen; lia].
      destruct H as (tok' & tokens' & st1 & Hk & Hl & Hv & Hs & Hr).
      exists tok', tokens', st1. cbn [length] in *.
      repeat split; [exact Hk | lia | exact Hv | exact Hs | exact Hr].
    + apply IH in H; [| lia].
      destruct H as (tok' & tokens' & st1 & Hk & Hl & Hv & Hs & Hr).
      exists tok', tokens', st1. cbn [length] in *.
      repeat split; [exact Hk | lia | exact Hv | exact Hs | exact Hr].
Qed.

Lemma groups_keeps (n : nat) :
  forall tokens tok st st',
    length tokens <= n ->
    groups tokens tok st = Returns st' ->
    variables st' = variables st /\ statements st' = statements st /\
    report st' = report st.
Proof.
  induction n as [|n IH]; intros tokens tok st st' Hlen H.
  - destruct tokens; [| cbn [length] in Hlen; lia].
    cbn [groups] in H. destruct tok as [t |]; [| now injection H as <-].
    destruct (truthy_token (Some t)); [| now injection H as <-].
    apply bind_returns in H. now destruct H as ([] & _ & H).
  - destruct tokens as [|g t1].
    { cbn [groups] in H. destruct tok as [t |]; [| now injection H as <-].
      destruct (truthy_token (Some t)); [| now injection H as <-].
      apply bind_returns in H. now destruct H as ([] & _ & H). }
    cbn [groups] in H. destruct tok as [t |]; [| now injection H as <-].
    destruct (truthy_token (Some t)); [| now injection H as <-].
    apply bind_returns in H. destruct H as ([] & _ & H).
    destruct t1 as [|slash t2]; [discriminate |].
    apply bind_returns in H. destruct H as ([] & _ & H).
    destruct t2 as [|first t3]; [discriminate |].
    apply (members_returns _ _ (length t3)) in H; [| lia].
    destruct H as (tok' & tokens' & st1 & Hk & Hl & Hv & Hs & Hr).
    apply IH in Hk; [| cbn [length] in Hlen; lia].
    destruct Hk as (Hv' & Hs' & Hr').
    cbn [set_namelists variables statements report] in Hv, Hs, Hr.
    repeat split; congruence.
Qed.

Lemma parse_namelist_keeps (line : list token) (st st' : builder) :
  parse_namelist line st = Returns st' ->
  statements st' = statements st ++ [Statement "N" line] /\
  variables st' = variables st /\ report st' = report st.
Proof.
  unfold parse_namelist. destruct line as [|keyword rest]; [discriminate |].
  intros H. apply bind_returns in H. destruct H as ([] & _ & H).
  destruct rest as [|tok tokens]; [discriminate |].
  apply bind_returns in H. destruct H as (st1 & Hg & H).
  apply (groups_keeps (length tokens)) in Hg; [| lia].
  destruct Hg as (Hv & Hs & Hr). injection H as <-.
  cbn [add_statement statements variables report].
  repeat split; congruence.
Qed.

Lemma parse_declaration_keeps (line : list token) (st st' : builder) :
  parse_declaration intrinsic_types is_docstring docstrip line st
  = Returns st' ->
  exists tag,
    In tag ["D"; "X"; "N"] /\
    statements st' = statements st ++ [Statement tag line] /\
    keeps_variables st st' /\
    (tag <> "N" -> namelists st' = namelists st) /\
    (tag <> "D" -> variables st' = variables st /\ report st' = report st).
Proof.
  unfold parse_declaration. destruct line as [|tok tokens]; [discriminate |].
  set (st0 := if is_docstring (head tok) && opens_group (head tok)
              then set_grp_docstr st (Some (from_third (docstrip (head tok))))
              else st).
  assert (E0 : variables st0 = variables st /\
               statements st0 = statements st /\
               report st0 = report st /\ namelists st0 = namelists st).
  { unfold st0. destruct (is_docstring (head tok) && opens_group (head tok));
      repeat split. }
  destruct E0 as (V0 & S0 & R0 & N0).
  assert (HD : forall vtype tokens',
             declare is_docstring docstrip vtype tokens' (tok :: tokens) st0
             = Returns st' ->
             exists tag,
               In tag ["D"; "X"; "N"] /\
               statements st' = statements st ++ [Statement tag (tok :: tokens)]
               /\ keeps_variables st st' /\
               (tag <> "N" -> namelists st' = namelists st) /\
               (tag <> "D" ->
                variables st' = variables st /\ report st' = report st)).
  { intros vtype tokens' H. apply declare_keeps in H.
    destruct H as (Hs & Hn & (nw & Hv) & (r & Hr)).
    exists "D". split; [now left |]. rewrite <- S0, <- N0.
    split; [exact Hs |]. split; [| split; [tauto | congruence]].
    split; [exists nw | exists r]; congruence. }
  destruct (in_list (text tok) intrinsic_types); [apply HD |].
  destruct (is_ tok "type" || is_ tok "class").
  - intros H.
    apply bind_returns in H. destruct H as ([paren tokens1] & _ & H).
    apply bind_returns in H. destruct H as ([] & _ & H).
    apply bind_returns in H. destruct H as ([vtype tokens2] & _ & H).
    apply bind_returns in H. destruct H as ([paren' tokens3] & _ & H).
    apply bind_returns in H. destruct H as ([] & _ & H).
    now apply HD in H.
  - destruct (is_ tok "namelist").
    + intros H. apply parse_namelist_keeps in H.
      destruct H as (Hs & Hv & Hr). exists "N".
      split; [right; right; now left |]. rewrite <- S0.
      split; [exact Hs |]. split; [| split; [congruence |]].
      * split; exists []; rewrite app_nil_r; congruence.
      * intros _. split; congruence.
    + intros [= <-]. exists "X". split; [right; now left |].
      cbn [add_statement statements variables report namelists].
      rewrite S0, V0, R0, N0. split; [reflexivity |].
      split; [| tauto].
      split; exists []; cbn [add_statement variables report];
        rewrite app_nil_r; congruence.
Qed.

Lemma construct_keeps (lines : list (list token)) (line : list token)
    (st st' : builder) (read : nat) :
  parse_declaration_construct intrinsic_types is_docstring docstrip
    interface_parse unit_parse lines line st
  = Returns (st', read) ->
  (opens_block line = false /\ read = 0 /\ statement_recorded line st st') \/
  (opens_block line = true /\
   exists block,
     statements st' = statements st ++ [Statements block] /\
     variables st' = variables st /\ report st' = report st /\
     namelists st' = namelists st /\
     exists tok rest,
       line = tok :: rest /\
       if is_ tok "interface"
       then interface_parse line lines = Returns (block, read) /\
            interfaces st' = interfaces st ++ [block] /\
            derived_types st' = derived_types st
       else unit_parse line lines = Returns (block, read) /\
            interfaces st' = interfaces st /\
            derived_types st' =
              derived_types st ++ [Builder.Derived (List.last line tok) block]).
Proof.
  assert (HP : forall r,
             (st ← parse_declaration intrinsic_types is_docstring docstrip
                     line st;
              Returns (st, 0)) = Returns (st', r) ->
             r = 0 /\ statement_recorded line st st').
  { intros r H. apply bind_returns in H. destruct H as (b & H & E).
    injection E as -> <-. split; [reflexivity |].
    apply parse_declaration_keeps in H.
    destruct H as (tag & Hin & H). exists tag. split; [| exact H].
    unfold construct_tags. cbn [In] in *. tauto. }
  assert (HS : forall tag r,
             In tag ["d"; "p"] ->
             Returns (add_statement st (Statement tag line), 0)
             = Returns (st', r) ->
             r = 0 /\ statement_recorded line st st').
  { intros tag r Hin [= <- <-]. split; [reflexivity |]. exists tag. split.
    - unfold construct_tags. cbn [In] in *. tauto.
    - cbn [add_statement statements variables report namelists].
      split; [reflexivity |]. split; [| tauto].
      split; exists []; cbn [add_statement variables report];
        now rewrite app_nil_r. }
  assert (HU : forall tok rest,
             line = tok :: rest -> is_ tok "interface" = false ->
             parse_derived_type unit_parse lines line tok st
             = Returns (st', read) ->
             exists block,
               statements st' = statements st ++ [Statements block] /\
               variables st' = variables st /\ report st' = report st /\
               namelists st' = namelists st /\
               exists tok rest,
                 line = tok :: rest /\
                 if is_ tok "interface"
                 then interface_parse line lines = Returns (block, read) /\
                      interfaces st' = interfaces st ++ [block] /\
                      derived_types st' = derived_types st
                 else unit_parse line lines = Returns (block, read) /\
                      interfaces st' = interfaces st /\
                      derived_types st' =
                        derived_types st
                        ++ [Builder.Derived (List.last line tok) block]).
  { intros tok rest El Hi H. unfold parse_derived_type in H.
    apply bind_returns in H. destruct H as ([block rd] & Hp & H).
    injection H as <- <-. exists block.
    cbn [add_statement add_derived_type statements variables report
         namelists interfaces derived_types].
    repeat (split; [reflexivity |]).
    exists tok, rest. split; [exact El |]. rewrite Hi. now repeat split. }
  unfold parse_declaration_construct.
  destruct line as [|tok rest]; [discriminate |].
  cbn [opens_block]. unfold is_abstract_interface.
  rewrite andb_false_r, orb_false_r.
  destruct (is_ tok "interface") eqn:Hi; cbn [orb].
  { intros H. right. split; [reflexivity |]. unfold parse_interface in H.
    apply bind_returns in H. destruct H as ([block rd] & Hp & H).
    injection H as <- <-. exists block.
    cbn [add_statement add_interface statements variables report
         namelists interfaces derived_types].
    repeat (split; [reflexivity |]).
    exists tok, rest. split; [reflexivity |]. rewrite Hi. now repeat split. }
  destruct (is_ tok "enum") eqn:He; cbn [orb].
  { intros H. right. split; [reflexivity |].
    now apply (HU tok rest). }
  destruct (is_ tok "type") eqn:Ht; cbn [andb].
  - destruct rest as [|t rest']; [discriminate |].
    cbn [second mbind outcome_bind].
    destruct (is_ t "("); cbn [negb].
    + intros H. left. split; [reflexivity |]. now apply HP.
    + intros H. right. split; [reflexivity |]. now apply (HU tok (t :: rest')).
  - intros H. left. split; [reflexivity |]. revert H.
    destruct (in_list (text tok) access_specs);
      [apply HS; now left |].
    destruct (is_ tok "data"); [apply HS; now left |].
    destruct (is_ tok "parameter"); [apply HS; right; now left |].
    apply HP.
Qed.

End Recorded.

(** Whatever the line, a call of [parse_declaration_construct] that returns
    has appended exactly one element to the statements.  For a line that
    opens a nested block ([interface], [enum], [type] without a parenthesis
    after it) the element is the list of statements of the block, as the
    parser of the block returns it together with the number of lines that
    it took; the block is appended to the interfaces or to the derived
    types, and the variables, diagnostics and namelists are as they were.
    For any other line the element is the line as one statement with one of
    the tags [D], [X], [N], [d], [p], and no line is taken; the variables
    and diagnostics that were there are still there, only a declaration
    ([D]) adds to them, and only a namelist statement ([N]) changes the
    namelists. *)
Theorem construct_recorded (intrinsic_types : list string)
    (is_docstring : list string -> bool) (docstrip : list string -> string)
    (interface_parse unit_parse :
       list Builder.token -> list (list Builder.token) ->
       outcome (list Builder.statement * nat))
    (lines : list (list Builder.token))
    (line : list Builder.token) (st st' : Builder.builder) (read : nat) :
  Builder.parse_declaration_construct intrinsic_types is_docstring docstrip
    interface_parse unit_parse lines line st = Returns (st', read) ->
  (Recorded.opens_block line = false /\ read = 0 /\
   exists tag,
     In tag Recorded.construct_tags /\
     Builder.statements st' =
       Builder.statements st ++ [Builder.Statement tag line] /\
     Recorded.keeps_variables st st' /\
     (tag <> "N" -> Builder.namelists st' = Builder.namelists st) /\
     (tag <> "D" ->
      Builder.variables st' = Builder.variables st /\
      Builder.report st' = Builder.report st)) \/
  (Recorded.opens_block line = true /\
   exists block,
     Builder.statements st' =
       Builder.statements st ++ [Builder.Statements block] /\
     Builder.variables st' = Builder.variables st /\
     Builder.report st' = Builder.report st /\
     Builder.namelists st' = Builder.namelists st /\
     exists tok rest,
       line = tok :: rest /\
       if Builder.is_ tok "interface"
       then interface_parse line lines = Returns (block, read) /\
            Builder.interfaces st' = Builder.interfaces st ++ [block] /\
            Builder.derived_types st' = Builder.derived_types st
       else unit_parse line lines = Returns (block, read) /\
            Builder.interfaces st' = Builder.interfaces st /\
            Builder.derived_types st' =
              Builder.derived_types st
              ++ [Builder.Derived (List.last line tok) block]).
Proof. apply construct_keeps. Qed.

Lemma construct_recorded_witness :
  let isd := fun doc : list string => negb (bool_decide (doc = [])) in
  let block_parse :=
    fun (line : list Builder.token) (_ : list (list Builder.token)) =>
      Returns ([Builder.Statement "B" line], 2) in
  let line := map Builder.word ["interface"; "area"] in
  let lines :=
    [map Builder.word ["module"; "procedure"; "disc"];
     map Builder.word ["end"; "interface"];
     map Builder.word ["real"; "::"; "x"]] in
  let st :=
    Builder.Build [Builder.Variable_ "n" "integer" (Some "in") None] ∅
      [Builder.Statement "D" (map Builder.word ["integer"; "::"; "n"])]
      None [] [] [] in
  exists st' block,
    Builder.parse_declaration_construct Legacy.intrinsic_types isd
      (String.concat " ") block_parse block_parse lines line st
    = Returns (st', 2) /\
    Builder.statements st' =
      Builder.statements st ++ [Builder.Statements block] /\
    Builder.variables st' = Builder.variables st.
Proof.
  intros isd block_parse line lines st.
  destruct (Builder.parse_declaration_construct Legacy.intrinsic_types isd
              (String.concat " ") block_parse block_parse lines line st)
    as [[st' read] | e] eqn:H; [| vm_compute in H; discriminate].
  assert (Hread : read = 2) by (vm_compute in H; now injection H as _ <-).
  destruct (construct_recorded _ _ _ _ _ _ _ _ _ _ H)
    as [(Hflat & _) | (_ & block & Hs & Hv & _)];
    [vm_compute in Hflat; discriminate |].
  exists st', block. rewrite Hread.
  split; [reflexivity |]. split; [exact Hs | exact Hv].
Defined.

(** [abstract interface] opens no block for [parse_declaration_construct]:
    the slice [line[:2]] is a list and the test compares it with a tuple,
    so that the line is recorded with the tag [X]. *)
Lemma abstract_interface_unhandled :
  let line := map Builder.word ["abstract"; "interface"] in
  Builder.parse_declaration_construct Legacy.intrinsic_types
    (fun doc => negb (bool_decide (doc = []))) (String.concat " ")
    (fun _ _ => Returns ([], 0)) (fun _ _ => Returns ([], 0)) []
    line Builder.new_unit
  = Returns (Builder.add_statement Builder.new_unit
               (Builder.Statement "X" line), 0).
Proof. vm_compute. reflexivity. Qed.

(** ** The loop of the specification part *)


Section SpecificationLoop.

Import Builder UnitParse Recorded.

Variable intrinsic_types : list string.
Variable is_docstring : list string -> bool.
Variable docstrip : list string -> string.
Variable interface_parse :
  list token -> list (list token) -> outcome (list statement * nat).
Variable unit_parse :
  list token -> list (list token) -> outcome (list statement * nat).





End SpecificationLoop.



(** [parse_use_stmt] returns exactly on the lines [use m ...],
    [use :: m ...], [use , nature m ...] and [use , nature :: m ...],
    where [m] is the token that it adds to the used modules; the first
    token is not looked at, and the line is recorded with the tag [U]. *)
Theorem use_stmt_module (line : list Builder.token)
    (st st' : UnitParse.unit_state) :
  UnitParse.parse_use_stmt line st = Returns st' <->
  exists m,
    st' = UnitParse.record_statement
            (UnitParse.UnitState (UnitParse.name st) (UnitParse.utype st)
               ({[Builder.text m]} ∪ UnitParse.used_modules st)
               (UnitParse.doc_header st) (UnitParse.doc_docstring st)
               (UnitParse.doc_statement st) (UnitParse.build st))
            "U" line /\
    ((exists kw rest,
        line = kw :: m :: rest /\
        Builder.is_ m "," = false /\ Builder.is_ m "::" = false) \/
     (exists kw sep rest,
        line = kw :: sep :: m :: rest /\ Builder.is_ sep "::" = true) \/
     (exists kw comma nature rest,
        line = kw :: comma :: nature :: m :: rest /\
        Builder.is_ comma "," = true /\ Builder.is_ m "::" = false) \/
     (exists kw comma nature sep rest,
        line = kw :: comma :: nature :: sep :: m :: rest /\
        Builder.is_ comma "," = true /\ Builder.is_ sep "::" = true)).
Proof.
  unfold UnitParse.parse_use_stmt, UnitParse.item. cbv zeta. split.
  - intros H. destruct line as [|kw [|t1 rest]]; try discriminate.
    cbn [nth_error mbind outcome_bind] in H.
    destruct (Builder.is_ t1 ",") eqn:Hc.
    + cbn [Nat.add nth_error] in H.
      destruct rest as [|nature [|t3 rest]]; try discriminate.
      cbn [mbind outcome_bind] in H.
      destruct (Builder.is_ t3 "::") eqn:Hs.
      * cbn [Nat.add nth_error] in H.
        destruct rest as [|m rest]; try discriminate.
        cbn [mbind outcome_bind] in H. injection H as <-.
        exists m. split; [reflexivity |]. right. right. right.
        now exists kw, t1, nature, t3, rest.
      * cbn [nth_error mbind outcome_bind] in H. injection H as <-.
        exists t3. split; [reflexivity |]. right. right. left.
        now exists kw, t1, nature, rest.
    + cbn [nth_error mbind outcome_bind] in H.
      destruct (Builder.is_ t1 "::") eqn:Hs.
      * cbn [Nat.add nth_error] in H.
        destruct rest as [|m rest]; try discriminate.
        cbn [mbind outcome_bind] in H. injection H as <-.
        exists m. split; [reflexivity |]. right. left.
        now exists kw, t1, rest.
      * cbn [nth_error mbind outcome_bind] in H. injection H as <-.
        exists t1. split; [reflexivity |]. left. now exists kw, rest.
  - intros (m & -> & [(kw & rest & -> & Hc & Hs)
                     | [(kw & sep & rest & -> & Hs)
                       | [(kw & comma & nature & rest & -> & Hc & Hs)
                         | (kw & comma & nature & sep & rest & -> & Hc
                            & Hs)]]]);
      cbn [nth_error mbind outcome_bind].
    + rewrite Hc. cbn [nth_error mbind outcome_bind]. now rewrite Hs.
    + assert (Hc : Builder.is_ sep "," = false).
      { unfold Builder.is_ in *. apply String.eqb_eq in Hs. now rewrite Hs. }
      rewrite Hc. cbn [nth_error mbind outcome_bind]. now rewrite Hs.
    + rewrite Hc. cbn [Nat.add nth_error mbind outcome_bind]. now rewrite Hs.
    + rewrite Hc. cbn [Nat.add nth_error mbind outcome_bind]. now rewrite Hs.
Qed.

(** ** Namelist statements that are well formed *)

Section NamelistGroups.

Import Builder DeclarationSpec Namelists.

Lemma add_members (nml_group : string) (ts : list token) :
  forall (l : list string) (st : builder),
    namelists st !! nml_group = Some l ->
    fold_left (fun st t => add_member st nml_group t) ts st =
    set_namelists st (<[nml_group := l ++ map text ts]> (namelists st)).
Proof.
  induction ts as [|t ts IH]; intros l st Hl; cbn [fold_left map].
  - rewrite app_nil_r, insert_id by exact Hl. now destruct st.
  - rewrite (IH (l ++ [text t])).
    + unfold add_member.
      cbn [set_namelists namelists variables statements grp_docstr report].
      rewrite <- app_assoc. cbn [app]. f_equal. apply map_eq. intros i.
      destruct (decide (i = nml_group)) as [-> | Hne].
      * now rewrite !lookup_insert_eq.
      * rewrite !lookup_insert_ne by congruence.
        now rewrite lookup_alter_ne by congruence.
    + unfold add_member. cbn [set_namelists namelists].
      rewrite lookup_alter_eq, Hl. reflexivity.
Qed.

Lemma members_all
    (k : option token -> list token -> builder -> outcome builder)
    (nml_group : string) (others : list token) :
  forall (first : token) (st : builder) (tl : list token),
    member_name first = true ->
    forallb member_name others = true ->
    match tl with [] => True | s :: _ => is_ s "/" = true end ->
    members k nml_group (flat_map (fun n => [word ","; n]) others ++ tl)
      (Some first) st
    = k (hd_error tl) (List.tl tl)
        (fold_left (fun st t => add_member st nml_group t) (first :: others)
           st).
Proof.
  induction others as [|o others IH]; intros first st tl Hf Ho Htl.
  - cbn [flat_map app fold_left]. unfold member_name in Hf.
    destruct tl as [|s rest]; cbn [members truthy_token].
    + now rewrite Hf.
    + rewrite Hf, Htl, orb_true_r.
      cbn [assert_ mbind outcome_bind].
      assert (Hs : is_ s "," = false).
      { unfold is_ in *. apply String.eqb_eq in Htl. now rewrite Htl. }
      rewrite Hs.
      assert (Hstop : truthy_token (Some s) && negb (is_ s "/") = false)
        by (rewrite Htl; apply andb_false_r).
      cbn [truthy_token] in Hstop.
      destruct rest as [|r rest]; cbn [members truthy_token];
        rewrite Hstop; reflexivity.
  - cbn [forallb] in Ho. apply andb_true_iff in Ho. destruct Ho as (Ho & Hos).
    cbn [flat_map app fold_left]. unfold member_name in Hf.
    cbn [members truthy_token]. rewrite Hf.
    change (is_ (word ",") ",") with true.
    cbn [orb assert_ mbind outcome_bind].
    rewrite (IH o _ tl Ho Hos Htl). reflexivity.
Qed.

Lemma groups_all (gs : list group) :
  forall st,
    forallb group_ok gs = true ->
    groups (List.tl (flat_map group_tokens gs))
      (hd_error (flat_map group_tokens gs)) st
    = Returns (set_namelists st (fold_left recorded gs (namelists st))).
Proof.
  induction gs as [|g gs IH]; intros st Hok.
  - cbn [flat_map hd_error List.tl groups fold_left]. now destruct st.
  - cbn [forallb] in Hok. apply andb_true_iff in Hok.
    destruct Hok as (Hg & Hgs). unfold group_ok in Hg.
    apply andb_true_iff in Hg. destruct Hg as (Hf & Ho).
    cbn [flat_map fold_left]. unfold group_tokens at 1 2.
    cbn [app hd_error List.tl groups truthy_token word text String.eqb
         Ascii.eqb Bool.eqb negb is_ assert_ mbind outcome_bind].
    rewrite members_all; [| exact Hf | exact Ho |].
    + rewrite IH by exact Hgs. f_equal.
      rewrite (add_members _ _ []).
      * cbn [set_namelists namelists variables statements grp_docstr report
             app].
        rewrite insert_insert_eq. reflexivity.
      * cbn [set_namelists namelists]. apply lookup_insert_eq.
    + destruct gs as [|g' gs']; [exact I | reflexivity].
Qed.

End NamelistGroups.

(** A namelist statement [namelist /g/ a, b /h/ c ...], whose members are
    tokens other than [/] and the empty one, is read without error: each
    group gets its members in order, a group named again starts anew, the
    line is recorded with the tag [N], and nothing else changes. *)
Theorem namelist_recorded (gs : list Namelists.group)
    (st : Builder.builder) :
  gs <> [] ->
  forallb Namelists.group_ok gs = true ->
  Builder.parse_namelist (Namelists.namelist_statement gs) st =
  Returns
    (Builder.add_statement
       (Builder.set_namelists st
          (fold_left Namelists.recorded gs (Builder.namelists st)))
       (Builder.Statement "N" (Namelists.namelist_statement gs))).
Proof.
  intros Hne Hok. unfold Builder.parse_namelist, Namelists.namelist_statement.
  cbn [Builder.is_ Builder.word Builder.text String.eqb Ascii.eqb Bool.eqb
       assert_ mbind outcome_bind].
  pose proof (groups_all gs st Hok) as H.
  destruct (flat_map Namelists.group_tokens gs) as [|tok tokens] eqn:E.
  - destruct gs; [congruence | discriminate].
  - cbn [hd_error List.tl] in H. now rewrite H.
Qed.

Lemma namelist_recorded_witness :
  let gs :=
    [Namelists.Group (Builder.word "grid") (Builder.word "nx")
       [Builder.word "ny"];
     Namelists.Group (Builder.word "run") (Builder.word "dt") []] in
  Namelists.namelist_statement gs =
    map Builder.word
      ["namelist"; "/"; "grid"; "/"; "nx"; ","; "ny"; "/"; "run"; "/"; "dt"]
  /\
  exists st',
    Builder.parse_namelist (Namelists.namelist_statement gs) Builder.new_unit
    = Returns st' /\
    Builder.namelists st' !! "grid" = Some ["nx"; "ny"] /\
    Builder.namelists st' !! "run" = Some ["dt"].
Proof.
  intros gs. split; [reflexivity |].
  eexists. split.
  - apply (namelist_recorded gs Builder.new_unit); [discriminate |].
    reflexivity.
  - split; reflexivity.
Defined.

(** ** src/flint/unit.py: the loop of the specification part *)

Section LegacyLoop.

Import LegacyParse LegacySpec.

Lemma legacy_loop (lines : list (list string)) :
  forall out stop rest,
    parse_specification lines = Returns (out, stop, rest) ->
    exists consumed,
      lines = consumed ++ match stop with
                          | Some l => l :: rest
                          | None => rest
                          end /\
      (stop = None -> rest = []) /\
      Forall2
        (fun l o =>
           exists w0 tl tag,
             l = w0 :: tl /\ specification_keyword w0 = true /\
             In tag ["U"; "i"; "I"; "D"] /\ o = printed tag l /\
             (w0 <> "use" -> w0 <> "import" ->
              occurs_in w0 "implicit" = true -> tag = "I"))
        consumed out /\
      (forall l, stop = Some l ->
         exists w0 tl, l = w0 :: tl /\ specification_keyword w0 = false).
Proof.
  induction lines as [|line lines IH]; intros out stop rest H.
  - injection H as <- <- <-. exists []. repeat split; [constructor |].
    discriminate.
  - cbn [parse_specification] in H. destruct line as [|w0 tl];
      [discriminate |].
    assert (Hgo : forall tag,
               In tag ["U"; "i"; "I"; "D"] ->
               specification_keyword w0 = true ->
               (w0 <> "use" -> w0 <> "import" ->
                occurs_in w0 "implicit" = true -> tag = "I") ->
               ('(out, stop, rest') ← parse_specification lines;
                Returns (printed tag (w0 :: tl) :: out, stop, rest'))
               = Returns (out, stop, rest) ->
               exists consumed,
                 (w0 :: tl) :: lines = consumed ++ match stop with
                                                   | Some l => l :: rest
                                                   | None => rest
                                                   end /\
                 (stop = None -> rest = []) /\
                 Forall2
                   (fun l o =>
                      exists w0 tl tag,
                        l = w0 :: tl /\ specification_keyword w0 = true /\
                        In tag ["U"; "i"; "I"; "D"] /\ o = printed tag l /\
                        (w0 <> "use" -> w0 <> "import" ->
                         occurs_in w0 "implicit" = true -> tag = "I"))
                   consumed out /\
                 (forall l, stop = Some l ->
                    exists w0 tl,
                      l = w0 :: tl /\ specification_keyword w0 = false)).
    { intros tag Htag Hkey HI Hb. apply bind_returns in Hb.
      destruct Hb as ([[out' stop'] rest'] & Hrest & Hb).
      injection Hb as <- <- <-. apply IH in Hrest.
      destruct Hrest as (consumed & El & Hex & Hall & Hbr).
      exists ((w0 :: tl) :: consumed).
      split; [cbn [app]; now rewrite <- El |]. split; [exact Hex |].
      split; [| exact Hbr]. constructor; [| exact Hall].
      exists w0, tl, tag. repeat split; assumption. }
    unfold specification_keyword in Hgo. cbv zeta in H.
    destruct (String.eqb_spec w0 "use") as [Euse | Nuse].
    { apply (Hgo "U"); [cbn; tauto | reflexivity | congruence | exact H]. }
    destruct (String.eqb_spec w0 "import") as [Eimport | Nimport].
    { apply (Hgo "i"); [cbn; tauto | reflexivity | congruence | exact H]. }
    destruct (occurs_in w0 "implicit") eqn:Himplicit.
    { apply (Hgo "I"); [cbn; tauto | reflexivity | reflexivity | exact H]. }
    destruct (in_list w0 declaration_types) eqn:Hdecl.
    { apply (Hgo "D"); [cbn; tauto | reflexivity | discriminate | exact H]. }
    injection H as <- <- <-. exists [].
    split; [reflexivity |]. split; [discriminate |].
    split; [constructor |]. intros l [= <-]. exists w0, tl.
    split; [reflexivity |]. unfold specification_keyword.
    rewrite Himplicit, Hdecl.
    destruct (String.eqb_spec w0 "use"); [contradiction |].
    destruct (String.eqb_spec w0 "import"); [contradiction |]. reflexivity.
Qed.

End LegacyLoop.

(** The loop of the earlier [parse_specification] prints each line it reads
    with one of the tags [U], [i], [I], [D], in order, and breaks on the
    first line that starts with another word.  Its test for [implicit] is a
    substring test: a line whose first word is a part of that word, such as
    [i] or [licit], is printed as an implicit statement. *)
Theorem legacy_specification (lines rest : list (list string))
    (out : list string) (stop : option (list string)) :
  LegacyParse.parse_specification lines = Returns (out, stop, rest) ->
  exists consumed,
    lines = consumed ++ match stop with
                        | Some l => l :: rest
                        | None => rest
                        end /\
    (stop = None -> rest = []) /\
    Forall2
      (fun l o =>
         exists w0 tl tag,
           l = w0 :: tl /\ LegacySpec.specification_keyword w0 = true /\
           In tag ["U"; "i"; "I"; "D"] /\ o = LegacyParse.printed tag l /\
           (w0 <> "use" -> w0 <> "import" ->
            LegacyParse.occurs_in w0 "implicit" = true -> tag = "I"))
      consumed out /\
    (forall l, stop = Some l ->
       exists w0 tl,
         l = w0 :: tl /\ LegacySpec.specification_keyword w0 = false).
Proof. apply legacy_loop. Qed.

Lemma legacy_specification_witness :
  let lines :=
    [["use"; "grid"]; ["implicit"; "none"]; ["i"; "="; "1"];
     ["call"; "run"; "("; "i"; ")"]] in
  LegacyParse.parse_specification lines =
    Returns (["U: use grid"; "I: implicit none"; "I: i = 1"],
             Some ["call"; "run"; "("; "i"; ")"], []) /\
  exists consumed,
    lines = consumed ++ [["call"; "run"; "("; "i"; ")"]] /\
    Forall2
      (fun l o =>
         exists w0 tl tag,
           l = w0 :: tl /\ LegacySpec.specification_keyword w0 = true /\
           In tag ["U"; "i"; "I"; "D"] /\ o = LegacyParse.printed tag l /\
           (w0 <> "use" -> w0 <> "import" ->
            LegacyParse.occurs_in w0 "implicit" = true -> tag = "I"))
      consumed ["U: use grid"; "I: implicit none"; "I: i = 1"].
Proof.
  intros lines.
  assert (H : LegacyParse.parse_specification lines =
              Returns (["U: use grid"; "I: implicit none"; "I: i = 1"],
                       Some ["call"; "run"; "("; "i"; ")"], []))
    by reflexivity.
  split; [exact H |].
  destruct (legacy_specification _ _ _ _ H) as (consumed & El & _ & HF & _).
  exists consumed. split; [exact El | exact HF].
Defined.

(** ** makemake: the option [--executable] *)

Lemma providers_known_witness :
  let p :=
    MakeMake.Project
      [MakeMake.Source "src/m.f90"
         [MakeMake.Unit (Some "M") "module" [] []
            [MakeMake.Unit (Some "ext") "subroutine" [] ["helper"] []]]]
      ["ext"] in
  exists l st,
    MakeMake.first_pass p = Returns l /\
    MakeMake.second_pass p l = Returns st /\
    MakeMake.object_file_for st !! "helper" = Some "m.o" /\
    In "m.o" (MakeMake.object_names (MakeMake.sources p)) /\
    (In "helper" (MakeMake.module_names (MakeMake.sources p)) \/
     In "helper" (MakeMake.externals p) \/
     In "helper" (Passes.project_callees (MakeMake.sources p))).
Proof.
  intros p.
  destruct (MakeMake.first_pass p) as [l | e] eqn:H1;
    [| vm_compute in H1; discriminate].
  destruct (MakeMake.second_pass p l) as [st | e] eqn:H2;
    [| revert H2; injection H1 as <-; vm_compute; discriminate].
  assert (Hk : MakeMake.object_file_for st !! "helper" = Some "m.o").
  { revert H2. injection H1 as <-. vm_compute. now intros [= <-]. }
  exists l, st. split; [reflexivity |]. split; [exact H2 |].
  split; [exact Hk |].
  exact (providers_known p l st "helper" "m.o" H1 H2 Hk).
Defined.

Lemma use_unit_provider_witness :
  let u := MakeMake.Unit (Some "solve") "subroutine" [] [] [] in
  exists st',
    MakeMake.use_unit ["solve"] [] "solve.o" MakeMake.no_usage u
    = Returns st' /\
    MakeMake.object_file_for st' !! "solve" = Some "solve.o".
Proof.
  intros u.
  destruct (MakeMake.use_unit ["solve"] [] "solve.o" MakeMake.no_usage u)
    as [st' | e] eqn:H; [| vm_compute in H; discriminate].
  exists st'. split; [reflexivity |].
  exact (use_unit_provider ["solve"] [] "solve.o" MakeMake.no_usage st' u
           "solve" eq_refl eq_refl H).
Defined.

Lemma link_pass_single (st : MakeMake.usage)
    (nflb : gmap string (list string)) (x : string) (obj : string) :
  MakeMake.link_pass [(Some x, obj)] st nflb =
  match MakeMake.object_file_for st !! x with
  | Some o => Returns [(Some x, MakeMake.generate_link_list [o] nflb [] 0)]
  | None => Raises KeyError
  end.
Proof.
  unfold MakeMake.link_pass, MakeMake.link_rule, MakeMake.object_of_program.
  cbn [dict_keys map fst for_each].
  now destruct (MakeMake.object_file_for st !! x).
Qed.

(** With the option [--executable x]: [makemake] raises [IndexError] for a
    project without a program and the [SeveralPrograms] assertion for one
    with two or more.  With one program, the rule is written for [x] and
    lists what [object_file_for] gives for [x]; the object file of the
    program is not looked at, and [makemake] raises [KeyError] when [x] has
    no entry. *)
Theorem executable_option (p : MakeMake.project) (l : MakeMake.listing)
    (st : MakeMake.usage) (x : string) :
  MakeMake.first_pass p = Returns l ->
  MakeMake.second_pass p l = Returns st ->
  MakeMake.makemake p (Some x) =
  match MakeMake.program_names (MakeMake.sources p) with
  | [] => Raises IndexError
  | [_] =>
      match MakeMake.object_file_for st !! x with
      | Some o =>
          Returns [(Some x,
                    MakeMake.generate_link_list [o] (MakeMake.third_pass l st)
                      [] 0)]
      | None => Raises KeyError
      end
  | _ :: _ :: _ => Raises (AssertionError SeveralPrograms)
  end.
Proof.
  intros H1 H2. unfold MakeMake.makemake. rewrite H1.
  cbn [mbind outcome_bind].
  pose proof (list_sources_returns _ _ _ H1) as (_ & Hp & _).
  cbn [MakeMake.no_listing MakeMake.programs dict_keys map app] in Hp.
  fold (dict_keys (MakeMake.programs l)) in Hp. rewrite <- Hp.
  unfold MakeMake.name_executable.
  destruct (MakeMake.programs l) as [|[k obj] [|kv rest]];
    cbn [dict_keys map fst length Nat.ltb Nat.leb assert_ mbind outcome_bind
         dict_set].
  - reflexivity.
  - rewrite H2. cbn [mbind outcome_bind]. apply link_pass_single.
  - reflexivity.
Qed.

Lemma executable_option_witness :
  let p :=
    MakeMake.Project
      [MakeMake.Source "src/main.f90"
         [MakeMake.Unit (Some "main") "program" [] [] []]]
      ["main"] in
  (exists l st,
     MakeMake.first_pass p = Returns l /\
     MakeMake.second_pass p l = Returns st /\
     MakeMake.object_file_for st !! "main" = Some "main.o" /\
     MakeMake.object_file_for st !! "a.out" = None) /\
  MakeMake.makemake p (Some "a.out") = Raises KeyError.
Proof.
  intros p.
  destruct (MakeMake.first_pass p) as [l | e] eqn:H1;
    [| vm_compute in H1; discriminate].
  destruct (MakeMake.second_pass p l) as [st | e] eqn:H2;
    [| revert H2; injection H1 as <-; vm_compute; discriminate].
  assert (Hk : MakeMake.object_file_for st !! "main" = Some "main.o" /\
               MakeMake.object_file_for st !! "a.out" = None).
  { revert H2. injection H1 as <-. vm_compute. now intros [= <-]. }
  split; [exists l, st; tauto |].
  rewrite (executable_option p l st "a.out" H1 H2).
  cbn [MakeMake.program_names MakeMake.sources p flat_map MakeMake.units
       MakeMake.unit_programs MakeMake.utype String.eqb Ascii.eqb Bool.eqb
       app].
  now rewrite (proj2 Hk).
Defined.

(** ** A declaration that ends with a comma *)

Section DanglingComma.

Import Builder DeclarationSpec.

Variable intrinsic_types : list string.
Variable is_docstring : list string -> bool.
Variable docstrip : list string -> string.




End DanglingComma.



(** ** After the header *)

(** Once [parse_header] has returned, the unit has a kind, so that the
    [assert] of [end_statement] holds: [end_statement] returns on every
    line that is not empty, and raises [IndexError] on the empty one. *)
Theorem end_statement_after_header (docstrip : list string -> string)
    (line : list Builder.token) (st st' : UnitParse.unit_state)
    (l : list string) :
  UnitParse.parse_header docstrip line st = Returns st' ->
  (l = [] ->
   Units.end_statement (UnitParse.utype st') l = Raises IndexError) /\
  (l <> [] ->
   exists r, Units.end_statement (UnitParse.utype st') l = Returns r).
Proof.
  intros H.
  destruct (parse_header_cases docstrip line st)
    as [(_ & E)
       | [(pre & k & _ & _ & _ & _ & E)
         | (pre & k & rest & tag & first & final & _ & _ & Hk & _ & Htag & _
            & _ & E)]];
    rewrite E in H; try discriminate.
  injection H as <-. cbn [UnitParse.utype]. unfold Units.end_statement.
  assert (Hne : String.eqb (Builder.text k) "" = false).
  { destruct (Builder.text k); [discriminate | reflexivity]. }
  rewrite Hne. split.
  - now intros ->.
  - intros Hl. destruct l as [|w0 tl]; [contradiction |].
    destruct (String.prefix "end" w0); [| eexists; reflexivity].
    destruct (_ && _); [eexists; reflexivity |].
    destruct (_ && _); eexists; reflexivity.
Qed.

Lemma end_statement_after_header_witness :
  exists st',
    UnitParse.parse_header (String.concat " ")
      (map Builder.word ["module"; "grid"]) UnitParse.new_state
    = Returns st' /\
    (["end"; "module"; "grid"] <> [] ->
     exists r,
       Units.end_statement (UnitParse.utype st') ["end"; "module"; "grid"]
       = Returns r).
Proof.
  destruct (UnitParse.parse_header (String.concat " ")
              (map Builder.word ["module"; "grid"]) UnitParse.new_state)
    as [st' | e] eqn:H; [| vm_compute in H; discriminate].
  exists st'. split; [reflexivity |].
  exact (proj2 (end_statement_after_header _ _ _ _
                  ["end"; "module"; "grid"] H)).
Defined.

(** ** src/flint/unit.py: the name of a unit *)

(** The earlier [parse_name] raises [StopIteration] exactly when no word
    of the line is a unit keyword, and nothing else: where the later
    [parse_header] raises [IndexError], it returns.  The kind it returns is
    a unit keyword of the line, and the name is the second word of a line
    of two words or more, whatever that word is. *)
Theorem legacy_parse_name (line : list string) :
  (LegacyParse.parse_name line = Raises StopIteration <->
   forall w, In w line -> ~ In w Legacy.unit_types) /\
  (forall e, LegacyParse.parse_name line = Raises e -> e = StopIteration) /\
  (forall k n out,
     LegacyParse.parse_name line = Returns (k, n, out) ->
     In k Legacy.unit_types /\ In k line /\
     n = (if Nat.leb 2 (length line) then nth_error line 1 else None)).
Proof.
  unfold LegacyParse.parse_name.
  destruct (find (fun w => in_list w Legacy.unit_types) line) as [k |] eqn:Hf.
  - apply find_some in Hf. destruct Hf as (Hin & Hk).
    assert (HkU : in_list k Units.unit_types = true)
      by (rewrite unit_types_extend, Hk; reflexivity).
    destruct (first_upper_keyword k HkU) as (tag & -> & _).
    cbn [mbind outcome_bind]. split; [| split].
    + split; [discriminate |]. intros Hnone. exfalso.
      apply (Hnone k Hin). now apply in_list_In.
    + discriminate.
    + intros k' n out [= <- <- _]. split; [now apply in_list_In |].
      split; [exact Hin | reflexivity].
  - split; [| split].
    + split; [| reflexivity]. intros _ w Hw Hin.
      apply in_list_In in Hin.
      pose proof (find_none _ _ Hf w Hw) as Hnot. cbv beta in Hnot.
      congruence.
    + now intros e [= <-].
    + discriminate.
Qed.
